(** * file-processing-py: CSV and JSON codecs

    A shallow embedding of [csv_lib.py] and [json_lib.py] together with the
    properties their specification states about them.

    Python values are modelled as follows.
    - A [str] is the list of its code points ([pystr]); a character is the
      code point itself, an [N].
    - A raised exception is the [Raise] branch of [result]; the exception
      classes that the two modules can raise are the constructors of [exn].
    - A [list] is a Rocq list that grows at its end ([l ++ [x]] is
      [l.append(x)]); a [dict] is an association list in insertion order. *)

From Stdlib Require Import String Ascii.
From Stdlib Require Import List NArith ZArith Arith Lia Bool.
From Stdlib Require DecimalString.
Import ListNotations.

Set Implicit Arguments.

(** ** Python strings *)

Abbreviation char := N (only parsing).
Abbreviation pystr := (list N) (only parsing).

(** [str "abc"] is the Python literal ['abc'] (ASCII only). *)
Definition ch (a : ascii) : char := N_of_ascii a.
Definition str (s : string) : pystr := map N_of_ascii (list_ascii_of_string s).

Definition c_quote : char := 34%N.      (* the double quote *)
Definition c_backslash : char := 92%N.
Definition c_newline : char := 10%N.    (* '\n' *)
Definition c_return : char := 13%N.     (* '\r' *)
Definition c_tab : char := 9%N.         (* '\t' *)
Definition c_backspace : char := 8%N.   (* '\b' *)
Definition c_formfeed : char := 12%N.   (* '\f' *)
Definition c_space : char := 32%N.
Definition c_comma : char := 44%N.

(** [a == b] on strings. *)
Fixpoint pystr_eqb (a b : pystr) : bool :=
  match a, b with
  | [], [] => true
  | x :: a', y :: b' => N.eqb x y && pystr_eqb a' b'
  | _, _ => false
  end.

(** [s.startswith(p)] *)
Fixpoint startswith (s p : pystr) {struct p} : bool :=
  match p, s with
  | [], _ => true
  | y :: p', x :: s' => N.eqb x y && startswith s' p'
  | _ :: _, [] => false
  end.

(** [s.endswith(p)] *)
Definition endswith (s p : pystr) : bool :=
  (length p <=? length s) && pystr_eqb (skipn (length s - length p) s) p.

(** [sub in s] (substring test). *)
Fixpoint contains (sub s : pystr) : bool :=
  startswith s sub ||
  match s with
  | [] => false
  | _ :: s' => contains sub s'
  end.

(** [s[a:b]] and [s[a:]] for non-negative bounds. *)
Definition slice (s : pystr) (a b : nat) : pystr := firstn (b - a) (skipn a s).
Definition slice_from (s : pystr) (a : nat) : pystr := skipn a s.

(** [sep.join(l)] *)
Fixpoint join (sep : pystr) (l : list pystr) : pystr :=
  match l with
  | [] => []
  | [x] => x
  | x :: l' => x ++ sep ++ join sep l'
  end.

(** [s.replace(old, new)]: the occurrences of [old] are found from left to
    right and do not overlap.  [skip] counts the characters of a match that
    are still to be passed over. *)
Fixpoint replace_from (old new : pystr) (skip : nat) (s : pystr) : pystr :=
  match s with
  | [] => []
  | c :: s' =>
      match skip with
      | S k => replace_from old new k s'
      | O =>
          if startswith s old
          then new ++ replace_from old new (length old - 1) s'
          else c :: replace_from old new 0 s'
      end
  end.

Definition replace (s old new : pystr) : pystr :=
  match old with
  | [] => new ++ flat_map (fun c => c :: new) s
  | _ :: _ => replace_from old new 0 s
  end.

(** [s.strip(chars)]: [chars] is a set of characters. *)
Definition mem_char (c : char) (chars : pystr) : bool := existsb (N.eqb c) chars.

Fixpoint lstrip (s chars : pystr) : pystr :=
  match s with
  | [] => []
  | c :: s' => if mem_char c chars then lstrip s' chars else s
  end.

Definition rstrip (s chars : pystr) : pystr := rev (lstrip (rev s) chars).
Definition strip (s chars : pystr) : pystr := rstrip (lstrip s chars) chars.

(** ** Exceptions *)

(** The position that [format_err_str] writes into a message. *)
Record position : Type := mkPosition {
  pos_index : nat;
  pos_line : nat;
  pos_column : nat
}.

(** The message templates of the [SyntaxError]s of [json_lib]. *)
Inductive json_template : Type :=
| TUnexpectedCharacter (c : char)
| TExpectedColon (c : char)
| TExpectedCommaOrCloseBrace (c : char)
| TExpectedCommaOrCloseBracket (c : char)
| TExpectedNull (found : pystr)
| TExpectedBoolean (found : pystr)
| TExpectedQuote (c : char)
| TExpectedHexadecimal (c : char)
| TExpectedEscape (c : char)
| TExpectedStringCharacter (c : char)
| TEmptyNumber
| TDecimalPointWithoutDigitBefore
| TDigitAfterZero
| TDecimalPointWithoutDigitAfter
| TEmptyNonExponent
| TSecondDecimalPoint
| TExpectedDigit (c : char)
| TEndOfNumber.

Inductive syntax_error : Type :=
(* csv_lib *)
| CsvUnexpectedQuote (pos row cell line col : nat)
| CsvExpectedSeparatorOrQuote (pos row cell line col : nat)
| CsvUnexpectedEnd (pos : nat)
(* json_lib *)
| JsonExpectedEndOfInput (pos : nat)
| JsonUnexpectedEndOfFile (pos : nat)
| JsonAt (t : json_template) (p : position).

Inductive exn : Type :=
| SyntaxError (e : syntax_error)
| TypeError
| IndexError
| UnboundLocalError
| OverflowError
| ValueError
| OutOfFuel.   (* the recursion budget of the model is exhausted *)

Inductive result (A : Type) : Type :=
| Ok (a : A)
| Raise (e : exn).
Arguments Ok {A} a.
Arguments Raise {A} e.

Definition bind {A B : Type} (r : result A) (k : A -> result B) : result B :=
  match r with
  | Ok a => k a
  | Raise e => Raise e
  end.

Notation "x <- r ;; k" := (bind r (fun x => k))
  (at level 61, r at next level, right associativity).
Notation "' p <- r ;; k" := (bind r (fun x => let p := x in k))
  (at level 61, p pattern, r at next level, right associativity).

(** [s[i]]: raises [IndexError] out of range. *)
Definition index (s : pystr) (i : nat) : result char :=
  match nth_error s i with
  | Some c => Ok c
  | None => Raise IndexError
  end.

(** ** csv_lib.py *)

Module csv_lib.

(** [get_line_and_col(text, index)] *)
Fixpoint line_col_loop (text : pystr) (range : list nat)
    (line_count last_line_index : nat) : result (nat * nat) :=
  match range with
  | [] => Ok (line_count, last_line_index)
  | i :: range' =>
      c <- index text i ;;
      if N.eqb c c_newline
      then line_col_loop text range' (line_count + 1) i
      else line_col_loop text range' line_count last_line_index
  end.

Definition get_line_and_col (text : pystr) (index : nat) : result (nat * nat) :=
  '(line_count, last_line_index) <- line_col_loop text (seq 0 index) 0 0 ;;
  Ok (line_count, index - last_line_index).

(** [unescape_csv_cell(cell)] *)
Definition unescape_csv_cell (cell : pystr) : pystr :=
  replace (strip cell [c_quote]) [c_quote; c_quote] [c_quote].

(** The local variables of [parse_csv] that live across loop iterations. *)
Record state : Type := mkState {
  lines : list (list pystr);
  current_row : list pystr;
  out_of_cell : bool;
  cell_start_ind : nat;
  cell_is_quoted : bool;
  last_was_quote : bool
}.

Definition init : state := mkState [] [] true 0 false false.

Section parse.

Variables (csv quote_char comma_char new_line_char : pystr).

(** One iteration of the [for] loop of [parse_csv], at index [i] with
    [c = csv[i]]. *)
Definition step (st : state) (i : nat) (c : char) : result state :=
  let could_be_cell_end :=
    pystr_eqb [c] comma_char || pystr_eqb [c] new_line_char in
  (* if out_of_cell: *)
  let st1 :=
    if out_of_cell st
    then mkState (lines st) (current_row st) false i
                 (pystr_eqb [c] quote_char) false
    else st in
  if out_of_cell st && negb could_be_cell_end then Ok st1 (* continue *)
  else if negb (cell_is_quoted st1) && pystr_eqb [c] quote_char then
    '(line, col) <- get_line_and_col csv i ;;
    Raise (SyntaxError (CsvUnexpectedQuote i (length (lines st1))
                          (length (current_row st1)) line col))
  else if cell_is_quoted st1 && last_was_quote st1 && negb could_be_cell_end then
    if pystr_eqb [c] quote_char
    then Ok (mkState (lines st1) (current_row st1) (out_of_cell st1)
               (cell_start_ind st1) (cell_is_quoted st1) false) (* continue *)
    else
      '(line, col) <- get_line_and_col csv i ;;
      Raise (SyntaxError (CsvExpectedSeparatorOrQuote i (length (lines st1))
                            (length (current_row st1)) line col))
  else if (if cell_is_quoted st1 then last_was_quote st1 else true)
          && could_be_cell_end then
    (* end cell *)
    let cell_text := slice csv (cell_start_ind st1) i in
    let cell_text :=
      if cell_is_quoted st1 then unescape_csv_cell cell_text else cell_text in
    let row := current_row st1 ++ [cell_text] in
    if pystr_eqb [c] new_line_char
    then Ok (mkState (lines st1 ++ [row]) [] true (cell_start_ind st1) false false)
    else Ok (mkState (lines st1) row true (cell_start_ind st1) false false)
  else
    Ok (mkState (lines st1) (current_row st1) (out_of_cell st1)
          (cell_start_ind st1) (cell_is_quoted st1)
          (cell_is_quoted st1 && pystr_eqb [c] quote_char)).

(** [for i in range(len(csv)): c = csv[i] ...]; [rest] is [csv[i:]]. *)
Fixpoint scan (rest : pystr) (i : nat) (st : state) : result state :=
  match rest with
  | [] => Ok st
  | c :: rest' =>
      st' <- step st i c ;;
      scan rest' (S i) st'
  end.

(** The code after the loop: trailing cell and trailing row. *)
Definition finish (st : state) : result (list (list pystr)) :=
  row <-
    (if cell_is_quoted st then
       if last_was_quote st
       then Ok (current_row st
                  ++ [unescape_csv_cell (slice_from csv (cell_start_ind st))])
       else Raise (SyntaxError (CsvUnexpectedEnd (length csv)))
     else if negb (out_of_cell st) then
       Ok (current_row st ++ [slice_from csv (cell_start_ind st)])
     else if endswith csv comma_char then
       Ok (current_row st ++ [[]])
     else Ok (current_row st)) ;;
  if negb (length row =? 0) then Ok (lines st ++ [row]) else Ok (lines st).

Definition parse_csv_with : result (list (list pystr)) :=
  st <- scan csv 0 init ;;
  finish st.

End parse.

(** [parse_csv(csv, quote_char, comma_char, new_line_char)]; an argument
    that is left out ([None]) takes its default: the double quote, the comma
    and the line feed. *)
Definition parse_csv (csv : pystr)
    (quote_char comma_char new_line_char : option pystr)
    : result (list (list pystr)) :=
  parse_csv_with csv
    (match quote_char with Some q => q | None => [c_quote] end)
    (match comma_char with Some c => c | None => [c_comma] end)
    (match new_line_char with Some n => n | None => [c_newline] end).

(** [str_to_csv(csv, quote_char, comma_char, new_line_char)] *)
Definition str_to_csv (csv quote_char comma_char new_line_char : pystr) : pystr :=
  if contains quote_char csv || contains comma_char csv
     || contains new_line_char csv
  then [c_quote] ++ replace csv [c_quote] [c_quote; c_quote] ++ [c_quote]
  else csv.

(** [strs_to_csv(csv, quote_char, comma_char, new_line_char)], with the same
    defaults. *)
Definition strs_to_csv_with (csv : list (list pystr))
    (quote_char comma_char new_line_char : pystr) : pystr :=
  let rows :=
    map (fun row =>
           join comma_char
             (map (fun cell =>
                     str_to_csv cell quote_char comma_char new_line_char) row))
        csv in
  join new_line_char rows.

Definition strs_to_csv (csv : list (list pystr))
    (quote_char comma_char new_line_char : option pystr) : pystr :=
  strs_to_csv_with csv
    (match quote_char with Some q => q | None => [c_quote] end)
    (match comma_char with Some c => c | None => [c_comma] end)
    (match new_line_char with Some n => n | None => [c_newline] end).

End csv_lib.


(** ** json_lib.py *)

(** The characters that [json_lib] names. *)
Definition c_lbrace : N := Eval vm_compute in ch "{".
Definition c_rbrace : N := Eval vm_compute in ch "}".
Definition c_lbracket : N := Eval vm_compute in ch "[".
Definition c_rbracket : N := Eval vm_compute in ch "]".
Definition c_colon : N := Eval vm_compute in ch ":".
Definition c_slash : N := Eval vm_compute in ch "/".
Definition c_dot : N := Eval vm_compute in ch ".".
Definition c_plus : N := Eval vm_compute in ch "+".
Definition c_minus : N := Eval vm_compute in ch "-".
Definition c_0 : N := Eval vm_compute in ch "0".
Definition c_9 : N := Eval vm_compute in ch "9".
Definition c_a : N := Eval vm_compute in ch "a".
Definition c_b : N := Eval vm_compute in ch "b".
Definition c_e : N := Eval vm_compute in ch "e".
Definition c_f : N := Eval vm_compute in ch "f".
Definition c_n : N := Eval vm_compute in ch "n".
Definition c_r : N := Eval vm_compute in ch "r".
Definition c_t : N := Eval vm_compute in ch "t".
Definition c_u : N := Eval vm_compute in ch "u".

(** [c.lower()].  Only the ASCII letters are mapped.  [json_lib] applies
    [lower] to number tokens (whose only letter is [E]) and to one character
    that is then compared with the ranges [0-9] and [a-f]; no character
    outside ASCII has a lower-case form inside these ranges. *)
Definition lower_char (c : char) : char :=
  if N.leb 65 c && N.leb c 90 then (c + 32)%N else c.
Definition lower (s : pystr) : pystr := map lower_char s.

(** [s.find(sub)], counting from [k]. *)
Fixpoint str_find (s sub : pystr) (k : nat) : option nat :=
  if startswith s sub then Some k
  else match s with
       | [] => None
       | _ :: s' => str_find s' sub (S k)
       end.

(** [s.index(sub)] *)
Definition str_index (s sub : pystr) : result nat :=
  match str_find s sub 0 with
  | Some k => Ok k
  | None => Raise ValueError
  end.

(** The digits of [n] in base [base] (at most 16), lower case, without
    leading zeros: [str(n)] for base 10 and [hex(n)[2:]] for base 16. *)
Definition digit_char (d : N) : char :=
  if N.ltb d 10 then (c_0 + d)%N else (c_a + (d - 10))%N.

Fixpoint digits_from (base : N) (fuel : nat) (n : N) (acc : pystr) : pystr :=
  match fuel with
  | O => acc
  | S fuel' =>
      let acc' := digit_char (n mod base) :: acc in
      if N.eqb (n / base) 0 then acc'
      else digits_from base fuel' (n / base) acc'
  end.

Definition digits (base n : N) : pystr :=
  digits_from base (S (N.to_nat (N.log2 n))) n [].

(** [str(n)] for an [int]. *)
Definition str_of_int (n : Z) : pystr :=
  (if Z.ltb n 0 then [c_minus] else []) ++ digits 10 (Z.abs_N n).

(** [s.rjust(width, fill)] *)
Definition rjust (s : pystr) (width : nat) (fill : char) : pystr :=
  repeat fill (width - length s) ++ s.

(** [int(s, 16)] for a string of lower-case hexadecimal digits. *)
Definition hex_value (c : char) : N :=
  if N.leb c_0 c && N.leb c c_9 then (c - c_0)%N else (c - c_a + 10)%N.
Definition int16 (s : pystr) : N :=
  fold_left (fun acc c => (acc * 16 + hex_value c)%N) s 0%N.

Module json_lib.

Definition JSON_WHITESPACE : list N := [c_space; c_tab; c_return; c_newline].
Definition JSON_NUM_START_CHARS : list N :=
  Eval vm_compute in str "0123456789-".
Definition JSON_NUM_CHARS : list N :=
  Eval vm_compute in str "0123456789.eE+-".

Definition is_digit (c : char) : bool := N.leb c_0 c && N.leb c c_9.

(** [format_err_str(message, text, index)]: the message with its position
    filled in. *)
Fixpoint format_loop (text : pystr) (range : list nat)
    (line_count last_line_index : nat) : result (nat * nat) :=
  match range with
  | [] => Ok (line_count, last_line_index)
  | i :: range' =>
      c <- index text i ;;
      if N.eqb c c_newline
      then format_loop text range' (line_count + 1) i
      else format_loop text range' line_count last_line_index
  end.

Definition format_err_str (message : json_template) (text : pystr)
    (index : nat) : result syntax_error :=
  '(line_count, last_line_index) <- format_loop text (seq 0 index) 0 0 ;;
  Ok (JsonAt message (mkPosition index line_count (index - last_line_index))).

(** [raise SyntaxError(format_err_str(message, text, index))] *)
Definition raise_at {A : Type} (message : json_template) (text : pystr)
    (index : nat) : result A :=
  e <- format_err_str message text index ;;
  Raise (SyntaxError e).

(** [try: body except IndexError: raise SyntaxError(end of file)] *)
Definition except_index_error {A : Type} (json : pystr) (body : result A)
    : result A :=
  match body with
  | Raise IndexError =>
      Raise (SyntaxError (JsonUnexpectedEndOfFile (length json)))
  | r => r
  end.

(** [skip_whitespace(json, i)]; [rest] is [json[i:]]. *)
Fixpoint skip_whitespace_loop (rest : pystr) (i : nat) : nat :=
  match rest with
  | c :: rest' =>
      if mem_char c JSON_WHITESPACE then skip_whitespace_loop rest' (i + 1)
      else i
  | [] => i
  end.

Definition skip_whitespace (json : pystr) (i : nat) : nat :=
  skip_whitespace_loop (skipn i json) i.

(** [parse_json_str(json, i)]: the [while True] loop; [rest] is [json[i:]]. *)
Fixpoint str_loop (json rest : pystr) (i : nat) (last_was_esc : bool)
    (char_list : pystr) (hex_char_str : option pystr)
    : result (pystr * nat) :=
  match rest with
  | [] => Raise IndexError               (* c = json[i] *)
  | c :: rest' =>
      let i := i + 1 in
      match hex_char_str with
      | Some h =>
          let l := lower_char c in
          if (N.leb c_0 l && N.leb l c_9) || (N.leb c_a l && N.leb l c_f)
          then
            let h := h ++ [l] in
            if length h =? 4
            then str_loop json rest' i last_was_esc
                   (char_list ++ [int16 h]) None
            else str_loop json rest' i last_was_esc char_list (Some h)
          else raise_at (TExpectedHexadecimal c) json i
      | None =>
          if N.eqb c c_quote && negb last_was_esc then Ok (char_list, i)
          else if last_was_esc then
            if N.eqb c c_b
            then str_loop json rest' i false (char_list ++ [c_backspace]) None
            else if N.eqb c c_f
            then str_loop json rest' i false (char_list ++ [c_formfeed]) None
            else if N.eqb c c_n
            then str_loop json rest' i false (char_list ++ [c_newline]) None
            else if N.eqb c c_t
            then str_loop json rest' i false (char_list ++ [c_tab]) None
            else if N.eqb c c_r
            then str_loop json rest' i false (char_list ++ [c_return]) None
            else if N.eqb c c_slash
            then str_loop json rest' i false (char_list ++ [c_slash]) None
            else if N.eqb c c_quote
            then str_loop json rest' i false (char_list ++ [c_quote]) None
            else if N.eqb c c_backslash
            then str_loop json rest' i false (char_list ++ [c_backslash]) None
            else if N.eqb c c_u
            then str_loop json rest' i false char_list (Some [])
            else raise_at (TExpectedEscape c) json i
          else if N.eqb c c_backslash
          then str_loop json rest' i true char_list None
          else if negb ((N.leb 32 c && N.leb c 33)
                        || (N.leb 35 c && N.leb c 91)
                        || (N.leb 93 c && N.leb c 1114111))
          then raise_at (TExpectedStringCharacter c) json i
          else str_loop json rest' i false (char_list ++ [c]) None
      end
  end.

Definition parse_json_str (json : pystr) (i : nat) : result (pystr * nat) :=
  c <- index json i ;;
  if negb (N.eqb c c_quote) then raise_at (TExpectedQuote c) json i
  else
    let i := i + 1 in
    except_index_error json (str_loop json (skipn i json) i false [] None).

(** [parse_json_boolean(json, i)] *)
Definition parse_json_boolean (json : pystr) (i : nat) : result (bool * nat) :=
  if negb (startswith (skipn i json) (str "true"))
     && negb (startswith (skipn i json) (str "false"))
  then raise_at (TExpectedBoolean (slice json i (i + 5))) json i
  else if pystr_eqb (slice json i (i + 4)) (str "true")
       then Ok (true, i + 4) else Ok (false, i + 5).

(** The two [for] loops of [parse_json_number]. *)
Fixpoint before_e_loop (json before_e : pystr) (i : nat) (reached_dec : bool)
    : result (nat * bool) :=
  match before_e with
  | [] => Ok (i, reached_dec)
  | c :: rest =>
      if N.eqb c c_dot then
        if reached_dec then raise_at TSecondDecimalPoint json i
        else before_e_loop json rest (i + 1) true
      else if N.ltb c c_0 || N.ltb c_9 c
      then raise_at (TExpectedDigit c) json i
      else before_e_loop json rest i reached_dec
  end.

Fixpoint after_e_loop (json after_e : pystr) (i : nat) : result nat :=
  match after_e with
  | [] => Ok i
  | c :: rest =>
      if N.ltb c c_0 || N.ltb c_9 c
      then raise_at (TExpectedDigit c) json i
      else after_e_loop json rest (i + 1)
  end.

(** [while ind < len(json) and json[ind] in JSON_NUM_CHARS: ind += 1];
    [rest] is [json[ind:]]. *)
Fixpoint number_end_loop (rest : pystr) (ind : nat) : nat :=
  match rest with
  | c :: rest' =>
      if mem_char c JSON_NUM_CHARS then number_end_loop rest' (ind + 1)
      else ind
  | [] => ind
  end.

Section float.

(** Python's [float]: the type, [float(s)] on a string that holds a decimal
    literal, [str(x)] and [math.isfinite(x)]. *)
Variable float : Type.
Variable float_of_str : pystr -> float.
Variable str_of_float : float -> pystr.
Variable isfinite : float -> bool.

(** [parse_json_number(json, i)] *)
Definition parse_json_number (json : pystr) (i : nat) : result (float * nat) :=
  let ind := number_end_loop (skipn i json) i in
  let num := slice json i ind in
  let negative := startswith num [c_minus] in
  if length num =? 0 then raise_at TEmptyNumber json i
  else
    let num := if negative then slice_from num 1 else num in
    let i := if negative then i + 1 else i in
    if startswith num [c_dot]
    then raise_at TDecimalPointWithoutDigitBefore json i
    else if (2 <=? length num)
            && N.eqb (nth 0 num 0%N) c_0
            && N.leb c_0 (nth 1 num 0%N) && N.leb (nth 1 num 0%N) c_9
    then raise_at TDigitAfterZero json (i + 1)
    else
      e_index <-
        (if contains [c_e] (lower num) then str_index (lower num) [c_e]
         else Ok (length num)) ;;
      let before_e := slice num 0 e_index in
      if endswith before_e [c_dot]
      then raise_at TDecimalPointWithoutDigitAfter json
             (i + length before_e - 1)
      else if length before_e =? 0 then raise_at TEmptyNonExponent json i
      else
        _ <- before_e_loop json before_e i false ;;
        _ <-
          (if negb (e_index =? length num) then
             let i := e_index + 1 in
             let after_e := slice_from num (e_index + 1) in
             let signed :=
               startswith after_e [c_plus] || startswith after_e [c_minus] in
             let after_e := if signed then slice_from after_e 1 else after_e in
             let i := if signed then i + 1 else i in
             if length after_e =? 0 then raise_at TEndOfNumber json i
             else after_e_loop json after_e i
           else Ok i) ;;
        let num := if negative then [c_minus] ++ num else num in
        Ok (float_of_str num, ind).

(** The values that [to_json] is applied to and that [parse_json] returns.
    [VOther] stands for a Python object of any other type. *)
#[local] Unset Elimination Schemes.
Inductive value : Type :=
| VNone
| VBool (b : bool)
| VInt (n : Z)
| VFloat (x : float)
| VStr (s : pystr)
| VList (l : list value)
| VDict (d : list (pystr * value))
| VOther.
#[local] Set Elimination Schemes.

(** [parse_json_null(json, i)] *)
Definition parse_json_null (json : pystr) (i : nat) : result (value * nat) :=
  if negb (startswith (skipn i json) (str "null"))
  then raise_at (TExpectedNull (slice json i (i + 4))) json i
  else Ok (VNone, i + 4).

(** [obj[key] = val] on a [dict]: an existing key keeps its place. *)
Fixpoint dict_set (obj : list (pystr * value)) (key : pystr) (val : value)
    : list (pystr * value) :=
  match obj with
  | [] => [(key, val)]
  | (k, v) :: obj' =>
      if pystr_eqb k key then (k, val) :: obj'
      else (k, v) :: dict_set obj' key val
  end.

Section loops.

(** The recursive calls [parse_json_base(json, i)]. *)
Variable parse_json_base_rec : pystr -> nat -> result (value * nat).

(** The [while True] loop of [parse_json_obj]; [c] is [None] while the
    local variable [c] is unbound.  [fuel] bounds the iterations. *)
Fixpoint obj_loop (fuel : nat) (json : pystr) (i : nat)
    (obj : list (pystr * value)) (c : option char)
    : result (list (pystr * value) * nat) :=
  match fuel with
  | O => Raise OutOfFuel
  | S fuel' =>
      '(key, i) <- parse_json_str json i ;;
      let i := skip_whitespace json i in
      c' <- index json i ;;
      if negb (N.eqb c' c_colon) then
        match c with
        | None => Raise UnboundLocalError
        | Some c => raise_at (TExpectedColon c) json i
        end
      else
        let i := i + 1 in
        let i := skip_whitespace json i in
        '(val, i) <- parse_json_base_rec json i ;;
        let obj := dict_set obj key val in
        let i := skip_whitespace json i in
        c <- index json i ;;
        if N.eqb c c_rbrace then Ok (obj, i + 1)
        else if negb (N.eqb c c_comma)
        then raise_at (TExpectedCommaOrCloseBrace c) json i
        else
          let i := i + 1 in
          let i := skip_whitespace json i in
          obj_loop fuel' json i obj (Some c)
  end.

(** [parse_json_obj(json, i)] *)
Definition parse_json_obj (fuel : nat) (json : pystr) (i : nat)
    : result (list (pystr * value) * nat) :=
  c0 <- index json i ;;
  if negb (N.eqb c0 c_lbrace) then Raise UnboundLocalError
  else
    let i := i + 1 in
    let i := skip_whitespace json i in
    except_index_error json
      (c1 <- index json i ;;
       if N.eqb c1 c_rbrace then Ok ([], i + 1)
       else obj_loop fuel json i [] None).

(** The [while True] loop of [parse_json_arr]. *)
Fixpoint arr_loop (fuel : nat) (json : pystr) (i : nat) (arr : list value)
    : result (list value * nat) :=
  match fuel with
  | O => Raise OutOfFuel
  | S fuel' =>
      '(val, i) <- parse_json_base_rec json i ;;
      let arr := arr ++ [val] in
      let i := skip_whitespace json i in
      c <- index json i ;;
      if N.eqb c c_rbracket then Ok (arr, i + 1)
      else if negb (N.eqb c c_comma)
      then raise_at (TExpectedCommaOrCloseBracket c) json i
      else
        let i := i + 1 in
        let i := skip_whitespace json i in
        arr_loop fuel' json i arr
  end.

(** [parse_json_arr(json, i)] *)
Definition parse_json_arr (fuel : nat) (json : pystr) (i : nat)
    : result (list value * nat) :=
  c0 <- index json i ;;
  if negb (N.eqb c0 c_lbracket) then Raise UnboundLocalError
  else
    let i := i + 1 in
    let i := skip_whitespace json i in
    except_index_error json
      (c1 <- index json i ;;
       if N.eqb c1 c_rbracket then Ok ([], i + 1)
       else arr_loop fuel json i []).

End loops.

(** [parse_json_base(json, i)]; [fuel] bounds the depth of the recursion
    and the iterations of the loops of the calls it makes. *)
Fixpoint parse_json_base (fuel : nat) (json : pystr) (i : nat)
    : result (value * nat) :=
  match fuel with
  | O => Raise OutOfFuel
  | S fuel' =>
      let i := skip_whitespace json i in
      if length json <=? i
      then Raise (SyntaxError (JsonUnexpectedEndOfFile (length json)))
      else
        c <- index json i ;;
        if N.eqb c c_lbrace then
          '(obj, i) <- parse_json_obj (parse_json_base fuel') fuel' json i ;;
          Ok (VDict obj, i)
        else if N.eqb c c_lbracket then
          '(arr, i) <- parse_json_arr (parse_json_base fuel') fuel' json i ;;
          Ok (VList arr, i)
        else if N.eqb c c_quote then
          '(s, i) <- parse_json_str json i ;;
          Ok (VStr s, i)
        else if N.eqb c c_n then parse_json_null json i
        else if N.eqb c c_t || N.eqb c c_f then
          '(b, i) <- parse_json_boolean json i ;;
          Ok (VBool b, i)
        else if mem_char c JSON_NUM_START_CHARS then
          '(x, i) <- parse_json_number json i ;;
          Ok (VFloat x, i)
        else raise_at (TUnexpectedCharacter c) json i
  end.

(** [parse_json(json)].  One unit of fuel per character of the text is
    more than the recursion and the loops can use. *)
Definition parse_json (json : pystr) : result value :=
  '(parsed, i) <- parse_json_base (S (length json)) json 0 ;;
  let i := skip_whitespace json i in
  if i <? length json then Raise (SyntaxError (JsonExpectedEndOfInput i))
  else Ok parsed.

(** [increase_indent(text, spaces)] *)
Definition increase_indent (text spaces : pystr) : pystr :=
  replace text [c_newline] ([c_newline] ++ spaces).

(** [escape_str_for_json(string)] *)
Definition escape_str_for_json (string : pystr) : pystr :=
  let string := replace string [c_backslash] [c_backslash; c_backslash] in
  let string := replace string [c_quote] [c_backslash; c_quote] in
  let string := replace string [c_newline] [c_backslash; c_n] in
  let string := replace string [c_return] [c_backslash; c_r] in
  let string := replace string [c_backspace] [c_backslash; c_b] in
  let string := replace string [c_tab] [c_backslash; c_t] in
  let string := replace string [c_formfeed] [c_backslash; c_f] in
  let char_arr :=
    map (fun n =>
           if N.leb n 31 || (N.leb 55296 n && N.leb n 57343)
           then [c_backslash; c_u] ++ rjust (digits 16 n) 4 c_0
           else [n])
        string in
  [c_quote] ++ concat char_arr ++ [c_quote].

(** [math.isfinite(n)] for an [int] converts it to a [float] first; the
    conversion raises [OverflowError] from [2**1024 - 2**970] on. *)
Definition int_isfinite (n : Z) : result bool :=
  if Z.leb (2 ^ 1024 - 2 ^ 970) (Z.abs n) then Raise OverflowError
  else Ok true.

(** [if num.endswith('.0'): num = num[:-2]] *)
Definition chop_dot_zero (num : pystr) : pystr :=
  if endswith num [c_dot; c_0] then firstn (length num - 2) num else num.

Section to_json_loops.

(** The recursive calls [to_json(val, spaces)]. *)
Variable to_json_rec : value -> result pystr.
Variable spaces : option pystr.

(** [for key in keys: ...] in the [dict] branch of [to_json].  The members
    are visited in insertion order; [data[key]] is the value stored with
    [key]. *)
Fixpoint members_loop (keys : list (pystr * value)) (is_first : bool)
    (str_arr : list pystr) : result (list pystr) :=
  match keys with
  | [] => Ok str_arr
  | (key, val) :: keys' =>
      let str_arr := if is_first then str_arr else str_arr ++ [[c_comma]] in
      let str_arr :=
        match spaces with
        | Some sp => str_arr ++ [[c_newline]; sp]
        | None => str_arr
        end in
      let str_arr := str_arr ++ [escape_str_for_json key; [c_colon]] in
      let str_arr :=
        match spaces with
        | Some _ => str_arr ++ [[c_space]]
        | None => str_arr
        end in
      stringified <- to_json_rec val ;;
      members_loop keys' false
        (str_arr
           ++ [match spaces with
               | None => stringified
               | Some sp => increase_indent stringified sp
               end])
  end.

(** [for val in data: ...] in the [list] branch of [to_json]. *)
Fixpoint elements_loop (vals : list value) (is_first : bool)
    (str_arr : list pystr) : result (list pystr) :=
  match vals with
  | [] => Ok str_arr
  | val :: vals' =>
      let str_arr := if is_first then str_arr else str_arr ++ [[c_comma]] in
      let str_arr :=
        match spaces with
        | Some sp => str_arr ++ [[c_newline]; sp]
        | None => str_arr
        end in
      stringified <- to_json_rec val ;;
      elements_loop vals' false
        (str_arr
           ++ [match spaces with
               | None => stringified
               | Some sp => increase_indent stringified sp
               end])
  end.

End to_json_loops.

(** [to_json(data, spaces)] once [spaces] is a string or [None]. *)
Fixpoint to_json_str (data : value) (spaces : option pystr) : result pystr :=
  match data with
  | VNone => Ok (str "null")
  | VStr s => Ok (escape_str_for_json s)
  | VBool b => Ok (if b then str "true" else str "false")
  | VInt n =>
      finite <- int_isfinite n ;;
      if negb finite then Raise TypeError
      else Ok (chop_dot_zero (str_of_int n))
  | VFloat x =>
      if negb (isfinite x) then Raise TypeError
      else Ok (chop_dot_zero (str_of_float x))
  | VDict d =>
      if length d =? 0 then Ok (str "{}")
      else
        str_arr <-
          members_loop (fun val => to_json_str val spaces) spaces d true
            [[c_lbrace]] ;;
        let str_arr :=
          match spaces with
          | Some _ => str_arr ++ [[c_newline]]
          | None => str_arr
          end in
        Ok (concat (str_arr ++ [[c_rbrace]]))
  | VList l =>
      if length l =? 0 then Ok (str "[]")
      else
        str_arr <-
          elements_loop (fun val => to_json_str val spaces) spaces l true
            [[c_lbracket]] ;;
        let str_arr :=
          match spaces with
          | Some _ => str_arr ++ [[c_newline]]
          | None => str_arr
          end in
        Ok (concat (str_arr ++ [[c_rbracket]]))
  | VOther => Raise TypeError
  end.

(** The argument [spaces] of [to_json]: an [int] or a [str]. *)
Inductive spaces_arg : Type :=
| SpacesInt (n : Z)
| SpacesStr (s : pystr).

(** [to_json(data, spaces=None)] *)
Definition to_json (data : value) (spaces : option spaces_arg)
    : result pystr :=
  to_json_str data
    (match spaces with
     | None => None
     | Some (SpacesInt n) => Some (repeat c_space (Z.to_nat n))
     | Some (SpacesStr s) => Some s
     end).

End float.

Arguments VNone {float}.
Arguments VBool {float} b.
Arguments VInt {float} n.
Arguments VStr {float} s.
Arguments VOther {float}.
Arguments parse_json_null {float} json i.

End json_lib.

(** ** Predicates used in the statements about csv_lib *)

Definition table : Type := list (list (list N)).

Definition nonempty_rows (rows : table) : Prop :=
  Forall (fun row => row <> []) rows.

(** Between cells no cell is quoted. *)
Definition between_cells_ok (st : csv_lib.state) : Prop :=
  csv_lib.out_of_cell st = true -> csv_lib.cell_is_quoted st = false.

(** A cell that neither begins nor ends with the double quote. *)
Definition quote_free_ends (cell : pystr) : bool :=
  negb (startswith cell [c_quote]) && negb (endswith cell [c_quote]).

(** The only cell of the row is the empty string. *)
Definition is_blank_row (row : list (list N)) : bool :=
  match row with
  | [ [] ] => true
  | _ => false
  end.

(** The tables that the CSV text can tell apart: no row without cells, and
    the last row is not a lone empty cell. *)
Fixpoint representable (t : table) : bool :=
  match t with
  | [] => true
  | [row] => negb (length row =? 0) && negb (is_blank_row row)
  | row :: t' => negb (length row =? 0) && representable t'
  end.

Definition cells_quote_free_ends (t : table) : bool :=
  forallb (forallb quote_free_ends) t.

(** The scan of [parse_csv] with the default delimiters, resumed after the
    prefix [pre] of the text [pre ++ rest]. *)
Definition csv_run (pre rest : pystr) (st : csv_lib.state)
    : result csv_lib.state :=
  csv_lib.scan (pre ++ rest) [c_quote] [c_comma] [c_newline] rest
    (length pre) st.

(** A character that is neither the quote nor a separator. *)
Definition plain_char (c : char) : bool :=
  negb (N.eqb c c_quote) && negb (N.eqb c c_comma) && negb (N.eqb c c_newline).

Definition double_quotes (s : pystr) : pystr :=
  flat_map (fun x => if N.eqb x c_quote then [c_quote; c_quote] else [x]) s.

Definition ser_cell (cell : pystr) : pystr :=
  csv_lib.str_to_csv cell [c_quote] [c_comma] [c_newline].

Definition ser_row (row : list pystr) : pystr :=
  join [c_comma] (map ser_cell row).

(** The state of the scan after a cell that [sep] has closed. *)
Definition after_cell (sep : N) (L : table) (R : list (list N))
    (cell : list N) (s : nat) : csv_lib.state :=
  if N.eqb sep c_newline
  then csv_lib.mkState (L ++ [R ++ [cell]]) [] true s false false
  else csv_lib.mkState L (R ++ [cell]) true s false false.

(** Serialised rows, each followed by the row separator. *)
Definition ser_rows (rows : table) : list N :=
  concat (map (fun r => ser_row r ++ [c_newline]) rows).


(** ** Texts and predicates used in the statements about json_lib *)

(** The seven lines of the pretty-printing example. *)
Definition pretty_expected : list N :=
  [c_lbrace; c_newline]
  ++ str "  " ++ [c_quote] ++ str "a" ++ [c_quote] ++ str ": 1,"
  ++ [c_newline]
  ++ str "  " ++ [c_quote] ++ str "b" ++ [c_quote] ++ str ": ["
  ++ [c_newline]
  ++ str "    1," ++ [c_newline]
  ++ str "    2" ++ [c_newline]
  ++ str "  ]" ++ [c_newline]
  ++ str "}".


Section json_spec.

Import json_lib.

Variable float : Type.

(** [obj[key]], if the key is present. *)
Fixpoint dict_get (obj : list (list N * value float)) (key : list N)
    : option (value float) :=
  match obj with
  | [] => None
  | (k, v) :: obj' => if pystr_eqb k key then Some v else dict_get obj' key
  end.

(** One member read by [parse_json_obj]: [obj[key] = val]. *)
Definition set_member (obj : list (list N * value float))
    (kv : list N * value float) : list (list N * value float) :=
  dict_set obj (fst kv) (snd kv).

Definition has_key (key : list N) (keys : list (list N)) : bool :=
  existsb (pystr_eqb key) keys.

(** The keys in the order in which they first appear. *)
Fixpoint first_occurrences (keys : list (list N)) : list (list N) :=
  match keys with
  | [] => []
  | k :: keys' =>
      k :: filter (fun k' => negb (pystr_eqb k k')) (first_occurrences keys')
  end.

(** The value of the last member whose key is [key]. *)
Definition last_value (key : list N) (members : list (list N * value float))
    : option (value float) :=
  match find (fun kv => pystr_eqb (fst kv) key) (rev members) with
  | Some kv => Some (snd kv)
  | None => None
  end.

Variable parse_value : list N -> nat -> result (value float * nat).

(** [object_members json i members j]: from offset [i] the text holds the
    members [key : value], separated by commas, in this order, and the
    closing brace ends just before offset [j]. *)
Inductive object_members (json : list N)
    : nat -> list (list N * value float) -> nat -> Prop :=
| members_last (i i1 i2 : nat) (key : list N) (val : value float) :
    parse_json_str json i = Ok (key, i1) ->
    index json (skip_whitespace json i1) = Ok c_colon ->
    parse_value json (skip_whitespace json (skip_whitespace json i1 + 1))
    = Ok (val, i2) ->
    index json (skip_whitespace json i2) = Ok c_rbrace ->
    object_members json i [(key, val)] (skip_whitespace json i2 + 1)
| members_more (i i1 i2 j : nat) (key : list N) (val : value float)
    (members : list (list N * value float)) :
    parse_json_str json i = Ok (key, i1) ->
    index json (skip_whitespace json i1) = Ok c_colon ->
    parse_value json (skip_whitespace json (skip_whitespace json i1 + 1))
    = Ok (val, i2) ->
    index json (skip_whitespace json i2) = Ok c_comma ->
    object_members json (skip_whitespace json (skip_whitespace json i2 + 1))
      members j ->
    object_members json i ((key, val) :: members) j.

(** [object_at json i members j]: an object text from the brace at offset
    [i] to just before offset [j], with these members. *)
Inductive object_at (json : list N)
    : nat -> list (list N * value float) -> nat -> Prop :=
| object_empty (i : nat) :
    index json i = Ok c_lbrace ->
    index json (skip_whitespace json (i + 1)) = Ok c_rbrace ->
    object_at json i [] (skip_whitespace json (i + 1) + 1)
| object_nonempty (i j : nat) (members : list (list N * value float)) :
    index json i = Ok c_lbrace ->
    object_members json (skip_whitespace json (i + 1)) members j ->
    object_at json i members j.

End json_spec.

Arguments dict_get {float} obj key.
Arguments set_member {float} obj kv.
Arguments last_value {float} key members.
Arguments object_members {float} parse_value json _ _ _.
Arguments object_at {float} parse_value json _ _ _.

(** *** The grammar of number tokens *)

Section take_drop.

Variable p : N -> bool.

Fixpoint take_while (s : list N) : list N :=
  match s with
  | c :: s' => if p c then c :: take_while s' else []
  | [] => []
  end.

Fixpoint drop_while (s : list N) : list N :=
  match s with
  | c :: s' => if p c then drop_while s' else s
  | [] => []
  end.

End take_drop.

(** The token that [parse_json_number] scans at offset [i]: the longest run
    of characters of [JSON_NUM_CHARS]. *)
Definition number_token (json : list N) (i : nat) : list N :=
  take_while (fun c => mem_char c json_lib.JSON_NUM_CHARS) (skipn i json).

Definition is_sign (c : N) : bool := N.eqb c c_plus || N.eqb c c_minus.
Definition is_exponent_mark (c : N) : bool := N.eqb c c_e || N.eqb c 69%N.

(** The grammar, as the specification words it.  [digits1 s]: [s] is one
    digit or more and nothing else. *)
Definition digits1 (s : list N) : bool :=
  negb (length s =? 0) && forallb json_lib.is_digit s.

(** After the mark [e] or [E]: an optional sign and at least one digit. *)
Definition exponent_ok (s : list N) : bool :=
  match s with
  | c :: s' => if is_sign c then digits1 s' else digits1 s
  | [] => false
  end.

(** After the [.]: at least one digit, then the end or an exponent. *)
Definition fraction_ok (s : list N) : bool :=
  let frac := take_while json_lib.is_digit s in
  negb (length frac =? 0)
  && match drop_while json_lib.is_digit s with
     | [] => true
     | c :: s' => is_exponent_mark c && exponent_ok s'
     end.

(** The token without its optional leading [-]: a non-empty integer part of
    digits that is not a [0] followed by another digit, then an optional
    fraction and an optional exponent. *)
Definition unsigned_number_ok (s : list N) : bool :=
  let int := take_while json_lib.is_digit s in
  negb (length int =? 0)
  && negb (match int with
           | c :: _ :: _ => N.eqb c c_0
           | _ => false
           end)
  && match drop_while json_lib.is_digit s with
     | [] => true
     | c :: s' =>
         if N.eqb c c_dot then fraction_ok s'
         else is_exponent_mark c && exponent_ok s'
     end.

Definition number_token_ok (tok : list N) : bool :=
  match tok with
  | c :: s => if N.eqb c c_minus then unsigned_number_ok s
              else unsigned_number_ok tok
  | [] => false
  end.

(** The checks that [parse_json_number] makes on the token without its
    sign, in its order, as a predicate. *)
Fixpoint digits_and_one_point (s : list N) (reached_dec : bool) : bool :=
  match s with
  | [] => true
  | c :: s' =>
      if N.eqb c c_dot then
        if reached_dec then false else digits_and_one_point s' true
      else json_lib.is_digit c && digits_and_one_point s' reached_dec
  end.

Definition number_checks (num : list N) : bool :=
  let before_e := take_while (fun c => negb (is_exponent_mark c)) num in
  negb (startswith num [c_dot])
  && negb ((2 <=? length num) && N.eqb (nth 0 num 0%N) c_0
           && json_lib.is_digit (nth 1 num 0%N))
  && negb (endswith before_e [c_dot])
  && negb (length before_e =? 0)
  && digits_and_one_point before_e false
  && match drop_while (fun c => negb (is_exponent_mark c)) num with
     | [] => true
     | _ :: after_e => exponent_ok after_e
     end.

(** The part of [parse_json_number] that follows the removal of the sign:
    [num] is the token without it, [i] the offset of [num] and [negative]
    tells whether there was a sign. *)
Definition number_body (float : Type) (float_of_str : list N -> float)
    (json num : list N) (i : nat) (negative : bool) (ind : nat)
    : result (float * nat) :=
  if startswith num [c_dot]
  then json_lib.raise_at TDecimalPointWithoutDigitBefore json i
  else if (2 <=? length num)
          && N.eqb (nth 0 num 0%N) c_0
          && N.leb c_0 (nth 1 num 0%N) && N.leb (nth 1 num 0%N) c_9
  then json_lib.raise_at TDigitAfterZero json (i + 1)
  else
    e_index <-
      (if contains [c_e] (lower num) then str_index (lower num) [c_e]
       else Ok (length num)) ;;
    let before_e := slice num 0 e_index in
    if endswith before_e [c_dot]
    then json_lib.raise_at TDecimalPointWithoutDigitAfter json
           (i + length before_e - 1)
    else if length before_e =? 0
    then json_lib.raise_at TEmptyNonExponent json i
    else
      _ <- json_lib.before_e_loop json before_e i false ;;
      _ <-
        (if negb (e_index =? length num) then
           let i := e_index + 1 in
           let after_e := slice_from num (e_index + 1) in
           let signed :=
             startswith after_e [c_plus] || startswith after_e [c_minus] in
           let after_e := if signed then slice_from after_e 1 else after_e in
           let i := if signed then i + 1 else i in
           if length after_e =? 0
           then json_lib.raise_at TEndOfNumber json i
           else json_lib.after_e_loop json after_e i
         else Ok i) ;;
      let num := if negative then [c_minus] ++ num else num in
      Ok (float_of_str num, ind).

(** *** Values that JSON text can hold *)

(** A string of code points, each at most [0x10FFFF]. *)
Definition valid_str (s : list N) : bool :=
  forallb (fun c => N.leb c 1114111) s.

Fixpoint keys_unique (keys : list (list N)) : bool :=
  match keys with
  | [] => true
  | k :: keys' => negb (has_key k keys') && keys_unique keys'
  end.

Section json_values.

Import json_lib.

Variable float : Type.
Variable isfinite : float -> bool.

(** The values of the data model: null, booleans, finite numbers (floats,
    and the integers that [to_json] can convert to a float), strings,
    arrays, and objects with distinct string keys. *)
Fixpoint supported (v : value float) : bool :=
  match v with
  | VNone => true
  | VBool _ => true
  | VInt n => Z.ltb (Z.abs n) (2 ^ 1024 - 2 ^ 970)
  | VFloat x => isfinite x
  | VStr s => valid_str s
  | VList l => forallb supported l
  | VDict d =>
      keys_unique (map fst d)
      && forallb (fun kv => valid_str (fst kv) && supported (snd kv)) d
  | VOther => false
  end.

(** The value holds an [int]. *)
Fixpoint has_int (v : value float) : bool :=
  match v with
  | VInt _ => true
  | VList l => existsb has_int l
  | VDict d => existsb (fun kv => has_int (snd kv)) d
  | _ => false
  end.

(** [float(n)] for an [int]. *)
Variable float_of_int : Z -> float.

(** The value with every integer replaced by its float. *)
Fixpoint as_floats (v : value float) : value float :=
  match v with
  | VInt n => VFloat (float_of_int n)
  | VList l => VList (map as_floats l)
  | VDict d => VDict (map (fun kv => (fst kv, as_floats (snd kv))) d)
  | _ => v
  end.

End json_values.

(** An integer literal: an optional [-] and digits. *)
Definition int_literal (s : list N) : bool :=
  match s with
  | c :: s' => if N.eqb c c_minus then digits1 s' else digits1 s
  | [] => false
  end.

(** What [escape_str_for_json] writes for one character. *)
Definition escape_char (c : N) : list N :=
  if N.eqb c c_backslash then [c_backslash; c_backslash]
  else if N.eqb c c_quote then [c_backslash; c_quote]
  else if N.eqb c c_newline then [c_backslash; c_n]
  else if N.eqb c c_return then [c_backslash; c_r]
  else if N.eqb c c_backspace then [c_backslash; c_b]
  else if N.eqb c c_tab then [c_backslash; c_t]
  else if N.eqb c c_formfeed then [c_backslash; c_f]
  else if N.leb c 31 || (N.leb 55296 c && N.leb c 57343)
  then [c_backslash; c_u] ++ rjust (digits 16 c) 4 c_0
  else [c].

(** The text after a value does not continue a number token. *)
Definition delimited (post : list N) : bool :=
  match post with
  | [] => true
  | c :: _ => negb (mem_char c json_lib.JSON_NUM_CHARS)
  end.

(** The check behind the four hexadecimal digits of an escape: the digits
    are lower-case hexadecimal and give back the code point. *)
Definition is_hex_lower (c : N) : bool :=
  (N.leb c_0 c && N.leb c c_9) || (N.leb c_a c && N.leb c c_f).

Definition hex4_ok (c : N) : bool :=
  match rjust (digits 16 c) 4 c_0 with
  | [h3; h2; h1; h0] =>
      is_hex_lower h3 && is_hex_lower h2 && is_hex_lower h1 && is_hex_lower h0
      && N.eqb (int16 [h3; h2; h1; h0]) c
  | _ => false
  end.

(** The pieces that the loops of [to_json] append for the texts [ts] of
    the elements, without indentation. *)
Fixpoint comma_sep (is_first : bool) (ts : list (list N)) : list (list N) :=
  match ts with
  | [] => []
  | t :: ts' =>
      (if is_first then [t] else [[c_comma]; t]) ++ comma_sep false ts'
  end.

(** The compact text of a member, given the text of its value. *)
Definition member_text (key t : list N) : list N :=
  json_lib.escape_str_for_json key ++ [c_colon] ++ t.

(** The first character of the text of a value: not white space and not a
    closing bracket. *)
Definition value_start (c : N) : bool :=
  negb (mem_char c json_lib.JSON_WHITESPACE) && negb (N.eqb c c_rbracket).

(** [parses_at parse v t]: wherever the text [t] stands, followed by a
    text that does not continue a number, [parse] returns [v] and the
    offset after [t]. *)
Definition parses_at (float : Type)
    (parse : list N -> nat -> result (json_lib.value float * nat))
    (v : json_lib.value float) (t : list N) : Prop :=
  forall json pre post,
    json = pre ++ t ++ post -> delimited post = true ->
    parse json (length pre) = Ok (v, length pre + length t).

(** The text begins with a character that can begin a value. *)
Definition starts_value (t : list N) : Prop :=
  exists c r, t = c :: r /\ value_start c = true.

(** *** The float of Python, for the statements about round trips

    [float_contract] collects what the round trip needs from Python's
    [float]: [str(x)] of a finite float is a decimal literal of the JSON
    grammar, [float(str(x))] is [x], an integer literal denotes the same
    float with and without a final [.0], and [float] of the decimal digits
    of an integer is the float of the integer. *)
Record float_contract (float : Type) (float_of_str : list N -> float)
    (str_of_float : float -> list N) (isfinite : float -> bool)
    (float_of_int : Z -> float) : Prop := {
  repr_is_token :
    forall x, isfinite x = true -> number_token_ok (str_of_float x) = true;
  float_of_repr :
    forall x, isfinite x = true -> float_of_str (str_of_float x) = x;
  float_of_int_dot_zero :
    forall s, int_literal s = true ->
              float_of_str (s ++ [c_dot; c_0]) = float_of_str s;
  float_of_int_digits :
    forall n, float_of_str (str_of_int n) = float_of_int n
}.

Arguments float_contract : clear implicits.


(** A model of [float] with two values, [1.0] and [0.5], to instantiate
    the contract. *)
Module two_floats.

Definition float : Type := bool.

Definition str_of_float (x : float) : list N :=
  if x then str "1.0" else str "0.5".

Definition float_of_str (s : list N) : float :=
  match s with
  | c :: _ => N.eqb c 49%N
  | [] => false
  end.

Definition isfinite (x : float) : bool := true.

Definition float_of_int (n : Z) : float := float_of_str (str_of_int n).

End two_floats.

(** [round_trips v t]: [t] is the compact text of [v], begins like a value,
    and is read back, with fuel for its length, as [v] with its integers
    as floats. *)
Definition round_trips (float : Type) (float_of_str : list N -> float)
    (str_of_float : float -> list N) (isfinite : float -> bool)
    (float_of_int : Z -> float) (v : json_lib.value float) (t : list N)
    : Prop :=
  json_lib.to_json_str str_of_float isfinite v None = Ok t
  /\ starts_value t
  /\ forall fuel,
       length t <= fuel ->
       parses_at (json_lib.parse_json_base float_of_str fuel)
         (as_floats float_of_int v) t.

Arguments round_trips {float} float_of_str str_of_float isfinite
  float_of_int v t.
Arguments as_floats {float} float_of_int v.
Arguments has_int {float} v.

(** ** Texts without quotes, as [parse_csv] reads them *)

(** [s.split(sep)] for a one-character separator: the pieces between the
    separators, at least one. *)
Fixpoint split_on (sep : N) (s : list N) : list (list N) :=
  match s with
  | [] => [[]]
  | x :: s' =>
      if N.eqb x sep then [] :: split_on sep s'
      else match split_on sep s' with
           | p :: ps => (x :: p) :: ps
           | [] => [[x]]
           end
  end.

(** The lines of a text: its pieces between row separators, without the
    empty piece that follows a final separator (or that is the empty
    text). *)
Definition lines_of (nl : N) (s : list N) : list (list N) :=
  let pieces := split_on nl s in
  if length (last pieces []) =? 0 then removelast pieces else pieces.

Definition rows_of_text (s : list N) : table :=
  map (split_on c_comma) (lines_of c_newline s).

(** No character of the text is the double quote. *)
Definition quote_free (s : list N) : bool :=
  forallb (fun c => negb (N.eqb c c_quote)) s.

(** The text without its final line feed, when it has one. *)
Definition chomp (s : list N) : list N :=
  if endswith s [c_newline] then removelast s else s.

(** ** What a parser of json_lib can return *)

(** The position that a [SyntaxError] of json_lib carries lies in the
    text: the end of the file is the length of the text, the offset of a
    character that is left after the value is an offset of the text, and
    any other error has an offset up to the length of the text, with the
    line and the column of this offset. *)
Definition error_in_text (json : list N) (e : syntax_error) : Prop :=
  match e with
  | JsonUnexpectedEndOfFile p => p = length json
  | JsonExpectedEndOfInput p => p < length json
  | JsonAt _ p =>
      pos_index p <= length json
      /\ csv_lib.get_line_and_col json (pos_index p)
         = Ok (pos_line p, pos_column p)
  | _ => False
  end.

(** [outcome index_error out_of_fuel json i r]: the result [r] of a parser
    that was started at the offset [i] is a value with an offset after [i]
    and within the text, or one of the exceptions [SyntaxError], with a
    position in the text, and [UnboundLocalError]; the flags admit the
    [IndexError] that a caller catches, and the exhausted budget of the
    model. *)
Definition outcome (index_error out_of_fuel : bool) (json : list N)
    (i : nat) {A : Type} (r : result (A * nat)) : Prop :=
  match r with
  | Ok (_, j) => i < j <= length json
  | Raise (SyntaxError e) => error_in_text json e
  | Raise UnboundLocalError => True
  | Raise IndexError => index_error = true
  | Raise OutOfFuel => out_of_fuel = true
  | Raise _ => False
  end.

(** ** JSON texts with white space between the tokens *)

(** A run of white space: spaces, tabs, carriage returns, line feeds. *)
Definition blank (w : list N) : bool :=
  forallb (fun c => mem_char c json_lib.JSON_WHITESPACE) w.

Section json_layout.

Import json_lib.

Variable float : Type.
Variable str_of_float : float -> list N.
Variable isfinite : float -> bool.

(** The values that are written as one token. *)
Definition atom (v : value float) : bool :=
  match v with
  | VList _ | VDict _ | VOther => false
  | _ => true
  end.

(** [spaced v t]: [t] is a text of the supported value [v] as [to_json]
    writes its tokens, with any white space after an opening bracket,
    around a comma, around a colon and before a closing bracket.
    [spaced_items l r] and [spaced_members d r] are the texts of the
    elements of an array and of the members of an object, from the first
    one to the closing bracket. *)
Inductive spaced : value float -> list N -> Prop :=
| spaced_atom (v : value float) (t : list N) :
    atom v = true -> supported isfinite v = true ->
    to_json_str str_of_float isfinite v None = Ok t ->
    spaced v t
| spaced_list_empty (w : list N) :
    blank w = true ->
    spaced (VList []) ([c_lbracket] ++ w ++ [c_rbracket])
| spaced_list (l : list (value float)) (w r : list N) :
    blank w = true -> spaced_items l r ->
    spaced (VList l) ([c_lbracket] ++ w ++ r)
| spaced_dict_empty (w : list N) :
    blank w = true ->
    spaced (VDict []) ([c_lbrace] ++ w ++ [c_rbrace])
| spaced_dict (d : list (list N * value float)) (w r : list N) :
    blank w = true -> keys_unique (map fst d) = true ->
    spaced_members d r ->
    spaced (VDict d) ([c_lbrace] ++ w ++ r)
with spaced_items : list (value float) -> list N -> Prop :=
| spaced_items_last (v : value float) (t w : list N) :
    spaced v t -> blank w = true ->
    spaced_items [v] (t ++ w ++ [c_rbracket])
| spaced_items_more (v : value float) (t w w' : list N)
    (l : list (value float)) (r : list N) :
    spaced v t -> blank w = true -> blank w' = true ->
    spaced_items l r ->
    spaced_items (v :: l) (t ++ w ++ [c_comma] ++ w' ++ r)
with spaced_members : list (list N * value float) -> list N -> Prop :=
| spaced_members_last (k : list N) (v : value float) (t w1 w2 w3 : list N) :
    valid_str k = true -> spaced v t ->
    blank w1 = true -> blank w2 = true -> blank w3 = true ->
    spaced_members [(k, v)]
      (escape_str_for_json k ++ w1 ++ [c_colon] ++ w2 ++ t ++ w3
         ++ [c_rbrace])
| spaced_members_more (k : list N) (v : value float)
    (t w1 w2 w3 w4 : list N) (d : list (list N * value float))
    (r : list N) :
    valid_str k = true -> spaced v t ->
    blank w1 = true -> blank w2 = true -> blank w3 = true ->
    blank w4 = true ->
    spaced_members d r ->
    spaced_members ((k, v) :: d)
      (escape_str_for_json k ++ w1 ++ [c_colon] ++ w2 ++ t ++ w3
         ++ [c_comma] ++ w4 ++ r).

Scheme spaced_min := Minimality for spaced Sort Prop
  with spaced_items_min := Minimality for spaced_items Sort Prop
  with spaced_members_min := Minimality for spaced_members Sort Prop.

Combined Scheme spaced_mutual
  from spaced_min, spaced_items_min, spaced_members_min.

End json_layout.

Arguments atom {float} v.
Arguments spaced {float} str_of_float isfinite _ _.
Arguments spaced_items {float} str_of_float isfinite _ _.
Arguments spaced_members {float} str_of_float isfinite _ _.

(** The argument [spaces] of [to_json] gives white space: an [int], or a
    string of white space. *)
Definition blank_spaces (spaces : json_lib.spaces_arg) : bool :=
  match spaces with
  | json_lib.SpacesInt _ => true
  | json_lib.SpacesStr s => blank s
  end.

(** A character that is neither a control character (below [0x20]) nor a
    surrogate ([0xD800] to [0xDFFF]). *)
Definition printable (c : N) : bool :=
  N.leb 32 c && negb (N.leb 55296 c && N.leb c 57343).

(** [text.replace(line feed, line feed + w)], character by character. *)
Definition indent_lines (w t : list N) : list N :=
  flat_map (fun c => if N.eqb c c_newline then c_newline :: w else [c]) t.

(** ** The values that [to_json] converts *)

Section json_serialisable.

Import json_lib.

Variable float : Type.
Variable isfinite : float -> bool.

(** Values of the types that [to_json] names, with finite floats and with
    integers that [math.isfinite] can convert to a float.  Strings and the
    keys of dictionaries are any strings. *)
Fixpoint serialisable (v : value float) : bool :=
  match v with
  | VNone => true
  | VBool _ => true
  | VStr _ => true
  | VInt n => Z.ltb (Z.abs n) (2 ^ 1024 - 2 ^ 970)
  | VFloat x => isfinite x
  | VList l => forallb serialisable l
  | VDict d => forallb (fun kv => serialisable (snd kv)) d
  | VOther => false
  end.

End json_serialisable.

Arguments serialisable {float} isfinite v.

(** ** Hexadecimal digits *)

(** A hexadecimal digit, in either case, and its value. *)
Definition hex_digit (c : N) : bool :=
  (N.leb 48 c && N.leb c 57) || (N.leb 97 c && N.leb c 102)
  || (N.leb 65 c && N.leb c 70).

Definition hex_digit_value (c : N) : N :=
  if N.leb c 57 then (c - 48)%N
  else if N.leb 97 c then (c - 87)%N
  else (c - 55)%N.

(** ** JSON texts that end too early *)

Section json_truncated.

Import json_lib.

Variable float : Type.
Variable str_of_float : float -> list N.
Variable isfinite : float -> bool.

Local Abbreviation spaced := (spaced str_of_float isfinite).

(** [truncated u]: the text [u] begins a string, an array or an object and
    ends before this value is closed.  [truncated_items r] and
    [truncated_members r] are the texts from the place of an element of an
    array, or of a member of an object, to such an end of the text: at
    this place, inside the element or the member, after it, or after
    further complete ones. *)
Inductive truncated : list N -> Prop :=
| truncated_str (s : list N) :
    valid_str s = true -> truncated (c_quote :: flat_map escape_char s)
| truncated_list (w r : list N) :
    blank w = true -> truncated_items r ->
    truncated ([c_lbracket] ++ w ++ r)
| truncated_dict (w r : list N) :
    blank w = true -> truncated_members r ->
    truncated ([c_lbrace] ++ w ++ r)
with truncated_items : list N -> Prop :=
| truncated_items_end : truncated_items []
| truncated_items_inside (u : list N) :
    truncated u -> truncated_items u
| truncated_items_value (v : value float) (t w : list N) :
    spaced v t -> blank w = true -> truncated_items (t ++ w)
| truncated_items_more (v : value float) (t w w' r : list N) :
    spaced v t -> blank w = true -> blank w' = true ->
    truncated_items r ->
    truncated_items (t ++ w ++ [c_comma] ++ w' ++ r)
with truncated_members : list N -> Prop :=
| truncated_members_end : truncated_members []
| truncated_members_key (s : list N) :
    valid_str s = true ->
    truncated_members (c_quote :: flat_map escape_char s)
| truncated_members_after_key (k w1 : list N) :
    valid_str k = true -> blank w1 = true ->
    truncated_members (escape_str_for_json k ++ w1)
| truncated_members_colon (k w1 w2 : list N) :
    valid_str k = true -> blank w1 = true -> blank w2 = true ->
    truncated_members (escape_str_for_json k ++ w1 ++ [c_colon] ++ w2)
| truncated_members_inside (k w1 w2 u : list N) :
    valid_str k = true -> blank w1 = true -> blank w2 = true ->
    truncated u ->
    truncated_members (escape_str_for_json k ++ w1 ++ [c_colon] ++ w2 ++ u)
| truncated_members_value (k w1 w2 : list N) (v : value float)
    (t w3 : list N) :
    valid_str k = true -> blank w1 = true -> blank w2 = true ->
    spaced v t -> blank w3 = true ->
    truncated_members
      (escape_str_for_json k ++ w1 ++ [c_colon] ++ w2 ++ t ++ w3)
| truncated_members_more (k w1 w2 : list N) (v : value float)
    (t w3 w4 r : list N) :
    valid_str k = true -> blank w1 = true -> blank w2 = true ->
    spaced v t -> blank w3 = true -> blank w4 = true ->
    truncated_members r ->
    truncated_members
      (escape_str_for_json k ++ w1 ++ [c_colon] ++ w2 ++ t ++ w3
         ++ [c_comma] ++ w4 ++ r).

Scheme truncated_min := Minimality for truncated Sort Prop
  with truncated_items_min := Minimality for truncated_items Sort Prop
  with truncated_members_min := Minimality for truncated_members Sort Prop.

Combined Scheme truncated_mutual
  from truncated_min, truncated_items_min, truncated_members_min.

End json_truncated.

Arguments truncated {float} str_of_float isfinite _.
Arguments truncated_items {float} str_of_float isfinite _.
Arguments truncated_members {float} str_of_float isfinite _.


(** * Properties *)

(** ** Python strings *)

Lemma pystr_eqb_eq (a b : pystr) : pystr_eqb a b = true <-> a = b.
Proof.
  revert b; induction a as [|x a IH]; intros [|y b]; simpl; split;
    try congruence; try reflexivity.
  - intros H. apply andb_true_iff in H as [H1 H2].
    apply N.eqb_eq in H1. apply IH in H2. congruence.
  - intros H. injection H as -> ->.
    rewrite N.eqb_refl. simpl. now apply IH.
Qed.

Lemma pystr_eqb_refl (a : pystr) : pystr_eqb a a = true.
Proof. now apply pystr_eqb_eq. Qed.

Lemma pystr_eqb_single (c d : char) : pystr_eqb [c] [d] = N.eqb c d.
Proof. simpl. now rewrite andb_true_r. Qed.

Lemma contains_single (d : char) (s : pystr) :
  contains [d] s = existsb (fun x => N.eqb x d) s.
Proof.
  induction s as [|x s IH]; simpl; [reflexivity|].
  rewrite IH. now rewrite andb_true_r.
Qed.

Lemma nth_error_skipn_cons (A : Type) (l : list A) (i : nat) (x : A) :
  nth_error l i = Some x -> skipn i l = x :: skipn (S i) l.
Proof.
  revert i; induction l as [|y l IH]; intros [|i]; simpl; try discriminate.
  - now intros [= ->].
  - intros H. now apply IH.
Qed.

Lemma skipn_app_length (A : Type) (pre l : list A) :
  skipn (length pre) (pre ++ l) = l.
Proof. induction pre; simpl; auto. Qed.

Lemma slice_app (pre mid post : pystr) :
  slice (pre ++ mid ++ post) (length pre) (length pre + length mid) = mid.
Proof.
  unfold slice. rewrite skipn_app_length.
  replace (length pre + length mid - length pre) with (length mid) by lia.
  rewrite firstn_app, firstn_all, Nat.sub_diag. simpl. apply app_nil_r.
Qed.

(** ** The position resolver *)

Section locate.

Import csv_lib.

Lemma line_col_loop_spec (text : pystr) :
  forall n a lc lli,
    a + n <= length text ->
    exists lc' lli',
      line_col_loop text (seq a n) lc lli = Ok (lc', lli')
      /\ lc' = lc + count_occ N.eq_dec (firstn n (skipn a text)) c_newline
      /\ ((forall j, a <= j < a + n -> nth_error text j <> Some c_newline) ->
          lli' = lli)
      /\ (forall k, a <= k < a + n -> nth_error text k = Some c_newline ->
          (forall j, k < j < a + n -> nth_error text j <> Some c_newline) ->
          lli' = k).
Proof.
  induction n as [|n IH]; intros a lc lli Hlen.
  - exists lc, lli. simpl. repeat split; auto; intros; lia.
  - destruct (nth_error text a) as [c|] eqn:Hc.
    2:{ apply nth_error_None in Hc. lia. }
    simpl seq. simpl line_col_loop. unfold index. rewrite Hc. simpl bind.
    rewrite (nth_error_skipn_cons _ _ Hc).
    destruct (N.eqb_spec c c_newline) as [->|Hne].
    + destruct (IH (S a) (lc + 1) a) as (lc' & lli' & E & Hcnt & Hnone & Hlast);
        [lia|].
      exists lc', lli'. rewrite E. split; [reflexivity|]. split; [|split].
      * rewrite firstn_cons, count_occ_cons_eq by reflexivity. lia.
      * intros H. exfalso. apply (H a); [lia|assumption].
      * intros k Hk Hnl Hafter.
        destruct (Nat.eq_dec k a) as [->|Hka].
        -- apply Hnone. intros j Hj. apply Hafter. lia.
        -- apply Hlast; auto. lia. intros j Hj. apply Hafter. lia.
    + destruct (IH (S a) lc lli) as (lc' & lli' & E & Hcnt & Hnone & Hlast);
        [lia|].
      exists lc', lli'. rewrite E. split; [reflexivity|]. split; [|split].
      * rewrite firstn_cons, count_occ_cons_neq by assumption. lia.
      * intros H. apply Hnone. intros j Hj. apply H. lia.
      * intros k Hk Hnl Hafter.
        destruct (Nat.eq_dec k a) as [->|Hka]; [congruence|].
        apply Hlast; auto. lia. intros j Hj. apply Hafter. lia.
Qed.

(** [get_line_and_col(text, index)] returns, for an index into
    the text, the number of line feeds before the index as the line, and as
    the column the index minus the position of the last line feed before it,
    or the index itself when no line feed precedes it. *)
Lemma get_line_and_col_spec (text : list N) (offset : nat) :
  offset <= length text ->
  exists line col,
    get_line_and_col text offset = Ok (line, col)
    /\ line = count_occ N.eq_dec (firstn offset text) c_newline
    /\ (forall k, k < offset -> nth_error text k = Some c_newline ->
        (forall j, k < j < offset -> nth_error text j <> Some c_newline) ->
        col = offset - k)
    /\ ((forall j, j < offset -> nth_error text j <> Some c_newline) ->
        col = offset).
Proof.
  intros Hlen. unfold get_line_and_col.
  destruct (@line_col_loop_spec text offset 0 0 0)
    as (lc & lli & E & Hcnt & Hnone & Hlast); [lia|].
  rewrite E. simpl. exists lc, (offset - lli). split; [reflexivity|].
  split; [exact Hcnt|]. split.
  - intros k Hk Hnl Hafter. f_equal. apply Hlast; auto. lia.
  - intros H. rewrite Hnone; [lia|]. intros j Hj. apply H. lia.
Qed.

Lemma get_line_and_col_total (text : list N) (offset : nat) :
  offset <= length text ->
  exists line col, get_line_and_col text offset = Ok (line, col).
Proof.
  intros H. destruct (get_line_and_col_spec text H) as (l & c & E & _).
  eauto.
Qed.

End locate.

(** ** csv_lib: the scan *)

Section csv_scan.

Import csv_lib.

Variables (csv quote_char comma_char new_line_char : pystr).

Local Abbreviation step := (step csv quote_char comma_char new_line_char).
Local Abbreviation scan := (scan csv quote_char comma_char new_line_char).
Local Abbreviation finish := (finish csv comma_char).

Lemma step_inv (st st' : state) (i : nat) (c : N) :
  step st i c = Ok st' ->
  nonempty_rows (lines st) -> between_cells_ok st ->
  nonempty_rows (lines st') /\ between_cells_ok st'.
Proof.
  unfold step, between_cells_ok, nonempty_rows.
  destruct st as [L R o s q l]; simpl.
  intros H HL Hq.
  repeat match type of H with
  | context [if ?b then _ else _] => destruct b eqn:?; simpl in H
  | context [bind ?r _] => destruct r as [[? ?]|]; simpl in H
  end; try discriminate; injection H as <-; simpl; split; auto;
  try (intros; congruence);
  try (apply Forall_app; split; auto; constructor; auto;
       intros E; apply app_eq_nil in E as [_ E]; discriminate).
Qed.

Lemma scan_inv (rest : list N) :
  forall i st st',
    scan rest i st = Ok st' ->
    nonempty_rows (lines st) -> between_cells_ok st ->
    nonempty_rows (lines st') /\ between_cells_ok st'.
Proof.
  induction rest as [|c rest IH]; intros i st st' H HL Hq; simpl in H.
  - injection H as <-. auto.
  - destruct (step st i c) as [st1|] eqn:E; simpl in H; [|discriminate].
    destruct (step_inv _ _ E HL Hq) as [HL1 Hq1]. eauto.
Qed.

Lemma scan_app (r1 r2 : list N) :
  forall i st,
    scan (r1 ++ r2) i st =
    (st' <- scan r1 i st ;; scan r2 (i + length r1) st').
Proof.
  induction r1 as [|c r1 IH]; intros i st; simpl.
  - now rewrite Nat.add_0_r.
  - destruct (step st i c) as [st1|]; simpl; [|reflexivity].
    rewrite IH. now replace (S i + length r1) with (i + S (length r1)) by lia.
Qed.

Lemma finish_nonempty (st : state) (rows : list (list (list N))) :
  finish st = Ok rows -> nonempty_rows (lines st) -> nonempty_rows rows.
Proof.
  unfold finish, nonempty_rows. intros H HL.
  destruct (if cell_is_quoted st then _ else _) as [row|]; simpl in H;
    [|discriminate].
  destruct row as [|x row]; simpl in H; injection H as <-; auto.
  apply Forall_app; split; auto. constructor; auto. discriminate.
Qed.

End csv_scan.

(** ** csv_lib: rows are never empty (C9) *)

Section csv_rows.

Import csv_lib.

Lemma parse_csv_with_nonempty (csv q cm nl : list N) (rows : table) :
  parse_csv_with csv q cm nl = Ok rows -> nonempty_rows rows.
Proof.
  unfold parse_csv_with. intros H.
  destruct (scan csv q cm nl csv 0 init) as [st|] eqn:E; simpl in H;
    [|discriminate].
  apply scan_inv in E as [HL _].
  - eapply finish_nonempty; eauto.
  - constructor.
  - intros _. reflexivity.
Qed.

(** C9: every row of a parsed table has a cell, whatever the delimiters;
    the empty text has no rows (for any non-empty field separator), and a
    text that ends in the row separator has no row without cells at its
    end: [a] followed by a line feed is the single row [[a]]. *)
Theorem C9_rows_have_cells :
  (forall csv q cm nl rows,
      parse_csv csv q cm nl = Ok rows -> nonempty_rows rows)
  /\ (forall q c cm nl, parse_csv [] q (Some (c :: cm)) nl = Ok [])
  /\ parse_csv [] None None None = Ok []
  /\ (forall s q cm nl rows,
        parse_csv (s ++ nl) q cm (Some nl) = Ok rows -> last rows [[]] <> [])
  /\ parse_csv (str "a" ++ [c_newline]) None None None = Ok [[str "a"]].
Proof.
  split; [|split; [|split; [|split]]].
  - intros csv q cm nl rows H. unfold parse_csv in H.
    eapply parse_csv_with_nonempty; eauto.
  - intros. reflexivity.
  - reflexivity.
  - intros s q cm nl rows H. unfold parse_csv in H.
    apply parse_csv_with_nonempty in H.
    destruct rows as [|r rows] using rev_ind; simpl; [discriminate|].
    rewrite last_last. apply Forall_app in H as [_ H].
    now inversion H.
  - reflexivity.
Qed.

End csv_rows.

(** ** csv_lib: the end of the input (C6) *)

Section csv_end.

Import csv_lib.

Lemma scan_ends_on_separator (s q nl : list N) (c : N) (st : state) :
  q <> [c] ->
  scan (s ++ [c]) q [c] nl (s ++ [c]) 0 init = Ok st ->
  cell_is_quoted st = false ->
  out_of_cell st = true.
Proof.
  intros Hq H Hnq. rewrite scan_app in H.
  destruct (scan (s ++ [c]) q [c] nl s 0 init) as [st0|]; simpl in H;
    [|discriminate].
  destruct (step (s ++ [c]) q [c] nl st0 (length s) c) as [st1|] eqn:E;
    simpl in H; [|discriminate].
  injection H as ->.
  assert (Hqc : pystr_eqb [c] q = false).
  { destruct (pystr_eqb [c] q) eqn:Eq; auto.
    apply pystr_eqb_eq in Eq. congruence. }
  unfold step in E. rewrite Hqc, pystr_eqb_refl in E.
  destruct st0 as [L R o s0 qd l]. simpl in E.
  destruct o, qd, l; simpl in E;
    repeat match type of E with
    | context [if ?b then _ else _] => destruct b eqn:?; simpl in E
    end; try discriminate; injection E as <-; simpl in *; congruence.
Qed.

(** C6: what [parse_csv] does when the scan reaches the end of the input.
    Inside a quoted cell whose closing quote was not reached it raises a
    [SyntaxError]; inside an unquoted cell it closes the cell with the text
    from the cell's start; between cells, after a text that ends with the
    field separator, it appends one empty cell to the row in progress.  A
    text that ends on a one-character field separator (different from the
    quote) and does not end inside a quoted cell is between cells. *)
Theorem C6_end_of_input (csv q cm nl : list N) (st : state) :
  scan csv q cm nl csv 0 init = Ok st ->
  (cell_is_quoted st = true -> last_was_quote st = false ->
   parse_csv_with csv q cm nl
   = Raise (SyntaxError (CsvUnexpectedEnd (length csv))))
  /\ (cell_is_quoted st = false -> out_of_cell st = false ->
      parse_csv_with csv q cm nl
      = Ok (lines st
              ++ [current_row st ++ [slice_from csv (cell_start_ind st)]]))
  /\ (out_of_cell st = true -> endswith csv cm = true ->
      parse_csv_with csv q cm nl = Ok (lines st ++ [current_row st ++ [[]]]))
  /\ (forall s c, csv = s ++ [c] -> cm = [c] -> q <> [c] ->
      cell_is_quoted st = false ->
      parse_csv_with csv q cm nl = Ok (lines st ++ [current_row st ++ [[]]])).
Proof.
  intros Hscan.
  assert (Hinv : between_cells_ok st).
  { apply scan_inv in Hscan as [_ H]; auto.
    - constructor.
    - intros _. reflexivity. }
  assert (Hrow : forall (R : list (list N)) (x : list N),
             negb (length (R ++ [x]) =? 0) = true).
  { intros R x. rewrite length_app. simpl.
    destruct (length R + 1) eqn:E; [lia|reflexivity]. }
  unfold parse_csv_with. rewrite Hscan. simpl. unfold finish.
  split; [|split; [|split]].
  - intros -> ->. reflexivity.
  - intros -> ->. simpl. now rewrite Hrow.
  - intros Ho He. rewrite (Hinv Ho), Ho, He. simpl. now rewrite Hrow.
  - intros s c -> -> Hq Hnq.
    pose proof (scan_ends_on_separator _ _ Hq Hscan Hnq) as Ho.
    rewrite Hnq, Ho. simpl.
    assert (He : endswith (s ++ [c]) [c] = true).
    { unfold endswith. rewrite length_app. simpl.
      replace (length s + 1 - 1) with (length s) by lia.
      rewrite skipn_app_length, pystr_eqb_refl.
      destruct (length s + 1) eqn:E; [lia|reflexivity]. }
    rewrite He. simpl. now rewrite Hrow.
Qed.

Lemma C6_end_of_input_witness :
  parse_csv_with (str "a,") [c_quote] [c_comma] [c_newline]
  = Ok [[str "a"; []]]
  /\ parse_csv_with (c_quote :: str "ab") [c_quote] [c_comma] [c_newline]
     = Raise (SyntaxError (CsvUnexpectedEnd 3))
  /\ parse_csv_with (str "a,bc") [c_quote] [c_comma] [c_newline]
     = Ok [[str "a"; str "bc"]].
Proof.
  split; [|split].
  - refine (proj1 (proj2 (proj2 (@C6_end_of_input (str "a,") [c_quote] [c_comma]
             [c_newline] (mkState [] [str "a"] true 0 false false) eq_refl)))
             eq_refl eq_refl).
  - refine (proj1 (@C6_end_of_input (c_quote :: str "ab") [c_quote] [c_comma]
             [c_newline] (mkState [] [] false 0 true false) eq_refl)
             eq_refl eq_refl).
  - refine (proj1 (proj2 (@C6_end_of_input (str "a,bc") [c_quote] [c_comma]
             [c_newline] (mkState [] [str "a"] false 2 false false) eq_refl))
             eq_refl eq_refl).
Defined.

End csv_end.

(** ** csv_lib: escaping a cell (C3) *)

Section csv_escape.

Import csv_lib.

(** C3: [str_to_csv] wraps and doubles with the double quote, whatever
    [quote_char] is: with the apostrophe as the quote character, a cell
    that holds an apostrophe is wrapped in double quotes and its apostrophe
    is left single. *)
Theorem C3_quote_char_not_used_for_wrapping :
  str_to_csv (str "a'b") (str "'") (str ",") [c_newline]
  = [c_quote] ++ str "a'b" ++ [c_quote]
  /\ (exists e,
       parse_csv (str_to_csv (str "a'b") (str "'") (str ",") [c_newline])
         (Some (str "'")) (Some (str ",")) (Some [c_newline])
       = Raise (SyntaxError e)).
Proof. split; [reflexivity|]. eexists. reflexivity. Qed.

End csv_escape.

(** ** csv_lib: serialising and parsing back (C1) *)

Section csv_roundtrip.

Import csv_lib.

Lemma replace_single (s new : list N) (c : N) :
  replace s [c] new = flat_map (fun x => if N.eqb x c then new else [x]) s.
Proof.
  unfold replace. induction s as [|x s IH]; [reflexivity|].
  cbn [replace_from flat_map startswith length Nat.sub].
  rewrite andb_true_r, IH. now destruct (N.eqb x c).
Qed.

Lemma replace_double_quotes (s : list N) :
  replace (double_quotes s) [c_quote; c_quote] [c_quote] = s.
Proof.
  unfold replace. induction s as [|x s IH]; [reflexivity|].
  unfold double_quotes in *. cbn [flat_map].
  destruct (N.eqb_spec x c_quote) as [->|Hne].
  - cbn. now rewrite IH.
  - cbn [app replace_from startswith].
    apply N.eqb_neq in Hne. rewrite Hne. cbn [andb]. now rewrite IH.
Qed.

Lemma endswith_single_false (s : list N) (q : N) :
  endswith s [q] = false ->
  s = [] \/ exists s' y, s = s' ++ [y] /\ y <> q.
Proof.
  destruct s as [|y s' _] using rev_ind; [now left|].
  intros H. right. exists s', y. split; [reflexivity|].
  unfold endswith in H. rewrite length_app in H. simpl length in H.
  replace (length s' + 1 - 1) with (length s') in H by lia.
  rewrite skipn_app_length, pystr_eqb_single in H.
  destruct (length s' + 1) eqn:E; [lia|]. simpl in H.
  now apply N.eqb_neq.
Qed.

Lemma double_quotes_app (a b : list N) :
  double_quotes (a ++ b) = double_quotes a ++ double_quotes b.
Proof. unfold double_quotes. apply flat_map_app. Qed.

Lemma lstrip_stop (x : N) (s chars : list N) :
  mem_char x chars = false -> lstrip (x :: s) chars = x :: s.
Proof. intros H. simpl. now rewrite H. Qed.

Lemma strip_wrapped (q h y : N) (d X Y : list N) :
  d = h :: X -> h <> q -> d = Y ++ [y] -> y <> q ->
  strip (q :: d ++ [q]) [q] = d.
Proof.
  intros Hd Hh Hd' Hy.
  apply N.eqb_neq in Hh, Hy.
  unfold strip. cbn [lstrip mem_char existsb].
  rewrite N.eqb_refl. cbn [orb].
  rewrite Hd at 1. cbn [app].
  rewrite lstrip_stop by (cbn [mem_char existsb]; now rewrite Hh).
  change (h :: X ++ [q]) with ((h :: X) ++ [q]). rewrite <- Hd.
  unfold rstrip. rewrite rev_app_distr. cbn [rev app lstrip mem_char existsb].
  rewrite N.eqb_refl. cbn [orb].
  rewrite Hd' at 1. rewrite rev_app_distr. cbn [rev app].
  rewrite lstrip_stop by (cbn [mem_char existsb]; now rewrite Hy).
  cbn [rev]. now rewrite rev_involutive.
Qed.

Lemma unescape_wrapped (cell : list N) :
  cell <> [] -> quote_free_ends cell = true ->
  unescape_csv_cell (c_quote :: double_quotes cell ++ [c_quote]) = cell.
Proof.
  intros Hne Hq. unfold quote_free_ends in Hq.
  apply andb_true_iff in Hq as [Hs He].
  apply negb_true_iff in Hs, He.
  unfold unescape_csv_cell.
  rewrite strip_wrapped with (h := hd 0%N cell)
    (X := double_quotes (tl cell))
    (Y := double_quotes (removelast cell)) (y := last cell 0%N).
  - apply replace_double_quotes.
  - destruct cell as [|h t]; [congruence|].
    cbn [startswith] in Hs. rewrite andb_true_r in Hs.
    unfold double_quotes. cbn [flat_map hd tl]. now rewrite Hs.
  - destruct cell as [|h t]; [congruence|].
    cbn [startswith] in Hs. rewrite andb_true_r in Hs.
    now apply N.eqb_neq.
  - apply endswith_single_false in He as [->|(s' & y & -> & Hy)]; [congruence|].
    rewrite removelast_last, last_last, double_quotes_app.
    unfold double_quotes at 2. cbn [flat_map].
    apply N.eqb_neq in Hy. now rewrite Hy.
  - apply endswith_single_false in He as [->|(s' & y & -> & Hy)]; [congruence|].
    now rewrite last_last.
Qed.

Lemma special_chars_plain (s : list N) :
  contains [c_quote] s || contains [c_comma] s || contains [c_newline] s
  = negb (forallb plain_char s).
Proof.
  rewrite !contains_single.
  induction s as [|x s IH]; [reflexivity|].
  cbn [existsb forallb]. unfold plain_char at 1.
  destruct (N.eqb x c_quote), (N.eqb x c_comma), (N.eqb x c_newline);
    cbn [negb andb orb]; rewrite ?orb_true_r; try reflexivity.
  exact IH.
Qed.

Lemma ser_cell_plain (cell : list N) :
  forallb plain_char cell = true -> ser_cell cell = cell.
Proof.
  intros H. unfold ser_cell, str_to_csv.
  now rewrite special_chars_plain, H.
Qed.

Lemma ser_cell_quoted (cell : list N) :
  forallb plain_char cell = false ->
  ser_cell cell = c_quote :: double_quotes cell ++ [c_quote].
Proof.
  intros H. unfold ser_cell, str_to_csv.
  rewrite special_chars_plain, H. cbn [negb].
  now rewrite replace_single.
Qed.

Lemma csv_run_nil (pre : list N) (st : state) : csv_run pre [] st = Ok st.
Proof. reflexivity. Qed.

Lemma csv_run_cons (pre rest : list N) (c : N) (st : state) :
  csv_run pre (c :: rest) st =
  (st' <- step (pre ++ c :: rest) [c_quote] [c_comma] [c_newline] st
            (length pre) c ;;
   csv_run (pre ++ [c]) rest st').
Proof.
  unfold csv_run. cbn [scan].
  destruct (step _ _ _ _ st (length pre) c) as [st'|]; [|reflexivity].
  cbn [bind]. rewrite <- app_assoc. cbn [app].
  rewrite length_app. cbn [length]. now rewrite Nat.add_1_r.
Qed.

Lemma slice_at (csv pre mid post : list N) (i : nat) :
  csv = pre ++ mid ++ post -> i = length pre + length mid ->
  slice csv (length pre) i = mid.
Proof. intros -> ->. apply slice_app. Qed.

Lemma slice_empty (csv : list N) (i : nat) : slice csv i i = [].
Proof. unfold slice. now rewrite Nat.sub_diag. Qed.

Lemma plain_char_inv (c : N) :
  plain_char c = true ->
  N.eqb c c_quote = false /\ N.eqb c c_comma = false
  /\ N.eqb c c_newline = false.
Proof.
  unfold plain_char. intros H.
  apply andb_true_iff in H as [H H3]. apply andb_true_iff in H as [H1 H2].
  now rewrite negb_true_iff in H1, H2, H3.
Qed.

Ltac step_eval :=
  unfold step; rewrite ?pystr_eqb_single;
  cbn [out_of_cell cell_is_quoted last_was_quote lines current_row
       cell_start_ind];
  repeat match goal with
         | H : N.eqb _ _ = _ |- _ => rewrite H
         end;
  rewrite ?N.eqb_refl;
  cbn [andb orb negb bind].

(** The characters of an unquoted cell after its first one. *)
Lemma csv_run_plain_body (body : list N) :
  forallb plain_char body = true ->
  forall pre rest L R s,
    csv_run pre (body ++ rest) (mkState L R false s false false)
    = csv_run (pre ++ body) rest (mkState L R false s false false).
Proof.
  induction body as [|x body IH]; intros H pre rest L R s.
  - now rewrite app_nil_r.
  - cbn [forallb] in H. apply andb_true_iff in H as [Hx H].
    apply plain_char_inv in Hx as (H1 & H2 & H3).
    cbn [app]. rewrite csv_run_cons. step_eval.
    rewrite IH by assumption. now rewrite <- app_assoc.
Qed.

(** The doubled text between the quotes of a quoted cell. *)
Lemma csv_run_quoted_body (body : list N) :
  forall pre rest L R s,
    csv_run pre (double_quotes body ++ rest) (mkState L R false s true false)
    = csv_run (pre ++ double_quotes body) rest
        (mkState L R false s true false).
Proof.
  induction body as [|x body IH]; intros pre rest L R s.
  - cbn. now rewrite app_nil_r.
  - unfold double_quotes. cbn [flat_map]. fold (double_quotes body).
    destruct (N.eqb_spec x c_quote) as [->|Hne].
    + cbn [app]. rewrite csv_run_cons. step_eval.
      change (c_quote =? c_comma)%N with false.
      change (c_quote =? c_newline)%N with false.
      cbn [andb orb negb bind].
      rewrite csv_run_cons. step_eval.
      change (c_quote =? c_comma)%N with false.
      change (c_quote =? c_newline)%N with false.
      cbn [andb orb negb bind].
      rewrite IH. now rewrite <- !app_assoc.
    + apply N.eqb_neq in Hne.
      cbn [app]. rewrite csv_run_cons. step_eval.
      rewrite ?andb_false_r.
      destruct ((x =? c_comma)%N || (x =? c_newline)%N); cbn [negb andb];
        rewrite IH; now rewrite <- !app_assoc.
Qed.

Ltac norm_app := repeat first [rewrite <- app_assoc | progress cbn [app]].

Ltac quote_facts :=
  change (c_quote =? c_comma)%N with false;
  change (c_quote =? c_newline)%N with false;
  change (c_comma =? c_quote)%N with false;
  change (c_comma =? c_newline)%N with false;
  change (c_newline =? c_quote)%N with false;
  change (c_newline =? c_comma)%N with false;
  cbn [andb orb negb bind].

(** A serialised cell followed by a separator. *)
Lemma csv_run_cell_sep (cell : list N) (sep : N) :
  quote_free_ends cell = true ->
  sep = c_comma \/ sep = c_newline ->
  forall pre rest L R s0,
  exists s1,
    csv_run pre (ser_cell cell ++ sep :: rest) (mkState L R true s0 false false)
    = csv_run (pre ++ ser_cell cell ++ [sep]) rest (after_cell sep L R cell s1).
Proof.
  intros Hq Hsep pre rest L R s0.
  assert (Hsq : N.eqb sep c_quote = false) by (destruct Hsep; now subst).
  assert (Hend : N.eqb sep c_comma || N.eqb sep c_newline = true)
    by (destruct Hsep; now subst).
  destruct (forallb plain_char cell) eqn:Hplain.
  - rewrite (ser_cell_plain _ Hplain).
    destruct cell as [|x body].
    + (* the empty cell *)
      exists (length pre). cbn [app]. rewrite csv_run_cons.
      unfold step; rewrite ?pystr_eqb_single;
      cbn [out_of_cell cell_is_quoted last_was_quote lines current_row
           cell_start_ind].
      rewrite Hsq, Hend. cbn [andb orb negb bind].
      rewrite slice_empty. unfold after_cell.
      now destruct (N.eqb sep c_newline).
    + exists (length pre).
      cbn [forallb] in Hplain. apply andb_true_iff in Hplain as [Hx Hb].
      apply plain_char_inv in Hx as (H1 & H2 & H3).
      cbn [app]. rewrite csv_run_cons. step_eval.
      rewrite csv_run_plain_body by assumption.
      rewrite csv_run_cons.
      unfold step; rewrite ?pystr_eqb_single;
      cbn [out_of_cell cell_is_quoted last_was_quote lines current_row
           cell_start_ind].
      rewrite Hsq, Hend. cbn [andb orb negb bind].
      rewrite (@slice_at _ pre (x :: body) (sep :: rest)).
      * unfold after_cell. rewrite <- !app_assoc. cbn [app].
        now destruct (N.eqb sep c_newline).
      * now rewrite <- !app_assoc.
      * rewrite !length_app. cbn [length]. lia.
  - rewrite (ser_cell_quoted _ Hplain).
    assert (Hne : cell <> []) by (intros ->; discriminate).
    exists (length pre).
    cbn [app]. rewrite csv_run_cons. step_eval. quote_facts.
    rewrite <- app_assoc. rewrite csv_run_quoted_body.
    cbn [app]. rewrite csv_run_cons. step_eval. quote_facts.
    rewrite csv_run_cons.
    unfold step; rewrite ?pystr_eqb_single;
    cbn [out_of_cell cell_is_quoted last_was_quote lines current_row
         cell_start_ind].
    rewrite Hsq, Hend. cbn [andb orb negb bind].
    rewrite (@slice_at _ pre (c_quote :: double_quotes cell ++ [c_quote])
               (sep :: rest)).
    + rewrite unescape_wrapped by assumption.
      unfold after_cell. norm_app.
      now destruct (N.eqb sep c_newline).
    + now norm_app.
    + rewrite !length_app. cbn [length]. rewrite !length_app. cbn [length].
      lia.
Qed.

Lemma length_nonzero (A : Type) (R : list A) (x : A) :
  negb (length (R ++ [x]) =? 0) = true.
Proof.
  rewrite length_app. cbn [length].
  destruct (length R + 1) eqn:E; [lia|reflexivity].
Qed.

(** A serialised cell at the end of the text. *)
Lemma csv_run_cell_end (cell : list N) :
  quote_free_ends cell = true ->
  forall pre L R s0,
    (cell = [] -> endswith pre [c_comma] = true) ->
    exists st,
      csv_run pre (ser_cell cell) (mkState L R true s0 false false) = Ok st
      /\ finish (pre ++ ser_cell cell) [c_comma] st = Ok (L ++ [R ++ [cell]]).
Proof.
  intros Hq pre L R s0 Hempty.
  destruct (forallb plain_char cell) eqn:Hplain.
  - rewrite (ser_cell_plain _ Hplain).
    destruct cell as [|x body].
    + eexists. split; [apply csv_run_nil|].
      unfold finish. cbn [cell_is_quoted out_of_cell negb current_row lines].
      rewrite app_nil_r, Hempty by reflexivity. cbn [bind].
      now rewrite length_nonzero.
    + cbn [forallb] in Hplain. apply andb_true_iff in Hplain as [Hx Hb].
      apply plain_char_inv in Hx as (H1 & H2 & H3).
      eexists. split.
      * rewrite csv_run_cons. step_eval.
        rewrite <- (app_nil_r body) at 1.
        rewrite csv_run_plain_body by assumption. apply csv_run_nil.
      * unfold finish.
        cbn [cell_is_quoted out_of_cell negb current_row lines
             cell_start_ind bind].
        unfold slice_from. rewrite skipn_app_length.
        now rewrite length_nonzero.
  - rewrite (ser_cell_quoted _ Hplain).
    assert (Hne : cell <> []) by (intros ->; discriminate).
    eexists. split.
    + rewrite csv_run_cons. step_eval. quote_facts.
      rewrite csv_run_quoted_body.
      rewrite csv_run_cons. step_eval. quote_facts.
      apply csv_run_nil.
    + unfold finish.
      cbn [cell_is_quoted out_of_cell negb current_row lines
           cell_start_ind last_was_quote bind].
      unfold slice_from. rewrite skipn_app_length.
      rewrite unescape_wrapped by assumption.
      now rewrite length_nonzero.
Qed.

Lemma join_cons_nonempty (sep x : list N) (l : list (list N)) :
  l <> [] -> join sep (x :: l) = x ++ sep ++ join sep l.
Proof. destruct l; [congruence|reflexivity]. Qed.

Lemma endswith_app (a p : list N) : endswith (a ++ p) p = true.
Proof.
  unfold endswith. rewrite length_app.
  replace (length a + length p - length p) with (length a) by lia.
  rewrite skipn_app_length, pystr_eqb_refl, andb_true_r.
  apply Nat.leb_le. lia.
Qed.

Lemma ser_row_cons2 (x y : list N) (row : list (list N)) :
  ser_row (x :: y :: row) = ser_cell x ++ c_comma :: ser_row (y :: row).
Proof. reflexivity. Qed.

(** A serialised row followed by the row separator. *)
Lemma csv_run_row_sep (row : list (list N)) :
  row <> [] -> forallb quote_free_ends row = true ->
  forall pre rest L R s0,
  exists s1,
    csv_run pre (ser_row row ++ c_newline :: rest)
      (mkState L R true s0 false false)
    = csv_run (pre ++ ser_row row ++ [c_newline]) rest
        (mkState (L ++ [R ++ row]) [] true s1 false false).
Proof.
  induction row as [|x row IH]; [congruence|].
  intros _ Hgood pre rest L R s0.
  cbn [forallb] in Hgood. apply andb_true_iff in Hgood as [Hx Hrow].
  destruct row as [|y row].
  - unfold ser_row. cbn [map join].
    destruct (@csv_run_cell_sep x c_newline Hx (or_intror eq_refl)
                pre rest L R s0) as [s1 E].
    exists s1. exact E.
  - rewrite ser_row_cons2. norm_app.
    destruct (@csv_run_cell_sep x c_comma Hx (or_introl eq_refl)
                pre (ser_row (y :: row) ++ c_newline :: rest) L R s0)
      as [s1 E].
    rewrite E. unfold after_cell.
    change (c_comma =? c_newline)%N with false. cbn iota.
    destruct (IH ltac:(discriminate) Hrow (pre ++ ser_cell x ++ [c_comma])
                rest L (R ++ [x]) s1) as [s2 E2].
    exists s2. rewrite E2. norm_app. reflexivity.
Qed.

(** The last serialised row, at the end of the text. *)
Lemma csv_run_row_end (row : list (list N)) :
  row <> [] -> forallb quote_free_ends row = true ->
  forall pre L R s0,
    (row = [[]] -> endswith pre [c_comma] = true) ->
    exists st,
      csv_run pre (ser_row row) (mkState L R true s0 false false) = Ok st
      /\ finish (pre ++ ser_row row) [c_comma] st = Ok (L ++ [R ++ row]).
Proof.
  induction row as [|x row IH]; [congruence|].
  intros _ Hgood pre L R s0 Hblank.
  cbn [forallb] in Hgood. apply andb_true_iff in Hgood as [Hx Hrow].
  destruct row as [|y row].
  - unfold ser_row. cbn [map join].
    apply csv_run_cell_end; auto. intros ->. now apply Hblank.
  - rewrite ser_row_cons2. norm_app.
    destruct (@csv_run_cell_sep x c_comma Hx (or_introl eq_refl)
                pre (ser_row (y :: row)) L R s0) as [s1 E].
    rewrite E. unfold after_cell.
    change (c_comma =? c_newline)%N with false. cbn iota.
    destruct (IH ltac:(discriminate) Hrow (pre ++ ser_cell x ++ [c_comma])
                L (R ++ [x]) s1) as (st & E2 & F2).
    { intros _. rewrite app_assoc. apply endswith_app. }
    exists st. split; [exact E2|].
    revert F2. norm_app. auto.
Qed.

(** Serialised rows, each followed by the row separator. *)
Lemma csv_run_rows (rows : table) :
  Forall (fun row => row <> []) rows ->
  forallb (forallb quote_free_ends) rows = true ->
  forall pre rest L s0,
  exists s1,
    csv_run pre (ser_rows rows ++ rest) (mkState L [] true s0 false false)
    = csv_run (pre ++ ser_rows rows) rest
        (mkState (L ++ rows) [] true s1 false false).
Proof.
  induction rows as [|r rows IH]; intros Hne Hgood pre rest L s0.
  - exists s0. cbn. now rewrite !app_nil_r.
  - inversion Hne as [|? ? Hr Hrows]; subst.
    cbn [forallb] in Hgood. apply andb_true_iff in Hgood as [Hg Hgs].
    unfold ser_rows. cbn [map concat]. fold (ser_rows rows). norm_app.
    destruct (@csv_run_row_sep r Hr Hg pre (ser_rows rows ++ rest) L [] s0)
      as [s1 E].
    rewrite E. cbn [app].
    destruct (IH Hrows Hgs (pre ++ ser_row r ++ [c_newline]) rest
                (L ++ [r]) s1) as [s2 E2].
    exists s2. rewrite E2. norm_app. reflexivity.
Qed.

Lemma join_rows_snoc (rows : table) (r : list (list N)) :
  join [c_newline] (map ser_row (rows ++ [r])) = ser_rows rows ++ ser_row r.
Proof.
  induction rows as [|r0 rows IH]; [reflexivity|].
  cbn [app map]. rewrite join_cons_nonempty.
  - rewrite IH. unfold ser_rows. cbn [map concat]. now norm_app.
  - destruct rows; discriminate.
Qed.

Lemma representable_snoc (rows : table) (r : list (list N)) :
  representable (rows ++ [r]) = true ->
  Forall (fun row => row <> []) rows /\ r <> [] /\ r <> [[]].
Proof.
  induction rows as [|r0 rows IH]; cbn [app representable].
  - intros H. apply andb_true_iff in H as [H1 H2].
    split; [constructor|]. split.
    + intros ->. discriminate.
    + intros ->. discriminate.
  - destruct (rows ++ [r]) as [|r1 t] eqn:E.
    { destruct rows; discriminate. }
    intros H. apply andb_true_iff in H as [H1 H2].
    destruct (IH H2) as (Ha & Hb & Hc).
    split; [|auto]. constructor; auto. intros ->. discriminate.
Qed.

(** C1, as the code has it: a table of which every row has a cell, whose
    last row is not a lone empty cell, and whose cells neither begin nor end
    with the double quote, is parsed back from its serialisation cell for
    cell (default delimiters; rows may differ in length). *)
Theorem C1_csv_round_trip (t : table) :
  representable t = true ->
  cells_quote_free_ends t = true ->
  parse_csv (strs_to_csv t None None None) None None None = Ok t.
Proof.
  intros Hrep Hgood.
  destruct t as [|r rows _] using rev_ind; [reflexivity|].
  apply representable_snoc in Hrep as (Hrows & Hr & Hblank).
  unfold cells_quote_free_ends in Hgood.
  rewrite forallb_app in Hgood. apply andb_true_iff in Hgood as [Hgs Hg].
  cbn [forallb] in Hg. rewrite andb_true_r in Hg.
  unfold parse_csv, strs_to_csv, strs_to_csv_with, parse_csv_with.
  change (map _ (rows ++ [r])) with (map ser_row (rows ++ [r])).
  rewrite join_rows_snoc.
  change (scan ?csv [c_quote] [c_comma] [c_newline] ?csv 0 init)
    with (csv_run [] csv init).
  destruct (@csv_run_rows rows Hrows Hgs [] (ser_row r) [] 0) as [s1 E].
  unfold init. rewrite E. cbn [app].
  destruct (@csv_run_row_end r Hr Hg (ser_rows rows) rows [] s1)
    as (st & E2 & F2); [congruence|].
  rewrite E2. cbn [bind]. exact F2.
Qed.

Lemma C1_csv_round_trip_witness :
  parse_csv
    (strs_to_csv [[str "a"; str "b" ++ [c_quote] ++ str "c"]; [str "x,y"; []]]
       None None None)
    None None None
  = Ok [[str "a"; str "b" ++ [c_quote] ++ str "c"]; [str "x,y"; []]].
Proof.
  apply (@C1_csv_round_trip
           [[str "a"; str "b" ++ [c_quote] ++ str "c"]; [str "x,y"; []]]);
    reflexivity.
Defined.

(** The claim as stated fails on a table whose only row is a lone empty
    cell: its serialisation is the empty text, which parses to no rows. *)
Lemma C1_counterexample_blank_row :
  parse_csv (strs_to_csv [[[]]] None None None) None None None <> Ok [[[]]].
Proof. discriminate. Qed.

(** Leading and trailing quotes of a cell are lost: [unescape_csv_cell]
    strips every quote at both ends, not only the wrapping pair. *)
Example csv_trailing_quote_lost :
  parse_csv (strs_to_csv [[str "a" ++ [c_quote]]] None None None)
    None None None
  = Ok [[str "a"]].
Proof. reflexivity. Qed.

Example csv_row_without_cells_lost :
  parse_csv (strs_to_csv [[str "a"]; []; [str "b"]] None None None)
    None None None
  = Ok [[str "a"]; [[]]; [str "b"]].
Proof. reflexivity. Qed.

End csv_roundtrip.
Unset Implicit Arguments.

Import json_lib.

(** ** json_lib: positions and white space *)

Section json_position.

Lemma format_loop_line_col_loop (text : list N) (range : list nat) :
  forall lc lli,
    format_loop text range lc lli = csv_lib.line_col_loop text range lc lli.
Proof.
  induction range as [|i range IH]; intros lc lli; [reflexivity|].
  cbn [format_loop csv_lib.line_col_loop].
  destruct (index text i) as [c|]; [|reflexivity].
  cbn [bind]. now rewrite !IH.
Qed.

Lemma format_err_str_get_line_and_col (m : json_template) (text : list N)
    (i line col : nat) :
  csv_lib.get_line_and_col text i = Ok (line, col) ->
  format_err_str m text i = Ok (JsonAt m (mkPosition i line col)).
Proof.
  unfold csv_lib.get_line_and_col, format_err_str. intros H.
  rewrite format_loop_line_col_loop.
  destruct (csv_lib.line_col_loop text (seq 0 i) 0 0) as [[lc lli]|];
    cbn [bind] in *; [|discriminate].
  now injection H as <- <-.
Qed.

(** Within the text, [format_err_str] does not raise. *)
Lemma raise_at_in_range (A : Type) (m : json_template) (text : list N)
    (i : nat) :
  i <= length text ->
  exists p, @raise_at A m text i = Raise (SyntaxError (JsonAt m p))
            /\ pos_index p = i.
Proof.
  intros H. destruct (get_line_and_col_total text H) as (l & c & E).
  unfold raise_at. rewrite (format_err_str_get_line_and_col m _ _ _ _ E).
  cbn [bind]. eexists. split; reflexivity.
Qed.

(** The position that an error message reports for an offset into the
    text, in [csv_lib] ([get_line_and_col]) and in [json_lib]
    ([format_err_str]) alike: the line is the number of line feeds before
    the offset; the column is the offset minus the index of the last line
    feed before it, or the offset itself when there is none. *)
Lemma position_resolver_formula (text : list N) (offset : nat) :
  offset <= length text ->
  exists line col,
    csv_lib.get_line_and_col text offset = Ok (line, col)
    /\ (forall m, format_err_str m text offset
                  = Ok (JsonAt m (mkPosition offset line col)))
    /\ line = count_occ N.eq_dec (firstn offset text) c_newline
    /\ (forall k, k < offset -> nth_error text k = Some c_newline ->
        (forall j, k < j < offset -> nth_error text j <> Some c_newline) ->
        col = offset - k)
    /\ ((forall j, j < offset -> nth_error text j <> Some c_newline) ->
        col = offset).
Proof.
  intros H.
  destruct (get_line_and_col_spec text H) as (line & col & E & Hl & Hk & Hn).
  exists line, col. split; [exact E|]. split; [|auto].
  intros m. now apply format_err_str_get_line_and_col.
Qed.

(** The first character of a line: at offset 0 the column is 0, but right
    after a line feed the column is 1, on whatever line. *)
Lemma column_at_start : forall text : list N,
  csv_lib.get_line_and_col text 0 = Ok (0, 0).
Proof. reflexivity. Qed.

Lemma column_after_line_feed (text : list N) (k : nat) :
  nth_error text k = Some c_newline ->
  exists line,
    csv_lib.get_line_and_col text (S k) = Ok (line, 1)
    /\ (forall m, format_err_str m text (S k)
                  = Ok (JsonAt m (mkPosition (S k) line 1))).
Proof.
  intros Hk.
  assert (Hlen : S k <= length text).
  { apply (proj1 (nth_error_Some text k)). rewrite Hk. discriminate. }
  destruct (position_resolver_formula text (S k) Hlen)
    as (line & col & E & F & _ & Hcol & _).
  assert (col = 1) as ->.
  { rewrite (Hcol k); [lia|lia|exact Hk|]. intros j Hj. lia. }
  exists line. split; [exact E|exact F].
Qed.

(** C8: the column that [get_line_and_col] and [format_err_str] report does
    not count from zero after the first line.  In the text of the two lines
    [a] and [b], the offset 2 of [b], the first character of its line, gets
    the line 1 and the column 1, while the offset 0 of [a], the first
    character of the first line, gets the column 0. *)
Theorem C8_column_not_zero_indexed :
  csv_lib.get_line_and_col (str "a" ++ [c_newline] ++ str "b") 2
  = Ok (1, 1)
  /\ (forall m,
        format_err_str m (str "a" ++ [c_newline] ++ str "b") 2
        = Ok (JsonAt m (mkPosition 2 1 1)))
  /\ csv_lib.get_line_and_col (str "a" ++ [c_newline] ++ str "b") 0
     = Ok (0, 0).
Proof.
  split; [reflexivity|]. split; [|reflexivity].
  intros m. reflexivity.
Qed.

Lemma skip_whitespace_loop_all (rest : list N) :
  forallb (fun c => mem_char c JSON_WHITESPACE) rest = true ->
  forall i, skip_whitespace_loop rest i = i + length rest.
Proof.
  induction rest as [|c rest IH]; intros H i; cbn [skip_whitespace_loop length].
  - lia.
  - cbn [forallb] in H. apply andb_true_iff in H as [Hc H].
    rewrite Hc, IH by assumption. lia.
Qed.

End json_position.

(** ** json_lib: empty and blank input (C10) *)

Section json_blank.

Variable float : Type.
Variable float_of_str : list N -> float.

(** C10: on the empty string and on a string of white space only (space,
    tab, carriage return, line feed), [parse_json] raises the
    [SyntaxError] for an unexpected end of file, at the offset that is the
    length of the input. *)
Theorem C10_blank_input (json : list N) :
  forallb (fun c => mem_char c JSON_WHITESPACE) json = true ->
  parse_json float_of_str json
  = Raise (SyntaxError (JsonUnexpectedEndOfFile (length json))).
Proof.
  intros H. unfold parse_json. cbn [parse_json_base].
  unfold skip_whitespace. cbn [skipn].
  rewrite skip_whitespace_loop_all by assumption. cbn [Nat.add].
  now rewrite Nat.leb_refl.
Qed.

End json_blank.

Lemma C10_blank_input_witness :
  parse_json (fun s : list N => s) [c_space; c_tab; c_return; c_newline]
  = Raise (SyntaxError (JsonUnexpectedEndOfFile 4))
  /\ parse_json (fun s : list N => s) []
     = Raise (SyntaxError (JsonUnexpectedEndOfFile 0)).
Proof.
  split.
  - apply (C10_blank_input (list N) (fun s => s)
             [c_space; c_tab; c_return; c_newline]).
    reflexivity.
  - apply (C10_blank_input (list N) (fun s => s) []). reflexivity.
Defined.

(** ** json_lib: pretty printing (C7) *)

Section json_pretty.

Variable float : Type.
Variable str_of_float : float -> list N.
Variable isfinite : float -> bool.

(** C7: [to_json] of the object with [a] mapped to 1 and [b] mapped to the
    array of 1 and 2, with [spaces = 2], is exactly the seven lines of
    [pretty_expected]. *)
Theorem C7_pretty_printing_literal :
  to_json str_of_float isfinite
    (VDict [(str "a", VInt 1); (str "b", VList [VInt 1; VInt 2])])
    (Some (SpacesInt 2))
  = Ok pretty_expected.
Proof. vm_compute. reflexivity. Qed.

(** The same with the numbers as floats that print as [1.0] and [2.0]. *)
Lemma pretty_printing_floats (one two : float) :
  isfinite one = true -> isfinite two = true ->
  str_of_float one = str "1.0" -> str_of_float two = str "2.0" ->
  to_json str_of_float isfinite
    (VDict [(str "a", VFloat one); (str "b", VList [VFloat one; VFloat two])])
    (Some (SpacesInt 2))
  = Ok pretty_expected.
Proof.
  intros F1 F2 S1 S2. unfold to_json.
  cbn [to_json_str members_loop elements_loop length Nat.eqb bind].
  rewrite F1, F2, S1, S2. vm_compute. reflexivity.
Qed.

End json_pretty.

(** ** json_lib: the members of an object (C5) *)

Section json_object.

Variable float : Type.

Local Abbreviation dict := (list (list N * value float)).

Lemma pystr_eqb_sym (a b : list N) : pystr_eqb a b = pystr_eqb b a.
Proof.
  destruct (pystr_eqb a b) eqn:E1, (pystr_eqb b a) eqn:E2; auto.
  - apply pystr_eqb_eq in E1. subst. now rewrite pystr_eqb_refl in E2.
  - apply pystr_eqb_eq in E2. subst. now rewrite pystr_eqb_refl in E1.
Qed.

Lemma pystr_eqb_trans_l (a b c : list N) :
  pystr_eqb a b = true -> pystr_eqb a c = pystr_eqb b c.
Proof. intros H. apply pystr_eqb_eq in H. now subst. Qed.

Lemma keys_dict_set (obj : dict) (key : list N) (val : value float) :
  map fst (dict_set obj key val)
  = if has_key key (map fst obj) then map fst obj else map fst obj ++ [key].
Proof.
  induction obj as [|[k v] obj IH]; [reflexivity|].
  cbn [dict_set map fst has_key existsb].
  rewrite (pystr_eqb_sym key k).
  destruct (pystr_eqb k key); [reflexivity|].
  cbn [map fst orb]. rewrite IH. unfold has_key.
  now destruct (existsb (pystr_eqb key) (map fst obj)).
Qed.

Lemma has_key_first_occurrences (key : list N) (keys : list (list N)) :
  has_key key (first_occurrences keys) = has_key key keys.
Proof.
  unfold has_key.
  induction keys as [|k keys IH]; [reflexivity|].
  cbn [first_occurrences existsb].
  destruct (pystr_eqb key k) eqn:E; [reflexivity|]. cbn [orb].
  rewrite <- IH. clear IH.
  induction (first_occurrences keys) as [|x l IHl]; [reflexivity|].
  cbn [filter].
  destruct (pystr_eqb k x) eqn:Ekx; cbn [negb existsb]; rewrite IHl.
  - apply pystr_eqb_eq in Ekx. subst. now rewrite E.
  - reflexivity.
Qed.

Lemma first_occurrences_snoc (keys : list (list N)) (key : list N) :
  first_occurrences (keys ++ [key])
  = if has_key key keys then first_occurrences keys
    else first_occurrences keys ++ [key].
Proof.
  induction keys as [|k keys IH]; [reflexivity|].
  cbn [app first_occurrences]. rewrite IH.
  unfold has_key. cbn [existsb].
  rewrite (pystr_eqb_sym key k).
  destruct (pystr_eqb k key) eqn:E; cbn [orb].
  - destruct (existsb (pystr_eqb key) keys); [reflexivity|].
    rewrite filter_app. cbn [filter]. rewrite E. cbn [negb].
    now rewrite app_nil_r.
  - destruct (existsb (pystr_eqb key) keys); [reflexivity|].
    rewrite filter_app. cbn [filter]. rewrite E. reflexivity.
Qed.

(** Key order: the keys of the dictionary are the keys of the members in
    the order of their first appearance. *)
Lemma keys_of_members (members : dict) :
  map fst (fold_left set_member members [])
  = first_occurrences (map fst members).
Proof.
  induction members as [|[k v] members IH] using rev_ind; [reflexivity|].
  rewrite fold_left_app, map_app. cbn [fold_left map fst].
  unfold set_member at 1. cbn [fst snd].
  rewrite keys_dict_set, first_occurrences_snoc, IH.
  now rewrite has_key_first_occurrences.
Qed.

Lemma dict_get_set (obj : dict) (key key' : list N) (val : value float) :
  dict_get (dict_set obj key' val) key
  = if pystr_eqb key' key then Some val else dict_get obj key.
Proof.
  induction obj as [|[k v] obj IH]; cbn [dict_set dict_get].
  - now destruct (pystr_eqb key' key).
  - destruct (pystr_eqb k key') eqn:E; cbn [dict_get].
    + rewrite (pystr_eqb_trans_l _ _ key E).
      now destruct (pystr_eqb key' key).
    + rewrite IH. destruct (pystr_eqb k key) eqn:E2; [|reflexivity].
      destruct (pystr_eqb key' key) eqn:E3; [|reflexivity].
      apply pystr_eqb_eq in E2, E3. subst.
      now rewrite pystr_eqb_refl in E.
Qed.

(** Last value wins. *)
Lemma value_of_members (members : dict) (key : list N) :
  dict_get (fold_left set_member members []) key = last_value key members.
Proof.
  induction members as [|[k v] members IH] using rev_ind; [reflexivity|].
  rewrite fold_left_app. cbn [fold_left]. unfold set_member at 1.
  cbn [fst snd]. rewrite dict_get_set, IH.
  unfold last_value. rewrite rev_app_distr. cbn [rev app find fst snd].
  now destruct (pystr_eqb k key).
Qed.

Lemma raise_at_not_ok (A : Type) (m : json_template) (text : list N)
    (i : nat) (a : A) :
  raise_at m text i <> Ok a.
Proof. unfold raise_at. destruct (format_err_str m text i); discriminate. Qed.

Lemma except_index_error_ok (A : Type) (json : list N) (r : result A) (a : A) :
  except_index_error json r = Ok a -> r = Ok a.
Proof. destruct r as [x|[]]; cbn; congruence. Qed.

Variable parse_value : list N -> nat -> result (value float * nat).

(** What the loop of [parse_json_obj] returns, it has read as members. *)
Lemma obj_loop_members (fuel : nat) :
  forall json i obj c obj' j,
    obj_loop parse_value fuel json i obj c = Ok (obj', j) ->
    exists members,
      object_members parse_value json i members j
      /\ obj' = fold_left set_member members obj.
Proof.
  induction fuel as [|fuel IH]; intros json i obj c obj' j H;
    [discriminate|].
  cbn [obj_loop] in H.
  destruct (parse_json_str json i) as [[key i1]|] eqn:Ek; cbn [bind] in H;
    [|discriminate].
  destruct (index json (skip_whitespace json i1)) as [c1|] eqn:Ec1;
    cbn [bind] in H; [|discriminate].
  destruct (N.eqb_spec c1 c_colon) as [->|Hne]; cbn [negb] in H.
  2:{ destruct c; [|discriminate]. now apply raise_at_not_ok in H. }
  destruct (parse_value json _) as [[val i2]|] eqn:Ev; cbn [bind] in H;
    [|discriminate].
  destruct (index json (skip_whitespace json i2)) as [c2|] eqn:Ec2;
    cbn [bind] in H; [|discriminate].
  destruct (N.eqb_spec c2 c_rbrace) as [->|Hnb].
  - injection H as <- <-. exists [(key, val)]. split; [|reflexivity].
    eapply members_last; eauto.
  - destruct (N.eqb_spec c2 c_comma) as [->|Hnc]; cbn [negb] in H.
    + apply IH in H as (members & Hm & ->).
      exists ((key, val) :: members). split; [|reflexivity].
      eapply members_more; eauto.
    + now apply raise_at_not_ok in H.
Qed.

(** C5: an object that [parse_json_obj] returns was read from an object
    text with some sequence of members; the keys of the object are the keys
    of these members in the order of their first appearance, and each key
    has the value of the last member that carries it. *)
Theorem C5_duplicate_keys (fuel : nat) (json : list N) (i j : nat)
    (obj : dict) :
  parse_json_obj parse_value fuel json i = Ok (obj, j) ->
  exists members,
    object_at parse_value json i members j
    /\ map fst obj = first_occurrences (map fst members)
    /\ (forall key, dict_get obj key = last_value key members).
Proof.
  unfold parse_json_obj. intros H.
  destruct (index json i) as [c0|] eqn:E0; cbn [bind] in H; [|discriminate].
  destruct (N.eqb_spec c0 c_lbrace) as [->|Hne]; cbn [negb] in H;
    [|discriminate].
  apply except_index_error_ok in H.
  destruct (index json (skip_whitespace json (i + 1))) as [c1|] eqn:E1;
    cbn [bind] in H; [|discriminate].
  destruct (N.eqb_spec c1 c_rbrace) as [->|Hnb].
  - injection H as <- <-. exists []. split; [|split].
    + now apply object_empty.
    + reflexivity.
    + reflexivity.
  - apply obj_loop_members in H as (members & Hm & ->).
    exists members. split; [|split].
    + now apply object_nonempty.
    + apply keys_of_members.
    + intros key. apply value_of_members.
Qed.

End json_object.

(** The text [{"a":1,"b":2,"a":3}], with a float modelled by its literal. *)
Lemma C5_duplicate_keys_witness :
  exists members,
    object_at (parse_json_base (fun s : list N => s) 20)
      ([c_lbrace; c_quote] ++ str "a" ++ [c_quote] ++ str ":1,"
         ++ [c_quote] ++ str "b" ++ [c_quote] ++ str ":2,"
         ++ [c_quote] ++ str "a" ++ [c_quote] ++ str ":3}")
      0 members 19
    /\ [str "a"; str "b"] = first_occurrences (map fst members)
    /\ (forall key,
          dict_get [(str "a", VFloat (str "3")); (str "b", VFloat (str "2"))]
            key
          = last_value key members).
Proof.
  apply (C5_duplicate_keys (list N)
           (parse_json_base (fun s : list N => s) 20) 20
           ([c_lbrace; c_quote] ++ str "a" ++ [c_quote] ++ str ":1,"
              ++ [c_quote] ++ str "b" ++ [c_quote] ++ str ":2,"
              ++ [c_quote] ++ str "a" ++ [c_quote] ++ str ":3}")
           0 19
           [(str "a", VFloat (str "3")); (str "b", VFloat (str "2"))]).
  vm_compute. reflexivity.
Defined.

(** ** json_lib: number tokens (C4) *)

Section take_drop_facts.

Variable p : N -> bool.

Lemma take_drop_while (s : list N) : take_while p s ++ drop_while p s = s.
Proof.
  induction s as [|c s IH]; [reflexivity|].
  cbn [take_while drop_while]. destruct (p c); [|reflexivity].
  cbn [app]. now rewrite IH.
Qed.

Lemma take_while_all (s : list N) : forallb p (take_while p s) = true.
Proof.
  induction s as [|c s IH]; [reflexivity|].
  cbn [take_while]. destruct (p c) eqn:E; [|reflexivity].
  cbn [forallb]. now rewrite E.
Qed.

Lemma drop_while_head (s : list N) (c : N) (r : list N) :
  drop_while p s = c :: r -> p c = false.
Proof.
  induction s as [|x s IH]; [discriminate|].
  cbn [drop_while]. destruct (p x) eqn:E; [exact IH|].
  now intros [= -> _].
Qed.

Lemma take_while_app (q : N -> bool) (ds r : list N) :
  (forall c, q c = true -> p c = true) ->
  forallb q ds = true ->
  take_while p (ds ++ r) = ds ++ take_while p r.
Proof.
  intros Hqp. induction ds as [|d ds IH]; intros H; [reflexivity|].
  cbn [forallb] in H. apply andb_true_iff in H as [Hd H].
  cbn [app take_while]. rewrite (Hqp _ Hd). now rewrite IH.
Qed.

Lemma drop_while_app (q : N -> bool) (ds r : list N) :
  (forall c, q c = true -> p c = true) ->
  forallb q ds = true ->
  drop_while p (ds ++ r) = drop_while p r.
Proof.
  intros Hqp. induction ds as [|d ds IH]; intros H; [reflexivity|].
  cbn [forallb] in H. apply andb_true_iff in H as [Hd H].
  cbn [app drop_while]. rewrite (Hqp _ Hd). now rewrite IH.
Qed.

Lemma take_while_stop (c : N) (r : list N) :
  p c = false -> take_while p (c :: r) = [].
Proof. intros H. cbn [take_while]. now rewrite H. Qed.

Lemma drop_while_stop (c : N) (r : list N) :
  p c = false -> drop_while p (c :: r) = c :: r.
Proof. intros H. cbn [drop_while]. now rewrite H. Qed.

Lemma firstn_take_while (s : list N) :
  firstn (length (take_while p s)) s = take_while p s.
Proof.
  induction s as [|c s IH]; [reflexivity|].
  cbn [take_while]. destruct (p c); [|reflexivity].
  cbn [length firstn]. now rewrite IH.
Qed.

Lemma skipn_take_while (s : list N) :
  skipn (length (take_while p s)) s = drop_while p s.
Proof.
  induction s as [|c s IH]; [reflexivity|].
  cbn [take_while drop_while]. destruct (p c); [|reflexivity].
  cbn [length skipn]. now rewrite IH.
Qed.

End take_drop_facts.

Section json_number_chars.

Lemma is_digit_range (c : N) :
  is_digit c = true <-> (48 <= c <= 57)%N.
Proof.
  unfold is_digit, c_0, c_9. rewrite andb_true_iff, !N.leb_le. tauto.
Qed.

Lemma not_digit_test (c : N) :
  N.ltb c c_0 || N.ltb c_9 c = negb (is_digit c).
Proof.
  unfold is_digit, c_0, c_9.
  destruct (N.ltb_spec c 48), (N.ltb_spec 57 c), (N.leb_spec 48 c),
    (N.leb_spec c 57); cbn; try reflexivity; lia.
Qed.

Lemma lower_char_e (c : N) :
  N.eqb (lower_char c) c_e = is_exponent_mark c.
Proof.
  unfold lower_char, is_exponent_mark, c_e.
  destruct (N.leb_spec 65 c), (N.leb_spec c 90); cbn [andb];
    destruct (N.eqb_spec c 101), (N.eqb_spec c 69); cbn [orb];
    try (apply N.eqb_neq; lia); try (apply N.eqb_eq; lia); try lia.
Qed.

Lemma digit_not_mark (c : N) :
  is_digit c = true -> negb (is_exponent_mark c) = true.
Proof.
  intros H. apply is_digit_range in H. unfold is_exponent_mark, c_e.
  destruct (N.eqb_spec c 101), (N.eqb_spec c 69); cbn; auto; lia.
Qed.

Lemma digit_not_dot (c : N) : is_digit c = true -> N.eqb c c_dot = false.
Proof.
  intros H. apply is_digit_range in H. apply N.eqb_neq. unfold c_dot. lia.
Qed.

Lemma mark_not_digit (c : N) :
  is_exponent_mark c = true -> is_digit c = false.
Proof.
  intros H. destruct (is_digit c) eqn:E; [|reflexivity].
  apply digit_not_mark in E. now rewrite H in E.
Qed.

Lemma mark_not_dot (c : N) :
  is_exponent_mark c = true -> N.eqb c c_dot = false.
Proof.
  unfold is_exponent_mark, c_e, c_dot. intros H.
  apply orb_true_iff in H as [H|H]; apply N.eqb_eq in H; subst; reflexivity.
Qed.

End json_number_chars.

Section json_number_grammar.

Ltac bool_simp :=
  repeat first [ rewrite andb_false_r | rewrite andb_true_r
               | rewrite orb_false_r | rewrite orb_true_r
               | progress cbn [andb negb orb] ].

Lemma endswith_snoc (s : list N) (y c : N) :
  endswith (s ++ [y]) [c] = N.eqb y c.
Proof.
  unfold endswith. rewrite length_app. cbn [length].
  replace (length s + 1 - 1) with (length s) by lia.
  rewrite skipn_app_length, pystr_eqb_single.
  destruct (length s + 1) eqn:E; [lia|reflexivity].
Qed.

Lemma endswith_app_nonempty (a b : list N) (c : N) :
  b <> [] -> endswith (a ++ b) [c] = endswith b [c].
Proof.
  destruct b as [|y b _] using rev_ind; [congruence|]. intros _.
  now rewrite app_assoc, !endswith_snoc.
Qed.

Lemma endswith_digits (s : list N) :
  forallb is_digit s = true -> endswith s [c_dot] = false.
Proof.
  destruct s as [|y s _] using rev_ind; [reflexivity|].
  rewrite forallb_app. cbn [forallb]. rewrite andb_true_r.
  intros H. apply andb_true_iff in H as [_ H].
  rewrite endswith_snoc. now apply digit_not_dot.
Qed.

Lemma endswith_cons_digits (c : N) (s : list N) :
  s <> [] -> forallb is_digit s = true -> endswith (c :: s) [c_dot] = false.
Proof.
  intros Hne H. change (c :: s) with ([c] ++ s).
  rewrite endswith_app_nonempty by assumption. now apply endswith_digits.
Qed.

Lemma digits_and_one_point_digits (ds r : list N) (b : bool) :
  forallb is_digit ds = true ->
  digits_and_one_point (ds ++ r) b = digits_and_one_point r b.
Proof.
  induction ds as [|d ds IH]; intros H; [reflexivity|].
  cbn [forallb] in H. apply andb_true_iff in H as [Hd H].
  cbn [app digits_and_one_point].
  rewrite (digit_not_dot _ Hd), Hd. cbn [andb]. now apply IH.
Qed.

Lemma digits_and_one_point_stop (c : N) (r : list N) :
  is_digit c = false ->
  digits_and_one_point (c :: r) true = false.
Proof.
  intros H. cbn [digits_and_one_point].
  destruct (N.eqb c c_dot); [reflexivity|]. now rewrite H.
Qed.

Lemma digits1_nonempty (s : list N) :
  s <> [] -> forallb is_digit s = true -> digits1 s = true.
Proof.
  intros Hne H. unfold digits1. rewrite H.
  destruct s; [congruence|reflexivity].
Qed.

Local Abbreviation NE := (fun c : N => negb (is_exponent_mark c)).

(** The checks after the decimal point. *)
Lemma fraction_checks (s : list N) :
  negb (endswith (c_dot :: take_while NE s) [c_dot])
  && digits_and_one_point (take_while NE s) true
  && match drop_while NE s with
     | [] => true
     | _ :: after_e => exponent_ok after_e
     end
  = fraction_ok s.
Proof.
  unfold fraction_ok.
  pose proof (take_drop_while is_digit s) as Hs.
  pose proof (take_while_all is_digit s) as Hd.
  pose proof (drop_while_head is_digit s) as Hh.
  destruct (take_while is_digit s) as [|f frac];
    destruct (drop_while is_digit s) as [|c r]; subst s.
  - reflexivity.
  - specialize (Hh c r eq_refl). cbn [app length Nat.eqb negb andb].
    destruct (is_exponent_mark c) eqn:Em.
    + rewrite take_while_stop by now rewrite Em.
      change (endswith [c_dot] [c_dot]) with true. reflexivity.
    + cbn [take_while]. rewrite Em. cbn [negb].
      rewrite digits_and_one_point_stop by assumption. now bool_simp.
  - rewrite (take_while_app NE is_digit (f :: frac) [] digit_not_mark Hd).
    rewrite (drop_while_app NE is_digit (f :: frac) [] digit_not_mark Hd).
    rewrite digits_and_one_point_digits by assumption.
    cbn [take_while drop_while digits_and_one_point length Nat.eqb negb andb].
    rewrite app_nil_r.
    rewrite endswith_cons_digits by (auto; discriminate).
    reflexivity.
  - specialize (Hh c r eq_refl).
    rewrite (take_while_app NE is_digit (f :: frac) _ digit_not_mark Hd).
    rewrite (drop_while_app NE is_digit (f :: frac) _ digit_not_mark Hd).
    rewrite digits_and_one_point_digits by assumption.
    cbn [length Nat.eqb negb andb].
    destruct (is_exponent_mark c) eqn:Em.
    + rewrite take_while_stop, drop_while_stop by now rewrite Em.
      rewrite app_nil_r.
      rewrite endswith_cons_digits by (auto; discriminate).
      reflexivity.
    + cbn [take_while]. rewrite Em. cbn [negb].
      rewrite digits_and_one_point_stop by assumption. now bool_simp.
Qed.

Lemma number_checks_decomposed (int rest : list N) :
  forallb is_digit int = true ->
  (forall c r, rest = c :: r -> is_digit c = false) ->
  number_checks (int ++ rest)
  = negb (length int =? 0)
    && negb (match int with
             | c :: _ :: _ => N.eqb c c_0
             | _ => false
             end)
    && match rest with
       | [] => true
       | c :: s' =>
           if N.eqb c c_dot then fraction_ok s'
           else is_exponent_mark c && exponent_ok s'
       end.
Proof.
  intros Hd Hh. unfold number_checks.
  rewrite (take_while_app NE is_digit int rest digit_not_mark Hd).
  rewrite (drop_while_app NE is_digit int rest digit_not_mark Hd).
  rewrite digits_and_one_point_digits by assumption.
  destruct int as [|d int].
  - (* no integer part *)
    cbn [app length Nat.eqb negb andb].
    destruct rest as [|c r].
    + cbn [take_while length Nat.eqb negb]. now bool_simp.
    + specialize (Hh c r eq_refl).
      destruct (N.eqb_spec c c_dot) as [->|Hdot].
      * reflexivity.
      * destruct (is_exponent_mark c) eqn:Em.
        -- rewrite take_while_stop by now rewrite Em.
           cbn [length Nat.eqb negb]. now bool_simp.
        -- cbn [take_while]. rewrite Em. cbn [negb digits_and_one_point].
           apply N.eqb_neq in Hdot. rewrite Hdot, Hh. now bool_simp.
  - assert (Hdi := Hd).
    cbn [forallb] in Hd. apply andb_true_iff in Hd as [Hd0 Hd].
    assert (Hstart : startswith ((d :: int) ++ rest) [c_dot] = false).
    { cbn [app startswith]. now rewrite (digit_not_dot _ Hd0). }
    assert (Hlead :
      (2 <=? length ((d :: int) ++ rest))
      && N.eqb (nth 0 ((d :: int) ++ rest) 0%N) c_0
      && is_digit (nth 1 ((d :: int) ++ rest) 0%N)
      = match int with
        | _ :: _ => N.eqb d c_0
        | [] => false
        end).
    { destruct int as [|d' int].
      - cbn [app]. destruct rest as [|c r]; [now bool_simp|].
        cbn [nth]. rewrite (Hh c r eq_refl). now bool_simp.
      - cbn [forallb] in Hd. apply andb_true_iff in Hd as [Hd1 _].
        cbn [app nth length]. rewrite Hd1. now bool_simp. }
    assert (Hlen : forall X, (length ((d :: int) ++ X) =? 0) = false)
      by reflexivity.
    rewrite Hstart, Hlead, Hlen. clear Hstart Hlead Hlen.
    cbn [length Nat.eqb negb andb].
    destruct (match int with _ :: _ => N.eqb d c_0 | [] => false end);
      [reflexivity|].
    cbn [negb andb].
    destruct rest as [|c r].
    + cbn [take_while drop_while]. rewrite app_nil_r.
      rewrite endswith_digits by assumption. reflexivity.
    + specialize (Hh c r eq_refl).
      destruct (N.eqb_spec c c_dot) as [->|Hdot].
      * change (NE c_dot) with true.
        cbn [take_while drop_while digits_and_one_point].
        change (negb (is_exponent_mark c_dot)) with true. cbn iota.
        change (N.eqb c_dot c_dot) with true. cbn iota.
        rewrite endswith_app_nonempty by discriminate.
        rewrite andb_true_r. cbn [digits_and_one_point].
        change (N.eqb c_dot c_dot) with true. cbn iota.
        apply fraction_checks.
      * apply N.eqb_neq in Hdot.
        destruct (is_exponent_mark c) eqn:Em.
        -- rewrite take_while_stop, drop_while_stop by now rewrite Em.
           rewrite app_nil_r.
           rewrite endswith_digits by assumption.
           reflexivity.
        -- cbn [take_while]. rewrite Em. cbn [negb digits_and_one_point].
           rewrite Hdot, Hh. now bool_simp.
Qed.

(** The checks of [parse_json_number] accept the grammar of the
    specification, and nothing else. *)
Lemma number_checks_grammar (num : list N) :
  number_checks num = unsigned_number_ok num.
Proof.
  unfold unsigned_number_ok.
  rewrite <- (take_drop_while is_digit num) at 1.
  apply number_checks_decomposed.
  - apply take_while_all.
  - intros c r H. eapply drop_while_head; eauto.
Qed.

End json_number_grammar.

Section json_number_code.

Variable float : Type.
Variable float_of_str : list N -> float.

Local Abbreviation NE := (fun c : N => negb (is_exponent_mark c)).

Lemma str_find_mark (num : list N) :
  forall k,
    str_find (lower num) [c_e] k
    = if existsb is_exponent_mark num
      then Some (k + length (take_while NE num)) else None.
Proof.
  induction num as [|c num IH]; intros k; [reflexivity|].
  cbn [lower map str_find startswith existsb take_while].
  rewrite andb_true_r, lower_char_e.
  destruct (is_exponent_mark c); cbn [orb negb length].
  - now rewrite Nat.add_0_r.
  - fold (lower num). rewrite IH.
    destruct (existsb is_exponent_mark num); [|reflexivity].
    f_equal. lia.
Qed.

Lemma contains_mark (num : list N) :
  contains [c_e] (lower num) = existsb is_exponent_mark num.
Proof.
  rewrite contains_single. unfold lower.
  induction num as [|c num IH]; [reflexivity|].
  cbn [map existsb]. now rewrite lower_char_e, IH.
Qed.

Lemma take_while_no_mark (num : list N) :
  existsb is_exponent_mark num = false -> take_while NE num = num.
Proof.
  induction num as [|c num IH]; [reflexivity|].
  cbn [existsb take_while]. intros H.
  apply orb_false_iff in H as [Hc H]. rewrite Hc. cbn [negb].
  now rewrite IH.
Qed.

(** [e_index] is the length of the text before the first [e] or [E]. *)
Lemma e_index_spec (num : list N) :
  (if contains [c_e] (lower num) then str_index (lower num) [c_e]
   else Ok (length num))
  = Ok (length (take_while NE num)).
Proof.
  rewrite contains_mark. unfold str_index. rewrite str_find_mark.
  destruct (existsb is_exponent_mark num) eqn:E; [reflexivity|].
  now rewrite take_while_no_mark.
Qed.

Lemma before_e_loop_spec (json : list N) (s : list N) :
  forall i b,
    i + length s <= length json ->
    (digits_and_one_point s b = true ->
     exists r, before_e_loop json s i b = Ok r)
    /\ (digits_and_one_point s b = false ->
        exists e, before_e_loop json s i b = Raise (SyntaxError e)).
Proof.
  induction s as [|c s IH]; intros i b Hlen.
  - split; [intros _; eexists; reflexivity|discriminate].
  - cbn [length] in Hlen. cbn [before_e_loop digits_and_one_point].
    rewrite not_digit_test.
    destruct (N.eqb c c_dot).
    + destruct b.
      * split; [discriminate|]. intros _.
        destruct (raise_at_in_range (nat * bool) TSecondDecimalPoint json i)
          as (p & E & _); [lia|]. eauto.
      * apply IH. lia.
    + destruct (is_digit c); cbn [negb andb].
      * apply IH. lia.
      * split; [discriminate|]. intros _.
        destruct (raise_at_in_range (nat * bool) (TExpectedDigit c) json i)
          as (p & E & _); [lia|]. eauto.
Qed.

Lemma after_e_loop_spec (json : list N) (s : list N) :
  forall i,
    i + length s <= length json ->
    (forallb is_digit s = true -> exists r, after_e_loop json s i = Ok r)
    /\ (forallb is_digit s = false ->
        exists e, after_e_loop json s i = Raise (SyntaxError e)).
Proof.
  induction s as [|c s IH]; intros i Hlen.
  - split; [intros _; eexists; reflexivity|discriminate].
  - cbn [length] in Hlen. cbn [after_e_loop forallb].
    rewrite not_digit_test.
    destruct (is_digit c); cbn [negb andb].
    + apply IH. lia.
    + split; [discriminate|]. intros _.
      destruct (raise_at_in_range nat (TExpectedDigit c) json i)
        as (p & E & _); [lia|]. eauto.
Qed.

Lemma digits_block (json s : list N) (i : nat) :
  i + length s <= length json ->
  (digits1 s = true ->
   exists r,
     (if length s =? 0 then raise_at TEndOfNumber json i
      else after_e_loop json s i) = Ok r)
  /\ (digits1 s = false ->
      exists e,
        (if length s =? 0 then raise_at TEndOfNumber json i
         else after_e_loop json s i) = Raise (SyntaxError e)).
Proof.
  intros Hlen. unfold digits1.
  destruct s as [|c s].
  - cbn [length Nat.eqb negb andb]. split; [discriminate|]. intros _.
    destruct (raise_at_in_range nat TEndOfNumber json i) as (p & E & _);
      [cbn [length] in Hlen; lia|]. eauto.
  - change (length (c :: s) =? 0) with false. cbn [negb andb].
    now apply after_e_loop_spec.
Qed.

(** The exponent block of [parse_json_number]. *)
Lemma exponent_block (json num : list N) (i0 : nat) :
  length num <= length json ->
  let e_index := length (take_while NE num) in
  let block :=
    if negb (e_index =? length num) then
      let i := e_index + 1 in
      let after_e := slice_from num (e_index + 1) in
      let signed :=
        startswith after_e [c_plus] || startswith after_e [c_minus] in
      let after_e := if signed then slice_from after_e 1 else after_e in
      let i := if signed then i + 1 else i in
      if length after_e =? 0 then raise_at TEndOfNumber json i
      else after_e_loop json after_e i
    else Ok i0 in
  let accepted :=
    match drop_while NE num with
    | [] => true
    | _ :: after_e => exponent_ok after_e
    end in
  (accepted = true -> exists r, block = Ok r)
  /\ (accepted = false -> exists e, block = Raise (SyntaxError e)).
Proof.
  intros Hlen. cbv zeta.
  pose proof (take_drop_while NE num) as Hs.
  pose proof (skipn_take_while NE num) as Hk.
  assert (Hl : length num
               = length (take_while NE num) + length (drop_while NE num)).
  { rewrite <- Hs at 1. apply length_app. }
  unfold slice_from.
  replace (length (take_while NE num) + 1)
    with (1 + length (take_while NE num)) by lia.
  rewrite <- skipn_skipn, Hk.
  destruct (drop_while NE num) as [|m after_e].
  - cbn [length] in Hl. rewrite Nat.add_0_r in Hl.
    rewrite <- Hl, Nat.eqb_refl. cbn [negb].
    split; [intros _; eexists; reflexivity|discriminate].
  - cbn [length] in Hl.
    assert (E : (length (take_while NE num) =? length num) = false)
      by (apply Nat.eqb_neq; lia).
    rewrite E. cbn [negb skipn]. unfold exponent_ok.
    destruct after_e as [|c s].
    + cbn [startswith orb length Nat.eqb]. split; [discriminate|]. intros _.
      destruct (raise_at_in_range nat TEndOfNumber json
                  (1 + length (take_while NE num))) as (p & Ep & _);
        [cbn [length] in Hl; lia|]. eauto.
    + cbn [startswith]. rewrite !andb_true_r. fold (is_sign c).
      cbn [length] in Hl.
      destruct (is_sign c).
      * cbn [skipn]. apply digits_block. lia.
      * apply digits_block. cbn [length]. lia.
Qed.

Lemma number_body_spec (json num : list N) (i : nat) (neg : bool)
    (ind : nat) :
  i + length num <= length json ->
  (number_checks num = true ->
   number_body float_of_str json num i neg ind
   = Ok (float_of_str (if neg then [c_minus] ++ num else num), ind))
  /\ (number_checks num = false ->
      exists e,
        number_body float_of_str json num i neg ind = Raise (SyntaxError e)).
Proof.
  intros Hlen. unfold number_body, number_checks.
  rewrite e_index_spec. cbn [bind].
  unfold slice. cbn [skipn]. rewrite Nat.sub_0_r, firstn_take_while.
  replace ((2 <=? length num) && N.eqb (nth 0 num 0%N) c_0
           && N.leb c_0 (nth 1 num 0%N) && N.leb (nth 1 num 0%N) c_9)
    with ((2 <=? length num) && N.eqb (nth 0 num 0%N) c_0
          && is_digit (nth 1 num 0%N))
    by (unfold is_digit; now rewrite andb_assoc).
  assert (Hb : length (take_while NE num) <= length num).
  { rewrite <- (take_drop_while NE num) at 2. rewrite length_app. lia. }
  destruct (startswith num [c_dot]); cbn [negb andb].
  { split; [discriminate|]. intros _.
    destruct (raise_at_in_range (float * nat)
                TDecimalPointWithoutDigitBefore json i) as (p & E & _);
      [lia|]. eauto. }
  destruct ((2 <=? length num) && N.eqb (nth 0 num 0%N) c_0
            && is_digit (nth 1 num 0%N))
    eqn:Hz; cbn [negb andb].
  { split; [discriminate|]. intros _.
    assert (2 <= length num).
    { apply andb_true_iff in Hz as [Hz _]. apply andb_true_iff in Hz as [Hz _].
      now apply Nat.leb_le in Hz. }
    destruct (raise_at_in_range (float * nat) TDigitAfterZero json (i + 1))
      as (p & E & _); [lia|]. eauto. }
  destruct (endswith (take_while NE num) [c_dot]); cbn [negb andb].
  { split; [discriminate|]. intros _.
    destruct (raise_at_in_range (float * nat) TDecimalPointWithoutDigitAfter
                json (i + length (take_while NE num) - 1)) as (p & E & _);
      [lia|]. eauto. }
  destruct (length (take_while NE num) =? 0); cbn [negb andb].
  { split; [discriminate|]. intros _.
    destruct (raise_at_in_range (float * nat) TEmptyNonExponent json i)
      as (p & E & _); [lia|]. eauto. }
  destruct (before_e_loop_spec json (take_while NE num) i false)
    as [Hok Herr]; [lia|].
  destruct (digits_and_one_point (take_while NE num) false); cbn [andb].
  2:{ split; [discriminate|]. intros _.
      destruct (Herr eq_refl) as [e E]. rewrite E. cbn [bind]. eauto. }
  destruct (Hok eq_refl) as [r E]. rewrite E. cbn [bind]. clear Hok Herr E.
  pose proof (exponent_block json num i ltac:(lia)) as Hexp.
  cbv zeta in Hexp. cbv zeta.
  destruct Hexp as [Hok Herr].
  match goal with
  | |- (?acc = true -> _) /\ _ => destruct acc
  end.
  - destruct (Hok eq_refl) as [r' E].
    match goal with
    | |- context [bind ?b _] => replace b with (@Ok nat r')
    end.
    cbn [bind]. split; [reflexivity|discriminate].
  - destruct (Herr eq_refl) as [e E].
    match goal with
    | |- context [bind ?b _] =>
        replace b with (@Raise nat (SyntaxError e))
    end.
    cbn [bind]. split; [discriminate|eauto].
Qed.

Lemma number_end_loop_token (rest : list N) (i : nat) :
  number_end_loop rest i
  = i + length (take_while (fun c => mem_char c JSON_NUM_CHARS) rest).
Proof.
  revert i. induction rest as [|c rest IH]; intros i;
    cbn [number_end_loop take_while length]; [lia|].
  destruct (mem_char c JSON_NUM_CHARS); cbn [length]; [|lia].
  rewrite IH. lia.
Qed.

Lemma take_while_length (p : N -> bool) (s : list N) :
  length (take_while p s) <= length s.
Proof.
  rewrite <- (take_drop_while p s) at 2. rewrite length_app. lia.
Qed.

Lemma number_token_bound (json : list N) (i : nat) :
  i <= length json -> i + length (number_token json i) <= length json.
Proof.
  intros H. unfold number_token.
  pose proof (take_while_length
                (fun c => mem_char c JSON_NUM_CHARS) (skipn i json)) as Hl.
  rewrite length_skipn in Hl. lia.
Qed.

(** [parse_json_number] in terms of the token and [number_body]. *)
Lemma parse_json_number_token (json : list N) (i : nat) :
  parse_json_number float_of_str json i
  = let tok := number_token json i in
    if length tok =? 0 then raise_at TEmptyNumber json i
    else
      let negative := startswith tok [c_minus] in
      number_body float_of_str json
        (if negative then slice_from tok 1 else tok)
        (if negative then i + 1 else i) negative (i + length tok).
Proof.
  unfold parse_json_number. rewrite number_end_loop_token.
  fold (number_token json i).
  assert (E : slice json i (i + length (number_token json i))
              = number_token json i).
  { unfold slice, number_token.
    replace (i + length (take_while (fun c => mem_char c JSON_NUM_CHARS)
                           (skipn i json)) - i)
      with (length (take_while (fun c => mem_char c JSON_NUM_CHARS)
                      (skipn i json))) by lia.
    apply firstn_take_while. }
  rewrite E. reflexivity.
Qed.

(** [parse_json_number] accepts the token exactly when the grammar does. *)
Lemma parse_json_number_spec (json : list N) (i : nat) :
  i <= length json ->
  (number_token_ok (number_token json i) = true ->
   parse_json_number float_of_str json i
   = Ok (float_of_str (number_token json i),
         i + length (number_token json i)))
  /\ (number_token_ok (number_token json i) = false ->
      exists e,
        parse_json_number float_of_str json i = Raise (SyntaxError e)).
Proof.
  intros Hi. rewrite parse_json_number_token. cbv zeta.
  pose proof (number_token_bound json i Hi) as Hb.
  destruct (number_token json i) as [|c s].
  - cbn [length Nat.eqb number_token_ok]. split; [discriminate|]. intros _.
    destruct (raise_at_in_range (float * nat) TEmptyNumber json i)
      as (p & E & _); [lia|]. eauto.
  - change (length (c :: s) =? 0) with false. cbv iota.
    cbn [startswith number_token_ok]. rewrite andb_true_r.
    cbn [length] in Hb.
    destruct (N.eqb_spec c c_minus) as [->|Hc].
    + unfold slice_from. cbn [skipn].
      rewrite <- number_checks_grammar.
      destruct (number_body_spec json s (i + 1) true (i + length (c_minus :: s)))
        as [Hok Herr]; [lia|].
      split; [intros H; now rewrite (Hok H)|exact Herr].
    + rewrite <- number_checks_grammar.
      destruct (number_body_spec json (c :: s) i false (i + length (c :: s)))
        as [Hok Herr]; [cbn [length]; lia|].
      split; [intros H; now rewrite (Hok H)|exact Herr].
Qed.

(** C4: at an offset [i] into the text, [parse_json_number] scans the
    longest run [tok] of characters among the digits, [.], [e], [E], [+]
    and [-].  It returns the float of [tok], and the offset after [tok],
    exactly when [tok] is an optional [-], a non-empty integer part of
    digits that is not a [0] followed by another digit, an optional [.]
    with at least one digit after it, and an optional [e] or [E] with an
    optional sign and at least one digit.  On every other token it raises
    a [SyntaxError]. *)
Theorem C4_number_grammar (json : list N) (i : nat) :
  i <= length json ->
  let tok := number_token json i in
  (number_token_ok tok = true ->
   parse_json_number float_of_str json i
   = Ok (float_of_str tok, i + length tok))
  /\ (number_token_ok tok = false ->
      exists e,
        parse_json_number float_of_str json i = Raise (SyntaxError e)).
Proof. intros Hi tok. now apply parse_json_number_spec. Qed.

End json_number_code.

Lemma C4_number_grammar_witness :
  parse_json_number (fun s : list N => s) (str "[-12.50e+3, 01]") 1
  = Ok (str "-12.50e+3", 10)
  /\ exists e,
       parse_json_number (fun s : list N => s) (str "[-12.50e+3, 01]") 12
       = Raise (SyntaxError e).
Proof.
  split.
  - apply (C4_number_grammar (list N) (fun s => s)
             (str "[-12.50e+3, 01]") 1).
    + cbn. lia.
    + reflexivity.
  - apply (C4_number_grammar (list N) (fun s => s)
             (str "[-12.50e+3, 01]") 12).
    + cbn. lia.
    + reflexivity.
Defined.

(** ** json_lib: strings written and read back *)

Section json_strings.

Lemma flat_map_flat_map (A B C : Type) (f : A -> list B) (g : B -> list C)
    (s : list A) :
  flat_map g (flat_map f s) = flat_map (fun c => flat_map g (f c)) s.
Proof.
  induction s as [|c s IH]; [reflexivity|].
  cbn [flat_map]. now rewrite flat_map_app, IH.
Qed.

(** The replacements and the loop of [escape_str_for_json], character by
    character. *)
Lemma escape_str_for_json_chars (s : list N) :
  escape_str_for_json s = [c_quote] ++ flat_map escape_char s ++ [c_quote].
Proof.
  unfold escape_str_for_json. rewrite !replace_single.
  rewrite <- flat_map_concat_map. rewrite !flat_map_flat_map.
  do 2 f_equal. apply flat_map_ext. intros c. unfold escape_char.
  cbn [flat_map app]. rewrite ?app_nil_r.
  destruct (N.eqb_spec c c_backslash) as [->|H1]; [reflexivity|].
  cbn [flat_map app]. rewrite ?app_nil_r.
  destruct (N.eqb_spec c c_quote) as [->|H2]; [reflexivity|].
  cbn [flat_map app]. rewrite ?app_nil_r.
  destruct (N.eqb_spec c c_newline) as [->|H3]; [reflexivity|].
  cbn [flat_map app]. rewrite ?app_nil_r.
  destruct (N.eqb_spec c c_return) as [->|H4]; [reflexivity|].
  cbn [flat_map app]. rewrite ?app_nil_r.
  destruct (N.eqb_spec c c_backspace) as [->|H5]; [reflexivity|].
  cbn [flat_map app]. rewrite ?app_nil_r.
  destruct (N.eqb_spec c c_tab) as [->|H6]; [reflexivity|].
  cbn [flat_map app]. rewrite ?app_nil_r.
  destruct (N.eqb_spec c c_formfeed) as [->|H7]; [reflexivity|].
  cbn [flat_map app]. rewrite ?app_nil_r.
  reflexivity.
Qed.

Lemma hex4_ok_low : forallb hex4_ok (map N.of_nat (seq 0 32)) = true.
Proof. vm_compute. reflexivity. Qed.

Lemma hex4_ok_surrogates :
  forallb hex4_ok (map (fun k => 55296 + N.of_nat k)%N (seq 0 2048)) = true.
Proof. vm_compute. reflexivity. Qed.

Lemma hex4_ok_escaped (c : N) :
  N.leb c 31 || (N.leb 55296 c && N.leb c 57343) = true -> hex4_ok c = true.
Proof.
  intros H.
  assert (Hin : In c (map N.of_nat (seq 0 32))
                \/ In c (map (fun k => 55296 + N.of_nat k)%N (seq 0 2048))).
  { apply orb_true_iff in H as [H|H].
    - left. apply N.leb_le in H. apply in_map_iff.
      exists (N.to_nat c). split; [apply N2Nat.id|]. apply in_seq. lia.
    - right. apply andb_true_iff in H as [H1 H2].
      apply N.leb_le in H1, H2. apply in_map_iff.
      exists (N.to_nat (c - 55296)). split; [lia|]. apply in_seq. lia. }
  destruct Hin as [Hin|Hin].
  - exact (proj1 (forallb_forall _ _) hex4_ok_low c Hin).
  - exact (proj1 (forallb_forall _ _) hex4_ok_surrogates c Hin).
Qed.

Lemma is_hex_lower_lower (h : N) :
  is_hex_lower h = true -> lower_char h = h.
Proof.
  unfold is_hex_lower, lower_char, c_0, c_9, c_a, c_f. intros H.
  destruct (N.leb_spec 65 h), (N.leb_spec h 90); cbn [andb]; try reflexivity.
  exfalso.
  apply orb_true_iff in H as [H|H]; apply andb_true_iff in H as [Ha Hb];
    apply N.leb_le in Ha, Hb; lia.
Qed.

Variable json : list N.

(** One hexadecimal digit inside a [\u] escape. *)
Lemma str_loop_hex_digit (h : N) (rest : list N) (i : nat) (acc hs : list N) :
  is_hex_lower h = true ->
  str_loop json (h :: rest) i false acc (Some hs)
  = if length (hs ++ [h]) =? 4
    then str_loop json rest (i + 1) false (acc ++ [int16 (hs ++ [h])]) None
    else str_loop json rest (i + 1) false acc (Some (hs ++ [h])).
Proof.
  intros H. cbn [str_loop]. rewrite (is_hex_lower_lower h H).
  unfold is_hex_lower in H. now rewrite H.
Qed.

Lemma str_loop_backslash (rest : list N) (i : nat) (acc : list N) :
  str_loop json (c_backslash :: rest) i false acc None
  = str_loop json rest (i + 1) true acc None.
Proof. reflexivity. Qed.

Lemma str_loop_u (rest : list N) (i : nat) (acc : list N) :
  str_loop json (c_u :: rest) i true acc None
  = str_loop json rest (i + 1) false acc (Some []).
Proof. reflexivity. Qed.

(** One escaped character. *)
Lemma str_loop_escape_char (c : N) (rest : list N) (i : nat) (acc : list N) :
  N.leb c 1114111 = true ->
  str_loop json (escape_char c ++ rest) i false acc None
  = str_loop json rest (i + length (escape_char c)) false (acc ++ [c]) None.
Proof.
  intros Hc. unfold escape_char.
  destruct (N.eqb_spec c c_backslash) as [->|H1];
    [cbn; now rewrite <- !Nat.add_assoc|].
  destruct (N.eqb_spec c c_quote) as [->|H2];
    [cbn; now rewrite <- !Nat.add_assoc|].
  destruct (N.eqb_spec c c_newline) as [->|H3];
    [cbn; now rewrite <- !Nat.add_assoc|].
  destruct (N.eqb_spec c c_return) as [->|H4];
    [cbn; now rewrite <- !Nat.add_assoc|].
  destruct (N.eqb_spec c c_backspace) as [->|H5];
    [cbn; now rewrite <- !Nat.add_assoc|].
  destruct (N.eqb_spec c c_tab) as [->|H6];
    [cbn; now rewrite <- !Nat.add_assoc|].
  destruct (N.eqb_spec c c_formfeed) as [->|H7];
    [cbn; now rewrite <- !Nat.add_assoc|].
  destruct (N.leb c 31 || (N.leb 55296 c && N.leb c 57343)) eqn:He.
  - (* a [\u] escape *)
    pose proof (hex4_ok_escaped c He) as Hx. unfold hex4_ok in Hx.
    destruct (rjust (digits 16 c) 4 c_0) as [|h3 [|h2 [|h1 [|h0 [|? ?]]]]];
      try discriminate.
    apply andb_true_iff in Hx as [Hx E]. apply andb_true_iff in Hx as [Hx X0].
    apply andb_true_iff in Hx as [Hx X1]. apply andb_true_iff in Hx as [X3 X2].
    apply N.eqb_eq in E.
    cbn [app]. rewrite str_loop_backslash, str_loop_u.
    rewrite !str_loop_hex_digit by assumption.
    cbn [app length Nat.eqb]. rewrite E.
    f_equal. lia.
  - (* an ordinary character *)
    apply orb_false_iff in He as [He1 He2].
    cbn [app str_loop length].
    apply N.eqb_neq in H1, H2. rewrite H1, H2. cbn [andb negb].
    assert (Hr : (N.leb 32 c && N.leb c 33) || (N.leb 35 c && N.leb c 91)
                 || (N.leb 93 c && N.leb c 1114111) = true).
    { apply N.leb_gt in He1. apply N.leb_le in Hc.
      apply N.eqb_neq in H1, H2. unfold c_backslash, c_quote in *.
      destruct (N.leb_spec 32 c), (N.leb_spec c 33), (N.leb_spec 35 c),
        (N.leb_spec c 91), (N.leb_spec 93 c), (N.leb_spec c 1114111);
        cbn; try reflexivity; lia. }
    rewrite Hr. reflexivity.
Qed.

Lemma str_loop_escaped (s : list N) :
  valid_str s = true ->
  forall rest i acc,
    str_loop json (flat_map escape_char s ++ rest) i false acc None
    = str_loop json rest (i + length (flat_map escape_char s)) false
        (acc ++ s) None.
Proof.
  induction s as [|c s IH]; intros H rest i acc.
  - cbn. now rewrite Nat.add_0_r, app_nil_r.
  - cbn [valid_str forallb] in H. apply andb_true_iff in H as [Hc H].
    cbn [flat_map]. rewrite <- app_assoc.
    rewrite str_loop_escape_char by assumption.
    rewrite IH by assumption.
    rewrite length_app, <- app_assoc. f_equal. lia.
Qed.

End json_strings.

Lemma nth_error_app_length (A : Type) (pre l : list A) :
  nth_error (pre ++ l) (length pre) = nth_error l 0.
Proof. induction pre; cbn; auto. Qed.

Lemma index_app_length (pre rest : list N) (c : N) :
  index (pre ++ c :: rest) (length pre) = Ok c.
Proof. unfold index. now rewrite nth_error_app_length. Qed.

Lemma skipn_app_length_plus (pre l : list N) (k : nat) :
  skipn (length pre + k) (pre ++ l) = skipn k l.
Proof. induction pre; cbn; auto. Qed.

(** A string that [escape_str_for_json] wrote is read back by
    [parse_json_str]. *)
Lemma parse_json_str_escaped (s pre post : list N) :
  valid_str s = true ->
  parse_json_str (pre ++ escape_str_for_json s ++ post) (length pre)
  = Ok (s, length pre + length (escape_str_for_json s)).
Proof.
  intros H. rewrite escape_str_for_json_chars.
  unfold parse_json_str. cbn [app]. rewrite index_app_length.
  cbn [bind]. change (N.eqb c_quote c_quote) with true. cbn [negb].
  rewrite skipn_app_length_plus. cbn [skipn].
  rewrite <- app_assoc. rewrite str_loop_escaped by assumption.
  cbn [app str_loop]. change (N.eqb c_quote c_quote) with true.
  cbn [andb negb except_index_error].
  f_equal. f_equal. cbn [length]. rewrite !length_app. cbn [length]. lia.
Qed.

(** ** json_lib: number tokens written and read back *)

Section json_number_tokens.

Local Abbreviation numc := (fun c : N => mem_char c JSON_NUM_CHARS).
Local Abbreviation nodot := (fun c : N => negb (N.eqb c c_dot)).

Lemma digit_cases (c : N) :
  is_digit c = true ->
  (c = 48 \/ c = 49 \/ c = 50 \/ c = 51 \/ c = 52 \/ c = 53 \/ c = 54
   \/ c = 55 \/ c = 56 \/ c = 57)%N.
Proof. intros H. apply is_digit_range in H. lia. Qed.

Lemma digit_numc (c : N) : is_digit c = true -> numc c = true.
Proof.
  intros H. apply digit_cases in H.
  repeat (destruct H as [->|H]; [reflexivity|]). now subst.
Qed.

Lemma digit_start (c : N) :
  is_digit c = true -> mem_char c JSON_NUM_START_CHARS = true.
Proof.
  intros H. apply digit_cases in H.
  repeat (destruct H as [->|H]; [reflexivity|]). now subst.
Qed.

Lemma digit_nodot (c : N) : is_digit c = true -> nodot c = true.
Proof. intros H. cbv beta. now rewrite (digit_not_dot c H). Qed.

Lemma sign_facts (c : N) :
  is_sign c = true -> numc c = true /\ nodot c = true.
Proof.
  unfold is_sign. intros H.
  apply orb_true_iff in H as [H|H]; apply N.eqb_eq in H; subst; now split.
Qed.

Lemma mark_facts (c : N) :
  is_exponent_mark c = true -> numc c = true /\ nodot c = true.
Proof.
  unfold is_exponent_mark. intros H.
  apply orb_true_iff in H as [H|H]; apply N.eqb_eq in H; subst; now split.
Qed.

Lemma forallb_impl (p q : N -> bool) (s : list N) :
  (forall c, p c = true -> q c = true) ->
  forallb p s = true -> forallb q s = true.
Proof.
  intros Hpq. induction s as [|c s IH]; [reflexivity|].
  cbn [forallb]. intros H. apply andb_true_iff in H as [Hc H].
  now rewrite (Hpq c Hc), IH.
Qed.

Lemma digits1_facts (s : list N) :
  digits1 s = true ->
  s <> [] /\ forallb is_digit s = true.
Proof.
  unfold digits1. intros H. apply andb_true_iff in H as [Hn H].
  split; [|assumption]. intros ->. discriminate.
Qed.

(** The characters of an exponent. *)
Lemma exponent_chars (s : list N) :
  exponent_ok s = true ->
  forallb numc s = true /\ forallb nodot s = true.
Proof.
  unfold exponent_ok. destruct s as [|c s]; [discriminate|].
  destruct (is_sign c) eqn:Es; intros H.
  - apply digits1_facts in H as [_ H].
    destruct (sign_facts c Es) as [H1 H2].
    cbn [forallb]. rewrite H1, H2.
    split; [apply (forallb_impl _ _ _ digit_numc H)
           |apply (forallb_impl _ _ _ digit_nodot H)].
  - apply digits1_facts in H as [_ H].
    split; [apply (forallb_impl _ _ _ digit_numc H)
           |apply (forallb_impl _ _ _ digit_nodot H)].
Qed.

(** The characters of a fraction, after its point. *)
Lemma fraction_chars (s : list N) :
  fraction_ok s = true ->
  forallb numc s = true /\ forallb nodot s = true.
Proof.
  unfold fraction_ok. intros H.
  apply andb_true_iff in H as [_ H].
  rewrite <- (take_drop_while is_digit s), !forallb_app.
  pose proof (take_while_all is_digit s) as Hd.
  rewrite (forallb_impl _ _ _ digit_numc Hd),
    (forallb_impl _ _ _ digit_nodot Hd).
  destruct (drop_while is_digit s) as [|c r]; [now split|].
  apply andb_true_iff in H as [Hm He].
  destruct (mark_facts c Hm) as [H1 H2].
  destruct (exponent_chars r He) as [H3 H4].
  cbn [forallb andb]. now rewrite H1, H2, H3, H4.
Qed.

Lemma take_while_digits_id (s : list N) :
  forallb is_digit s = true ->
  take_while is_digit s = s /\ drop_while is_digit s = [].
Proof.
  induction s as [|c s IH]; [now split|].
  cbn [forallb]. intros H. apply andb_true_iff in H as [Hc H].
  cbn [take_while drop_while]. rewrite Hc.
  destruct (IH H) as [-> ->]. now split.
Qed.

(** An unsigned token is its integer part alone, or continues with a
    fraction, or with an exponent. *)
Lemma unsigned_number_shape (s : list N) :
  unsigned_number_ok s = true ->
  exists int rest,
    s = int ++ rest
    /\ int <> [] /\ forallb is_digit int = true
    /\ unsigned_number_ok int = true
    /\ (rest = []
        \/ (exists s', rest = c_dot :: s' /\ fraction_ok s' = true)
        \/ (exists c s', rest = c :: s' /\ is_exponent_mark c = true
                         /\ exponent_ok s' = true)).
Proof.
  unfold unsigned_number_ok. intros H.
  apply andb_true_iff in H as [H Hrest].
  apply andb_true_iff in H as [Hne Hlead].
  pose proof (take_while_all is_digit s) as Hd.
  exists (take_while is_digit s), (drop_while is_digit s).
  split; [symmetry; apply take_drop_while|].
  split; [intros E; rewrite E in Hne; discriminate|].
  split; [exact Hd|]. split.
  - destruct (take_while_digits_id _ Hd) as [-> ->].
    now rewrite Hne, Hlead.
  - destruct (drop_while is_digit s) as [|c r]; [now left|]. right.
    destruct (N.eqb_spec c c_dot) as [->|Hc].
    + left. eauto.
    + right. apply andb_true_iff in Hrest as [Hm He]. eauto 6.
Qed.

Lemma unsigned_number_chars (s : list N) :
  unsigned_number_ok s = true -> forallb numc s = true.
Proof.
  intros H.
  destruct (unsigned_number_shape s H)
    as (int & rest & -> & _ & Hd & _ & Hrest).
  rewrite forallb_app, (forallb_impl _ _ _ digit_numc Hd).
  destruct Hrest as [->|[(s' & -> & Hf)|(c & s' & -> & Hm & He)]].
  - reflexivity.
  - cbn [forallb andb]. change (numc c_dot) with true.
    now destruct (fraction_chars s' Hf) as [-> _].
  - cbn [forallb andb]. destruct (mark_facts c Hm) as [-> _].
    now destruct (exponent_chars s' He) as [-> _].
Qed.

Lemma number_token_chars (s : list N) :
  number_token_ok s = true -> forallb numc s = true.
Proof.
  destruct s as [|c s]; [discriminate|]. cbn [number_token_ok].
  destruct (N.eqb_spec c c_minus) as [->|Hc]; intros H.
  - cbn [forallb]. change (numc c_minus) with true.
    now rewrite (unsigned_number_chars s H).
  - now apply unsigned_number_chars.
Qed.

(** A token begins with a digit or the minus sign. *)
Lemma number_token_start (s : list N) :
  number_token_ok s = true ->
  exists c s', s = c :: s' /\ (is_digit c = true \/ c = c_minus).
Proof.
  destruct s as [|c s]; [discriminate|]. cbn [number_token_ok].
  destruct (N.eqb_spec c c_minus) as [->|Hc]; intros H.
  - eauto.
  - exists c, s. split; [reflexivity|]. left.
    destruct (unsigned_number_shape _ H) as (int & rest & E & Hne & Hd & _).
    destruct int as [|d int]; [congruence|].
    cbn [app] in E. injection E as -> _.
    cbn [forallb] in Hd. now apply andb_true_iff in Hd as [Hd _].
Qed.

(** The scan stops where the token ends. *)
Lemma number_token_app (pre tok post : list N) :
  forallb numc tok = true -> delimited post = true ->
  number_token (pre ++ tok ++ post) (length pre) = tok.
Proof.
  intros Ht Hp. unfold number_token. rewrite skipn_app_length.
  rewrite (take_while_app numc numc tok post (fun c H => H) Ht).
  destruct post as [|c post]; [apply app_nil_r|].
  cbn [delimited] in Hp. apply negb_true_iff in Hp.
  cbn [take_while]. rewrite Hp. apply app_nil_r.
Qed.

Lemma endswith_split (s p : list N) :
  endswith s p = true -> s = firstn (length s - length p) s ++ p.
Proof.
  unfold endswith. intros H. apply andb_true_iff in H as [_ H].
  apply pystr_eqb_eq in H.
  transitivity (firstn (length s - length p) s
                  ++ skipn (length s - length p) s).
  - symmetry. apply firstn_skipn.
  - f_equal. exact H.
Qed.

Lemma firstn_app_length (r p : list N) :
  firstn (length (r ++ p) - length p) (r ++ p) = r.
Proof.
  rewrite length_app.
  replace (length r + length p - length p) with (length r) by lia.
  rewrite firstn_app, Nat.sub_diag, firstn_all. cbn. apply app_nil_r.
Qed.

(** A point that only point-free text follows is the point of a final
    [.0] only if that text is [0]. *)
Lemma dot_zero_tail (a t r : list N) :
  a ++ c_dot :: t = r ++ [c_dot; c_0] ->
  forallb nodot t = true ->
  a = r /\ t = [c_0].
Proof.
  intros E Ht.
  destruct t as [|y t' _] using rev_ind.
  - change (r ++ [c_dot; c_0]) with (r ++ [c_dot] ++ [c_0]) in E.
    rewrite app_assoc in E.
    apply app_inj_tail in E as [_ E]. discriminate.
  - change (a ++ c_dot :: t' ++ [y]) with (a ++ (c_dot :: t') ++ [y]) in E.
    change (r ++ [c_dot; c_0]) with (r ++ [c_dot] ++ [c_0]) in E.
    rewrite !app_assoc in E.
    apply app_inj_tail in E as [E ->].
    destruct t' as [|x t'' _] using rev_ind.
    + apply app_inj_tail in E as [-> _]. now split.
    + exfalso.
      change (a ++ c_dot :: t'' ++ [x]) with (a ++ (c_dot :: t'') ++ [x]) in E.
      rewrite app_assoc in E.
      apply app_inj_tail in E as [_ ->].
      rewrite !forallb_app in Ht. cbn in Ht.
      now rewrite andb_false_r in Ht.
Qed.

Lemma no_dot_zero_tail (s r : list N) :
  forallb nodot s = true -> s <> r ++ [c_dot; c_0].
Proof.
  intros H ->. rewrite forallb_app in H. cbn in H.
  now rewrite andb_false_r in H.
Qed.

Lemma chop_unsigned (a u r : list N) :
  unsigned_number_ok u = true ->
  forallb nodot a = true ->
  a ++ u = r ++ [c_dot; c_0] ->
  exists int,
    r = a ++ int /\ int <> [] /\ forallb is_digit int = true
    /\ unsigned_number_ok int = true.
Proof.
  intros Hu Ha E.
  destruct (unsigned_number_shape u Hu)
    as (int & rest & -> & Hne & Hd & Hint & Hrest).
  pose proof (forallb_impl _ _ _ digit_nodot Hd) as Hnd.
  destruct Hrest as [->|[(s' & -> & Hf)|(c & s' & -> & Hm & He)]].
  - exfalso. rewrite app_nil_r in E.
    apply (no_dot_zero_tail (a ++ int) r); [|exact E].
    now rewrite forallb_app, Ha, Hnd.
  - rewrite app_assoc in E.
    destruct (fraction_chars s' Hf) as [_ Hs'].
    apply dot_zero_tail in E as [<- _]; [|assumption].
    exists int. auto.
  - exfalso.
    apply (no_dot_zero_tail (a ++ int ++ c :: s') r); [|exact E].
    destruct (mark_facts c Hm) as [_ Hc].
    destruct (exponent_chars s' He) as [_ Hs'].
    rewrite !forallb_app, Ha, Hnd. cbn [forallb andb]. now rewrite Hc, Hs'.
Qed.

(** Removing a final [.0] from a token leaves an integer literal, which is
    a token. *)
Lemma chop_dot_zero_token (s : list N) :
  number_token_ok s = true ->
  chop_dot_zero s = s
  \/ (s = chop_dot_zero s ++ [c_dot; c_0]
      /\ int_literal (chop_dot_zero s) = true
      /\ number_token_ok (chop_dot_zero s) = true).
Proof.
  intros H. unfold chop_dot_zero.
  destruct (endswith s [c_dot; c_0]) eqn:E; [right|now left].
  apply endswith_split in E.
  set (r := firstn (length s - length [c_dot; c_0]) s) in *.
  change (length s - 2) with (length s - length [c_dot; c_0]). fold r.
  split; [exact E|].
  destruct s as [|c s]; [discriminate|]. cbn [number_token_ok] in H.
  destruct (N.eqb_spec c c_minus) as [->|Hc].
  - destruct (chop_unsigned [c_minus] s r H eq_refl E)
      as (int & -> & Hne & Hd & Hint).
    cbn [app int_literal number_token_ok].
    change (N.eqb c_minus c_minus) with true. cbv iota.
    split; [now apply digits1_nonempty|exact Hint].
  - destruct (chop_unsigned [] (c :: s) r H eq_refl E)
      as (int & -> & Hne & Hd & Hint).
    cbn [app]. destruct int as [|d int]; [congruence|].
    assert (Hdm : N.eqb d c_minus = false).
    { cbn [forallb] in Hd. apply andb_true_iff in Hd as [Hd0 _].
      apply is_digit_range in Hd0. apply N.eqb_neq. unfold c_minus. lia. }
    cbn [int_literal number_token_ok]. rewrite Hdm.
    split; [now apply digits1_nonempty|exact Hint].
Qed.

End json_number_tokens.

(** ** The decimal digits of an integer *)

Section decimal_digits.

Lemma digit_char_decimal (d : N) :
  (d < 10)%N ->
  is_digit (digit_char d) = true
  /\ ((0 < d)%N -> N.eqb (digit_char d) c_0 = false).
Proof.
  intros H. unfold digit_char.
  destruct (N.ltb_spec d 10) as [_|]; [|lia]. split.
  - apply is_digit_range. unfold c_0. lia.
  - intros Hd. apply N.eqb_neq. unfold c_0. lia.
Qed.

Lemma log2_div10 (n : N) :
  (n / 10 <> 0)%N -> (N.log2 (n / 10) < N.log2 n)%N.
Proof.
  intros H.
  assert (Hn : (0 < n)%N).
  { destruct (N.eq_dec n 0) as [->|]; [now cbn in H|lia]. }
  apply N.log2_lt_pow2; [now apply N.neq_0_lt_0|].
  destruct (N.log2_spec n Hn) as [_ Hu].
  rewrite N.pow_succ_r' in Hu.
  apply N.Div0.div_lt_upper_bound. lia.
Qed.

Lemma digits_from_decimal (fuel : nat) :
  forall n acc,
    N.to_nat (N.log2 n) < fuel ->
    exists d rest,
      digits_from 10 fuel n acc = (d :: rest) ++ acc
      /\ forallb is_digit (d :: rest) = true
      /\ ((0 < n)%N -> N.eqb d c_0 = false)
      /\ (n = 0%N -> rest = []).
Proof.
  induction fuel as [|fuel IH]; intros n acc Hf; [lia|].
  cbn [digits_from].
  assert (Hm : (n mod 10 < 10)%N) by (apply N.mod_lt; lia).
  destruct (digit_char_decimal _ Hm) as [Hd Hz].
  destruct (N.eqb_spec (n / 10) 0) as [E|E].
  - exists (digit_char (n mod 10)), []. split; [reflexivity|].
    split; [cbn [forallb]; now rewrite Hd|]. split; [|reflexivity].
    intros Hn. apply Hz.
    assert (n < 10)%N by (apply N.div_small_iff in E; lia).
    rewrite N.mod_small by assumption. exact Hn.
  - pose proof (log2_div10 n E) as Hl.
    assert (Hf' : N.to_nat (N.log2 (n / 10)) < fuel).
    { revert Hl Hf. generalize (N.log2 (n / 10)), (N.log2 n). lia. }
    destruct (IH (n / 10)%N (digit_char (n mod 10) :: acc) Hf')
      as (d & rest & Er & Hds & Hnz & _).
    exists d, (rest ++ [digit_char (n mod 10)]).
    split; [rewrite Er; cbn [app]; now rewrite <- app_assoc|].
    split.
    { change (d :: rest ++ [digit_char (n mod 10)])
        with ((d :: rest) ++ [digit_char (n mod 10)]).
      rewrite forallb_app, Hds. cbn [forallb]. now rewrite Hd. }
    split; [intros _; apply Hnz; now apply N.neq_0_lt_0|].
    intros ->. now cbn in E.
Qed.

Lemma digits_decimal (n : N) :
  exists d rest,
    digits 10 n = d :: rest
    /\ forallb is_digit (d :: rest) = true
    /\ (rest <> [] -> N.eqb d c_0 = false).
Proof.
  destruct (digits_from_decimal (S (N.to_nat (N.log2 n))) n [])
    as (d & rest & E & Hd & Hnz & Hz); [lia|].
  exists d, rest. unfold digits. rewrite E, app_nil_r.
  split; [reflexivity|]. split; [exact Hd|].
  intros Hr. apply Hnz.
  destruct (N.eq_dec n 0) as [->|]; [now specialize (Hz eq_refl)|lia].
Qed.

(** [str(n)] of an integer is a number token without a point; it denotes
    an integer literal. *)
Lemma str_of_int_token (n : Z) :
  number_token_ok (str_of_int n) = true
  /\ chop_dot_zero (str_of_int n) = str_of_int n.
Proof.
  destruct (digits_decimal (Z.abs_N n)) as (d & rest & E & Hd & Hnz).
  assert (Hu : unsigned_number_ok (d :: rest) = true).
  { unfold unsigned_number_ok.
    destruct (take_while_digits_id _ Hd) as [-> ->].
    cbn [length Nat.eqb negb andb].
    destruct rest as [|d' rest]; [reflexivity|].
    now rewrite Hnz by discriminate. }
  assert (Hd0 : N.eqb d c_minus = false).
  { cbn [forallb] in Hd. apply andb_true_iff in Hd as [Hd _].
    apply is_digit_range in Hd. apply N.eqb_neq. unfold c_minus. lia. }
  assert (Htok : number_token_ok (str_of_int n) = true).
  { unfold str_of_int. rewrite E.
    destruct (Z.ltb n 0); cbn [app number_token_ok].
    - exact Hu.
    - now rewrite Hd0. }
  split; [exact Htok|].
  destruct (chop_dot_zero_token _ Htok) as [Ec | (Ec & _ & _)];
    [exact Ec|].
  exfalso. revert Ec. apply no_dot_zero_tail.
  unfold str_of_int. rewrite E, forallb_app.
  rewrite (forallb_impl _ _ _ digit_nodot Hd).
  now destruct (Z.ltb n 0).
Qed.

End decimal_digits.

(** ** json_lib: the compact text of arrays and objects *)

Section json_compact_text.

Variable float : Type.
Variable to_json_rec : value float -> result (list N).

Lemma concat_comma_sep_rest (ts : list (list N)) :
  concat (comma_sep false ts)
  = match ts with
    | [] => []
    | _ :: _ => [c_comma] ++ join [c_comma] ts
    end.
Proof.
  induction ts as [|t ts IH]; [reflexivity|].
  cbn [comma_sep app concat]. rewrite IH.
  destruct ts as [|t' ts]; [now rewrite app_nil_r|reflexivity].
Qed.

Lemma concat_comma_sep (ts : list (list N)) :
  concat (comma_sep true ts) = join [c_comma] ts.
Proof.
  destruct ts as [|t ts]; [reflexivity|].
  cbn [comma_sep app concat]. rewrite concat_comma_sep_rest.
  destruct ts as [|t' ts]; [now rewrite app_nil_r|reflexivity].
Qed.

Lemma elements_loop_none (vals : list (value float)) (ts : list (list N)) :
  Forall2 (fun v t => to_json_rec v = Ok t) vals ts ->
  forall is_first acc,
    elements_loop to_json_rec None vals is_first acc
    = Ok (acc ++ comma_sep is_first ts).
Proof.
  induction 1 as [|v t vals ts Hv _ IH]; intros is_first acc.
  - cbn. now rewrite app_nil_r.
  - cbn [elements_loop comma_sep]. rewrite Hv. cbn [bind]. rewrite IH.
    destruct is_first; now rewrite <- !app_assoc.
Qed.

Lemma members_loop_none (d : list (list N * value float))
    (ts : list (list N)) :
  Forall2 (fun kv t => to_json_rec (snd kv) = Ok t) d ts ->
  forall is_first acc,
  exists strs,
    members_loop to_json_rec None d is_first acc = Ok strs
    /\ concat strs
       = concat acc
         ++ concat (comma_sep is_first
                      (map (fun kt => member_text (fst (fst kt)) (snd kt))
                         (combine d ts))).
Proof.
  induction 1 as [|[k v] t d ts Hv _ IH]; intros is_first acc.
  - exists acc. split; [reflexivity|]. cbn. now rewrite app_nil_r.
  - cbn [members_loop combine map comma_sep fst snd]. cbn [snd] in Hv.
    rewrite Hv. cbn [bind].
    destruct (IH false
                ((if is_first then acc else acc ++ [[c_comma]])
                   ++ [escape_str_for_json k; [c_colon]] ++ [t]))
      as (strs & E & Hc).
    exists strs. rewrite <- app_assoc. split; [exact E|].
    rewrite Hc. unfold member_text.
    destruct is_first; rewrite !concat_app; cbn [concat app];
      rewrite ?app_nil_r, <- ?app_assoc; reflexivity.
Qed.

End json_compact_text.

(** ** json_lib: arrays and objects read back *)

Section json_positions.

Lemma index_at (json pre rest : list N) (c : N) (i : nat) :
  json = pre ++ c :: rest -> i = length pre -> index json i = Ok c.
Proof. intros -> ->. apply index_app_length. Qed.

Lemma skip_whitespace_at (json pre rest : list N) (c : N) (i : nat) :
  json = pre ++ c :: rest -> i = length pre ->
  mem_char c JSON_WHITESPACE = false ->
  skip_whitespace json i = i.
Proof.
  intros -> -> H. unfold skip_whitespace. rewrite skipn_app_length.
  cbn [skip_whitespace_loop]. now rewrite H.
Qed.

Lemma skip_whitespace_at_end (json : list N) (i : nat) :
  i = length json -> skip_whitespace json i = i.
Proof.
  intros ->. unfold skip_whitespace. now rewrite skipn_all.
Qed.

Lemma value_start_not_space (c : N) :
  value_start c = true -> mem_char c JSON_WHITESPACE = false.
Proof.
  unfold value_start. intros H. apply andb_true_iff in H as [H _].
  now apply negb_true_iff in H.
Qed.

Lemma value_start_not_rbracket (c : N) :
  value_start c = true -> N.eqb c c_rbracket = false.
Proof.
  unfold value_start. intros H. apply andb_true_iff in H as [_ H].
  now apply negb_true_iff in H.
Qed.

End json_positions.

Ltac side :=
  first [ reflexivity
        | assumption
        | now apply value_start_not_space
        | (subst; rewrite <- ?app_assoc; cbn [app]; rewrite <- ?app_assoc;
           reflexivity)
        | (rewrite ?length_app; cbn [length]; rewrite ?length_app;
           cbn [length]; lia) ].

Ltac ok_pos :=
  match goal with
  | |- Ok (_, ?x) = Ok (_, ?y) => replace x with y; [|side]
  end.

Section json_loops_read.

Variable float : Type.
Variable parse_value : list N -> nat -> result (value float * nat).

(** The loop of [parse_json_arr] on the compact text of the elements. *)
Lemma arr_loop_spec (vals : list (value float)) (ts : list (list N)) :
  Forall2 (fun v t => starts_value t /\ parses_at parse_value v t) vals ts ->
  vals <> [] ->
  forall fuel json pre post acc,
    json = pre ++ join [c_comma] ts ++ c_rbracket :: post ->
    length (join [c_comma] ts) < fuel ->
    arr_loop parse_value fuel json (length pre) acc
    = Ok (acc ++ vals, length pre + length (join [c_comma] ts) + 1).
Proof.
  induction 1 as [|v t vals ts [Hst Hv] Hrest IH]; [congruence|].
  intros _ fuel json pre post acc Ej Hfuel.
  destruct fuel as [|fuel]; [lia|]. cbn [arr_loop].
  destruct Hrest as [|v' t' vals' ts' Hv' Hrest'].
  - (* the last element *)
    cbn [join] in *.
    rewrite (Hv json pre (c_rbracket :: post)) by side. cbn [bind].
    rewrite (skip_whitespace_at json (pre ++ t) post c_rbracket) by side.
    rewrite (index_at json (pre ++ t) post c_rbracket) by side.
    cbn [bind]. change (N.eqb c_rbracket c_rbracket) with true. cbv iota.
    reflexivity.
  - rewrite join_cons_nonempty in * by discriminate.
    set (more := join [c_comma] (t' :: ts')) in *.
    rewrite (Hv json pre ([c_comma] ++ more ++ c_rbracket :: post)) by side.
    cbn [bind].
    rewrite (skip_whitespace_at json (pre ++ t)
               (more ++ c_rbracket :: post) c_comma) by side.
    rewrite (index_at json (pre ++ t) (more ++ c_rbracket :: post) c_comma)
      by side.
    cbn [bind]. change (N.eqb c_comma c_rbracket) with false.
    change (N.eqb c_comma c_comma) with true. cbn [negb]. cbv iota.
    destruct Hv' as [(c' & r' & Et' & Hc') Hp'].
    assert (Em : exists m, more = c' :: m).
    { unfold more. rewrite Et'. destruct ts'; cbn; eauto. }
    destruct Em as [m Em].
    rewrite (skip_whitespace_at json (pre ++ t ++ [c_comma])
               (m ++ c_rbracket :: post) c') by (rewrite ?Em in *; side).
    replace (length pre + length t + 1)
      with (length (pre ++ t ++ [c_comma])) by side.
    rewrite (IH ltac:(discriminate) fuel json (pre ++ t ++ [c_comma]) post
               (acc ++ [v])).
    + rewrite <- app_assoc. cbn [app]. f_equal. f_equal. side.
    + side.
    + rewrite !length_app in Hfuel. cbn [length] in Hfuel. lia.
Qed.

Lemma parse_json_str_at (json pre post s : list N) :
  json = pre ++ escape_str_for_json s ++ post ->
  valid_str s = true ->
  parse_json_str json (length pre)
  = Ok (s, length pre + length (escape_str_for_json s)).
Proof. intros -> H. now apply parse_json_str_escaped. Qed.

Lemma escape_str_for_json_head (s : list N) :
  exists m, escape_str_for_json s = c_quote :: m.
Proof. rewrite escape_str_for_json_chars. cbn [app]. eauto. Qed.

Lemma keys_unique_app_cons (acc rest : list (list N)) (k : list N) :
  keys_unique (acc ++ k :: rest) = true -> has_key k acc = false.
Proof.
  induction acc as [|x acc IH]; [reflexivity|].
  cbn [app keys_unique]. intros H. apply andb_true_iff in H as [Hx H].
  apply negb_true_iff in Hx. unfold has_key in *.
  rewrite existsb_app in Hx. apply orb_false_iff in Hx as [_ Hx].
  cbn [existsb] in Hx. apply orb_false_iff in Hx as [Hx _].
  cbn [existsb]. rewrite (pystr_eqb_sym k x), Hx. cbn [orb]. now apply IH.
Qed.

Lemma dict_set_fresh (acc : list (list N * value float)) (k : list N)
    (v : value float) :
  has_key k (map fst acc) = false -> dict_set acc k v = acc ++ [(k, v)].
Proof.
  induction acc as [|[k' v'] acc IH]; [reflexivity|].
  unfold has_key. cbn [map fst existsb dict_set app]. intros H.
  apply orb_false_iff in H as [H1 H2].
  rewrite (pystr_eqb_sym k' k), H1. f_equal. now apply IH.
Qed.

Local Abbreviation member_texts :=
  (fun (d : list (list N * value float)) (ts : list (list N)) =>
     map (fun kt => member_text (fst (fst kt)) (snd kt)) (combine d ts)).

(** The loop of [parse_json_obj] on the compact text of the members. *)
Lemma obj_loop_spec (d : list (list N * value float)) (ts : list (list N)) :
  Forall2 (fun kv t =>
             valid_str (fst kv) = true /\ starts_value t
             /\ parses_at parse_value (snd kv) t) d ts ->
  d <> [] ->
  forall fuel json pre post acc c0,
    keys_unique (map fst (acc ++ d)) = true ->
    json = pre ++ join [c_comma] (member_texts d ts) ++ c_rbrace :: post ->
    length (join [c_comma] (member_texts d ts)) < fuel ->
    obj_loop parse_value fuel json (length pre) acc c0
    = Ok (acc ++ d,
          length pre + length (join [c_comma] (member_texts d ts)) + 1).
Proof.
  induction 1 as [|[k v] t d ts (Hk & Hst & Hv) Hrest IH]; [congruence|].
  intros _ fuel json pre post acc c0 Hu Ej Hfuel.
  destruct fuel as [|fuel]; [lia|]. cbn [obj_loop].
  cbn [fst snd] in Hk, Hv.
  rewrite map_app in Hu. cbn [map fst] in Hu.
  pose proof (keys_unique_app_cons _ _ _ Hu) as Hfresh.
  destruct Hst as (ct & rt & Et & Hct).
  cbn [combine map fst snd] in *. unfold member_text at 1 in Ej.
  unfold member_text at 1 in Hfuel. unfold member_text at 1.
  set (ek := escape_str_for_json k) in *.
  destruct Hrest as [|[k' v'] t' d' ts' Hv' Hrest'].
  - (* the last member *)
    cbn [combine map join] in *.
    rewrite (parse_json_str_at json pre
               ([c_colon] ++ t ++ c_rbrace :: post) k) by side.
    fold ek. cbn [bind].
    rewrite (skip_whitespace_at json (pre ++ ek)
               (t ++ c_rbrace :: post) c_colon) by side.
    rewrite (index_at json (pre ++ ek) (t ++ c_rbrace :: post) c_colon)
      by side.
    cbn [bind]. change (N.eqb c_colon c_colon) with true. cbn [negb].
    rewrite (skip_whitespace_at json (pre ++ ek ++ [c_colon])
               (rt ++ c_rbrace :: post) ct) by side.
    replace (length pre + length ek + 1)
      with (length (pre ++ ek ++ [c_colon])) by side.
    rewrite (Hv json (pre ++ ek ++ [c_colon]) (c_rbrace :: post)) by side.
    cbn [bind].
    rewrite (skip_whitespace_at json (pre ++ ek ++ [c_colon] ++ t)
               post c_rbrace) by side.
    rewrite (index_at json (pre ++ ek ++ [c_colon] ++ t) post c_rbrace)
      by side.
    cbn [bind]. change (N.eqb c_rbrace c_rbrace) with true. cbv iota.
    rewrite dict_set_fresh by assumption.
    f_equal. f_equal. side.
  - rewrite join_cons_nonempty in * by discriminate.
    set (more := join [c_comma]
                   (member_texts ((k', v') :: d') (t' :: ts'))) in *.
    rewrite (parse_json_str_at json pre
               ([c_colon] ++ t ++ [c_comma] ++ more ++ c_rbrace :: post) k)
      by side.
    fold ek. cbn [bind].
    rewrite (skip_whitespace_at json (pre ++ ek)
               (t ++ [c_comma] ++ more ++ c_rbrace :: post) c_colon) by side.
    rewrite (index_at json (pre ++ ek)
               (t ++ [c_comma] ++ more ++ c_rbrace :: post) c_colon) by side.
    cbn [bind]. change (N.eqb c_colon c_colon) with true. cbn [negb].
    rewrite (skip_whitespace_at json (pre ++ ek ++ [c_colon])
               (rt ++ [c_comma] ++ more ++ c_rbrace :: post) ct) by side.
    replace (length pre + length ek + 1)
      with (length (pre ++ ek ++ [c_colon])) by side.
    rewrite (Hv json (pre ++ ek ++ [c_colon])
               ([c_comma] ++ more ++ c_rbrace :: post)) by side.
    cbn [bind].
    rewrite (skip_whitespace_at json (pre ++ ek ++ [c_colon] ++ t)
               (more ++ c_rbrace :: post) c_comma) by side.
    rewrite (index_at json (pre ++ ek ++ [c_colon] ++ t)
               (more ++ c_rbrace :: post) c_comma) by side.
    cbn [bind]. change (N.eqb c_comma c_rbrace) with false.
    change (N.eqb c_comma c_comma) with true. cbn [negb]. cbv iota.
    assert (Em : exists m, more = c_quote :: m).
    { unfold more. cbn [combine map fst snd]. unfold member_text at 1.
      destruct (escape_str_for_json_head k') as [m ->].
      destruct (map _ (combine d' ts')); cbn; eauto. }
    destruct Em as [m Em].
    rewrite (skip_whitespace_at json (pre ++ ek ++ [c_colon] ++ t ++ [c_comma])
               (m ++ c_rbrace :: post) c_quote) by (rewrite ?Em in *; side).
    rewrite dict_set_fresh by assumption.
    replace (length (pre ++ ek ++ [c_colon]) + length t + 1)
      with (length (pre ++ ek ++ [c_colon] ++ t ++ [c_comma])) by side.
    rewrite (IH ltac:(discriminate) fuel json
               (pre ++ ek ++ [c_colon] ++ t ++ [c_comma]) post
               (acc ++ [(k, v)]) (Some c_comma)).
    + rewrite <- app_assoc. cbn [app]. f_equal. f_equal. side.
    + rewrite !map_app. cbn [map fst]. rewrite <- app_assoc. exact Hu.
    + side.
    + rewrite !length_app in Hfuel. cbn [length] in Hfuel. lia.
Qed.

End json_loops_read.

Section json_containers_read.

Variable float : Type.
Variable parse_value : list N -> nat -> result (value float * nat).

(** [parse_json_arr] on the compact text of an array. *)
Lemma parse_json_arr_spec (vals : list (value float)) (ts : list (list N))
    (fuel : nat) (json pre post : list N) :
  Forall2 (fun v t => starts_value t /\ parses_at parse_value v t) vals ts ->
  json = pre ++ [c_lbracket] ++ join [c_comma] ts ++ [c_rbracket] ++ post ->
  length (join [c_comma] ts) < fuel ->
  parse_json_arr parse_value fuel json (length pre)
  = Ok (vals, length pre + (1 + length (join [c_comma] ts) + 1)).
Proof.
  intros Hall Ej Hfuel. unfold parse_json_arr.
  rewrite (index_at json pre (join [c_comma] ts ++ [c_rbracket] ++ post)
             c_lbracket) by side.
  cbn [bind]. change (N.eqb c_lbracket c_lbracket) with true. cbn [negb].
  destruct Hall as [|v t vals ts [(c & r & Et & Hc) Hv] Hrest].
  - cbn [join app] in Ej.
    rewrite (skip_whitespace_at json (pre ++ [c_lbracket]) post c_rbracket)
      by side.
    rewrite (index_at json (pre ++ [c_lbracket]) post c_rbracket) by side.
    cbn [bind except_index_error].
    change (N.eqb c_rbracket c_rbracket) with true. cbv iota.
    cbn [join length except_index_error]. ok_pos. reflexivity.
  - assert (Em : exists m, join [c_comma] (t :: ts) = c :: m).
    { rewrite Et. destruct ts; cbn; eauto. }
    destruct Em as [m Em].
    rewrite (skip_whitespace_at json (pre ++ [c_lbracket])
               (m ++ [c_rbracket] ++ post) c) by (rewrite ?Em in *; side).
    rewrite (index_at json (pre ++ [c_lbracket])
               (m ++ [c_rbracket] ++ post) c) by (rewrite ?Em in *; side).
    cbn [bind]. rewrite (value_start_not_rbracket c Hc).
    replace (length pre + 1) with (length (pre ++ [c_lbracket])) by side.
    rewrite (arr_loop_spec float parse_value (v :: vals) (t :: ts))
      with (post := post).
    + cbn [except_index_error app]. ok_pos. reflexivity.
    + constructor; [split; [exists c, r; auto|exact Hv]|exact Hrest].
    + discriminate.
    + side.
    + exact Hfuel.
Qed.

(** [parse_json_obj] on the compact text of an object. *)
Lemma parse_json_obj_spec (d : list (list N * value float))
    (ts : list (list N)) (fuel : nat) (json pre post : list N) :
  Forall2 (fun kv t =>
             valid_str (fst kv) = true /\ starts_value t
             /\ parses_at parse_value (snd kv) t) d ts ->
  keys_unique (map fst d) = true ->
  let body :=
    join [c_comma]
      (map (fun kt => member_text (fst (fst kt)) (snd kt)) (combine d ts)) in
  json = pre ++ [c_lbrace] ++ body ++ [c_rbrace] ++ post ->
  length body < fuel ->
  parse_json_obj parse_value fuel json (length pre)
  = Ok (d, length pre + (1 + length body + 1)).
Proof.
  intros Hall Hu body Ej Hfuel. unfold parse_json_obj.
  rewrite (index_at json pre (body ++ [c_rbrace] ++ post) c_lbrace) by side.
  cbn [bind]. change (N.eqb c_lbrace c_lbrace) with true. cbn [negb].
  destruct Hall as [|[k v] t d ts Hkv Hrest].
  - cbn [combine map join app] in *. subst body. cbn [app] in Ej.
    rewrite (skip_whitespace_at json (pre ++ [c_lbrace]) post c_rbrace)
      by side.
    rewrite (index_at json (pre ++ [c_lbrace]) post c_rbrace) by side.
    cbn [bind except_index_error].
    change (N.eqb c_rbrace c_rbrace) with true. cbv iota.
    cbn [length except_index_error]. ok_pos. reflexivity.
  - assert (Em : exists m, body = c_quote :: m).
    { subst body. cbn [combine map fst snd]. unfold member_text at 1.
      destruct (escape_str_for_json_head k) as [m ->].
      destruct (map _ (combine d ts)); cbn; eauto. }
    destruct Em as [m Em].
    rewrite (skip_whitespace_at json (pre ++ [c_lbrace])
               (m ++ [c_rbrace] ++ post) c_quote)
      by (rewrite ?Em in *; side).
    rewrite (index_at json (pre ++ [c_lbrace])
               (m ++ [c_rbrace] ++ post) c_quote)
      by (rewrite ?Em in *; side).
    cbn [bind]. change (N.eqb c_quote c_rbrace) with false. cbv iota.
    replace (length pre + 1) with (length (pre ++ [c_lbrace])) by side.
    rewrite (obj_loop_spec float parse_value ((k, v) :: d) (t :: ts))
      with (post := post).
    + cbn [except_index_error app]. fold body. ok_pos. reflexivity.
    + constructor; assumption.
    + discriminate.
    + exact Hu.
    + fold body. side.
    + exact Hfuel.
Qed.

End json_containers_read.

(** ** json_lib: serialising and parsing back (C2) *)

Ltac eval_eqb :=
  repeat match goal with
         | |- context [N.eqb ?a ?b] =>
             let r := eval vm_compute in (N.eqb a b) in
             match r with
             | true => change (N.eqb a b) with true
             | false => change (N.eqb a b) with false
             end
         end;
  cbn [orb andb negb]; cbv iota.

Ltac base_step json pre rest c :=
  cbn [parse_json_base];
  rewrite (skip_whitespace_at json pre rest c) by side;
  replace (length json <=? length pre) with false
    by (symmetry; apply Nat.leb_gt; subst; rewrite !length_app;
        cbn [length]; lia);
  rewrite (index_at json pre rest c) by side;
  cbn [bind].

Section value_induction.

Variable float : Type.
Variable P : value float -> Prop.

Hypothesis P_none : P VNone.
Hypothesis P_bool : forall b, P (VBool b).
Hypothesis P_int : forall n, P (VInt n).
Hypothesis P_float : forall x, P (VFloat x).
Hypothesis P_str : forall s, P (VStr s).
Hypothesis P_list : forall l, Forall P l -> P (VList l).
Hypothesis P_dict : forall d, Forall (fun kv => P (snd kv)) d -> P (VDict d).
Hypothesis P_other : P VOther.

Fixpoint value_ind' (v : value float) : P v :=
  match v with
  | VNone => P_none
  | VBool b => P_bool b
  | VInt n => P_int n
  | VFloat x => P_float x
  | VStr s => P_str s
  | VList l =>
      P_list l
        ((fix all (l : list (value float)) : Forall P l :=
            match l with
            | [] => Forall_nil P
            | v :: l' => Forall_cons v (value_ind' v) (all l')
            end) l)
  | VDict d =>
      P_dict d
        ((fix all (d : list (list N * value float))
            : Forall (fun kv => P (snd kv)) d :=
            match d with
            | [] => Forall_nil _
            | kv :: d' =>
                Forall_cons kv (value_ind' (snd kv)) (all d')
            end) d)
  | VOther => P_other
  end.

End value_induction.

Section json_dispatch.

Variable float : Type.
Variable float_of_str : list N -> float.

Local Abbreviation base := (parse_json_base float_of_str).

Lemma base_null (fuel : nat) (json pre rest : list N) :
  json = pre ++ c_n :: rest ->
  base (S fuel) json (length pre) = parse_json_null json (length pre).
Proof. intros E. base_step json pre rest c_n. eval_eqb. reflexivity. Qed.

Lemma base_boolean (fuel : nat) (json pre rest : list N) (c : N) :
  json = pre ++ c :: rest -> c = c_t \/ c = c_f ->
  base (S fuel) json (length pre)
  = ('(b, i) <- parse_json_boolean json (length pre) ;; Ok (VBool b, i)).
Proof.
  intros E [-> | ->].
  - base_step json pre rest c_t. eval_eqb. reflexivity.
  - base_step json pre rest c_f. eval_eqb. reflexivity.
Qed.

Lemma base_str (fuel : nat) (json pre rest : list N) :
  json = pre ++ c_quote :: rest ->
  base (S fuel) json (length pre)
  = ('(s, i) <- parse_json_str json (length pre) ;; Ok (VStr s, i)).
Proof. intros E. base_step json pre rest c_quote. eval_eqb. reflexivity. Qed.

Lemma base_arr (fuel : nat) (json pre rest : list N) :
  json = pre ++ c_lbracket :: rest ->
  base (S fuel) json (length pre)
  = ('(arr, i) <- parse_json_arr (base fuel) fuel json (length pre) ;;
     Ok (VList arr, i)).
Proof.
  intros E. base_step json pre rest c_lbracket. eval_eqb. reflexivity.
Qed.

Lemma base_obj (fuel : nat) (json pre rest : list N) :
  json = pre ++ c_lbrace :: rest ->
  base (S fuel) json (length pre)
  = ('(obj, i) <- parse_json_obj (base fuel) fuel json (length pre) ;;
     Ok (VDict obj, i)).
Proof.
  intros E. base_step json pre rest c_lbrace. eval_eqb. reflexivity.
Qed.

Lemma base_number (fuel : nat) (json pre rest : list N) (c : N) :
  json = pre ++ c :: rest -> is_digit c = true \/ c = c_minus ->
  base (S fuel) json (length pre)
  = ('(x, i) <- parse_json_number float_of_str json (length pre) ;;
     Ok (VFloat x, i)).
Proof.
  intros E [H | ->].
  - apply digit_cases in H.
    repeat (destruct H as [-> | H];
            [match type of E with
             | _ = _ ++ ?d :: _ => base_step json pre rest d
             end; eval_eqb; reflexivity|]).
    subst c. base_step json pre rest 57%N. eval_eqb. reflexivity.
  - base_step json pre rest c_minus. eval_eqb. reflexivity.
Qed.

Lemma number_start_value (c : N) :
  is_digit c = true \/ c = c_minus -> value_start c = true.
Proof.
  intros [H | ->]; [|reflexivity].
  apply digit_cases in H.
  repeat (destruct H as [-> | H]; [reflexivity|]). now subst.
Qed.

End json_dispatch.

Section json_round_trip.

Variable float : Type.
Variable float_of_str : list N -> float.
Variable str_of_float : float -> list N.
Variable isfinite : float -> bool.
Variable float_of_int : Z -> float.

Hypothesis python_float :
  float_contract float float_of_str str_of_float isfinite float_of_int.

Local Abbreviation base := (parse_json_base float_of_str).
Local Abbreviation text_of :=
  (fun v => to_json_str str_of_float isfinite v None).
Local Abbreviation round_trips :=
  (round_trips float_of_str str_of_float isfinite float_of_int).
Local Abbreviation floated := (as_floats float_of_int).

(** The text of a finite float is a token that denotes the float. *)
Lemma float_text (x : float) :
  isfinite x = true ->
  number_token_ok (chop_dot_zero (str_of_float x)) = true
  /\ float_of_str (chop_dot_zero (str_of_float x)) = x.
Proof.
  intros Hx.
  pose proof (repr_is_token python_float x Hx) as Htok.
  pose proof (float_of_repr python_float x Hx) as Hrt.
  destruct (chop_dot_zero_token _ Htok) as [E | (E & Hint & Hok)].
  - rewrite E. now split.
  - split; [exact Hok|].
    rewrite <- (float_of_int_dot_zero python_float _ Hint).
    now rewrite <- E.
Qed.

Lemma join_length_cons (sep x : list N) (l : list (list N)) :
  length x <= length (join sep (x :: l))
  /\ length (join sep l) <= length (join sep (x :: l)).
Proof.
  destruct l as [|y l]; cbn [join length]; [lia|].
  rewrite !length_app. lia.
Qed.

Lemma round_trip_null : round_trips VNone (str "null").
Proof.
  split; [reflexivity|]. split; [exists c_n, (str "ull"); now split|].
  intros fuel Hf json pre post Ej _. cbn [as_floats].
  destruct fuel as [|fuel]; [cbn in Hf; lia|].
  rewrite (base_null float float_of_str fuel json pre (str "ull" ++ post))
    by side.
  unfold parse_json_null. rewrite Ej, skipn_app_length.
  reflexivity.
Qed.

Lemma round_trip_bool (b : bool) :
  round_trips (VBool b) (if b then str "true" else str "false").
Proof.
  split; [reflexivity|]. split.
  { destruct b; [exists c_t, (str "rue")|exists c_f, (str "alse")];
      now split. }
  intros fuel Hf json pre post Ej _. cbn [as_floats].
  destruct fuel as [|fuel]; [destruct b; cbn in Hf; lia|].
  destruct b.
  - rewrite (base_boolean float float_of_str fuel json pre
               (str "rue" ++ post) c_t) by (auto; side).
    unfold parse_json_boolean, slice. rewrite Ej, skipn_app_length.
    replace (length pre + 4 - length pre) with 4 by lia.
    reflexivity.
  - rewrite (base_boolean float float_of_str fuel json pre
               (str "alse" ++ post) c_f) by (auto; side).
    unfold parse_json_boolean, slice. rewrite Ej, skipn_app_length.
    replace (length pre + 4 - length pre) with 4 by lia.
    reflexivity.
Qed.

(** A number token is read back as the float that it denotes. *)
Lemma number_token_parses (tok : list N) (fuel : nat) :
  number_token_ok tok = true ->
  starts_value tok
  /\ parses_at (base (S fuel)) (VFloat (float_of_str tok)) tok.
Proof.
  intros Htok.
  destruct (number_token_start tok Htok) as (c & s' & Et & Hc).
  split; [exists c, s'; split; [exact Et|now apply number_start_value]|].
  intros json pre post Ej Hpost.
  rewrite (base_number float float_of_str fuel json pre (s' ++ post) c)
    by (auto; rewrite Et in Ej; side).
  assert (Hn : number_token json (length pre) = tok).
  { rewrite Ej. apply number_token_app; [|exact Hpost].
    now apply number_token_chars. }
  destruct (parse_json_number_spec float float_of_str json (length pre))
    as [Hok _].
  { rewrite Ej, length_app. lia. }
  rewrite Hn in Hok. now rewrite (Hok Htok).
Qed.

Lemma token_nonempty (tok : list N) :
  number_token_ok tok = true -> 1 <= length tok.
Proof. destruct tok; [discriminate|cbn; lia]. Qed.

Lemma round_trip_float (x : float) :
  isfinite x = true ->
  round_trips (VFloat x) (chop_dot_zero (str_of_float x)).
Proof.
  intros Hx. destruct (float_text x Hx) as [Htok Hval].
  split; [cbn [to_json_str]; now rewrite Hx|].
  split; [apply (number_token_parses _ 0 Htok)|].
  intros fuel Hf. cbn [as_floats].
  pose proof (token_nonempty _ Htok).
  destruct fuel as [|fuel]; [lia|].
  rewrite <- Hval at 1. now apply number_token_parses.
Qed.

Lemma round_trip_int (n : Z) :
  Z.ltb (Z.abs n) (2 ^ 1024 - 2 ^ 970) = true ->
  round_trips (VInt n) (str_of_int n).
Proof.
  intros Hn. destruct (str_of_int_token n) as [Htok Hchop].
  split.
  { cbn [to_json_str]. unfold int_isfinite.
    replace (Z.leb (2 ^ 1024 - 2 ^ 970) (Z.abs n)) with false
      by (symmetry; apply Z.leb_gt; now apply Z.ltb_lt).
    cbn [bind negb]. now rewrite Hchop. }
  split; [apply (number_token_parses _ 0 Htok)|].
  intros fuel Hf. cbn [as_floats].
  pose proof (token_nonempty _ Htok).
  destruct fuel as [|fuel]; [lia|].
  rewrite <- (float_of_int_digits python_float n).
  now apply number_token_parses.
Qed.

Lemma round_trip_str (s : list N) :
  valid_str s = true -> round_trips (VStr s) (escape_str_for_json s).
Proof.
  intros Hs. split; [reflexivity|].
  destruct (escape_str_for_json_head s) as [m Em].
  split; [exists c_quote, m; now split|].
  intros fuel Hf json pre post Ej _. cbn [as_floats].
  destruct fuel as [|fuel]; [rewrite Em in Hf; cbn in Hf; lia|].
  rewrite (base_str float float_of_str fuel json pre (m ++ post))
    by (rewrite Em in Ej; side).
  rewrite (parse_json_str_at json pre post s) by assumption.
  reflexivity.
Qed.

Lemma texts_of_round_trips (l : list (value float)) (ts : list (list N)) :
  Forall2 round_trips l ts -> Forall2 (fun v t => text_of v = Ok t) l ts.
Proof.
  induction 1 as [|v t l ts H _ IH]; constructor; [apply H|exact IH].
Qed.

(** The elements of an array, with fuel for the whole array. *)
Lemma elements_parse (l : list (value float)) (ts : list (list N)) :
  Forall2 round_trips l ts ->
  forall fuel,
    length (join [c_comma] ts) <= fuel ->
    Forall2 (fun v t => starts_value t /\ parses_at (base fuel) v t)
      (map floated l) ts.
Proof.
  induction 1 as [|v t l ts (_ & Hst & Hp) _ IH]; intros fuel Hf;
    cbn [map]; constructor.
  - split; [exact Hst|]. apply Hp.
    pose proof (join_length_cons [c_comma] t ts). lia.
  - apply IH. pose proof (join_length_cons [c_comma] t ts). lia.
Qed.

Lemma round_trip_list (l : list (value float)) (ts : list (list N)) :
  Forall2 round_trips l ts ->
  round_trips (VList l)
    ([c_lbracket] ++ join [c_comma] ts ++ [c_rbracket]).
Proof.
  intros Hall. split; [|split].
  - cbn [to_json_str].
    destruct Hall as [|v t l ts Hv Hrest]; [reflexivity|].
    change (length (v :: l) =? 0) with false. cbv iota.
    rewrite (elements_loop_none float text_of (v :: l) (t :: ts)).
    + cbn [bind]. rewrite !concat_app, concat_comma_sep. cbn [concat app].
      rewrite ?app_nil_r. reflexivity.
    + apply texts_of_round_trips. now constructor.
  - exists c_lbracket, (join [c_comma] ts ++ [c_rbracket]). now split.
  - intros fuel Hf json pre post Ej _. cbn [as_floats].
    rewrite !length_app in Hf. cbn [length] in Hf.
    destruct fuel as [|fuel]; [lia|].
    rewrite (base_arr float float_of_str fuel json pre
               (join [c_comma] ts ++ [c_rbracket] ++ post)) by side.
    rewrite (parse_json_arr_spec float (base fuel) (map floated l) ts
               fuel json pre post).
    + cbn [bind]. ok_pos. reflexivity.
    + apply elements_parse; [exact Hall|lia].
    + side.
    + lia.
Qed.

Local Abbreviation member_texts :=
  (fun (d : list (list N * value float)) (ts : list (list N)) =>
     map (fun kt => member_text (fst (fst kt)) (snd kt)) (combine d ts)).

Local Abbreviation members_as_floats :=
  (map (fun kv : list N * value float => (fst kv, floated (snd kv)))).

Lemma member_texts_as_floats (d : list (list N * value float)) :
  forall ts, member_texts (members_as_floats d) ts = member_texts d ts.
Proof.
  induction d as [|kv d IH]; intros [|t ts]; cbn [map combine fst snd];
    try reflexivity.
  now rewrite IH.
Qed.

Lemma members_parse (d : list (list N * value float)) (ts : list (list N)) :
  Forall2 (fun kv t => valid_str (fst kv) = true /\ round_trips (snd kv) t)
    d ts ->
  forall fuel,
    length (join [c_comma] (member_texts d ts)) <= fuel ->
    Forall2 (fun kv t =>
               valid_str (fst kv) = true /\ starts_value t
               /\ parses_at (base fuel) (snd kv) t)
      (members_as_floats d) ts.
Proof.
  induction 1 as [|[k v] t d ts (Hk & _ & Hst & Hp) _ IH]; intros fuel Hf;
    cbn [map]; constructor.
  - split; [exact Hk|]. split; [exact Hst|]. apply Hp.
    cbn [combine map fst snd] in Hf.
    pose proof (join_length_cons [c_comma] (member_text k t)
                  (member_texts d ts)) as [H1 _].
    unfold member_text in H1 at 1. rewrite !length_app in H1.
    cbn [snd]. lia.
  - apply IH. cbn [combine map fst snd] in Hf.
    pose proof (join_length_cons [c_comma] (member_text k t)
                  (member_texts d ts)). lia.
Qed.

Lemma member_texts_of_round_trips (d : list (list N * value float))
    (ts : list (list N)) :
  Forall2 (fun kv t => valid_str (fst kv) = true /\ round_trips (snd kv) t)
    d ts ->
  Forall2 (fun kv t => text_of (snd kv) = Ok t) d ts.
Proof.
  induction 1 as [|kv t d ts [_ H] _ IH]; constructor; [apply H|exact IH].
Qed.

Lemma round_trip_dict (d : list (list N * value float))
    (ts : list (list N)) :
  Forall2 (fun kv t => valid_str (fst kv) = true /\ round_trips (snd kv) t)
    d ts ->
  keys_unique (map fst d) = true ->
  round_trips (VDict d)
    ([c_lbrace] ++ join [c_comma] (member_texts d ts) ++ [c_rbrace]).
Proof.
  intros Hall Hu. split; [|split].
  - cbn [to_json_str].
    destruct Hall as [|kv t d ts Hv Hrest]; [reflexivity|].
    change (length (kv :: d) =? 0) with false. cbv iota.
    destruct (members_loop_none float text_of (kv :: d) (t :: ts))
      with (is_first := true) (acc := [[c_lbrace]]) as (strs & E & Hc).
    + apply member_texts_of_round_trips. now constructor.
    + rewrite E. cbn [bind]. rewrite concat_app, Hc, concat_comma_sep.
      cbn [concat app]. rewrite ?app_nil_r. reflexivity.
  - exists c_lbrace, (join [c_comma] (member_texts d ts) ++ [c_rbrace]).
    now split.
  - intros fuel Hf json pre post Ej _. cbn [as_floats].
    rewrite !length_app in Hf. cbn [length] in Hf.
    destruct fuel as [|fuel]; [lia|].
    rewrite (base_obj float float_of_str fuel json pre
               (join [c_comma] (member_texts d ts) ++ [c_rbrace] ++ post))
      by side.
    rewrite (parse_json_obj_spec float (base fuel) (members_as_floats d) ts
               fuel json pre post).
    + cbn [bind]. rewrite member_texts_as_floats. ok_pos. reflexivity.
    + apply members_parse; [exact Hall|lia].
    + now rewrite map_map.
    + rewrite member_texts_as_floats. side.
    + rewrite member_texts_as_floats. lia.
Qed.

(** Every supported value has a compact text that is read back as the
    value, with its integers as floats. *)
Lemma round_trip_value (v : value float) :
  supported isfinite v = true -> exists t, round_trips v t.
Proof.
  induction v as [| b | n | x | s | l IH | d IH |] using value_ind';
    cbn [supported]; intros H; try discriminate.
  - eexists. apply round_trip_null.
  - eexists. apply round_trip_bool.
  - eexists. now apply round_trip_int.
  - eexists. now apply round_trip_float.
  - eexists. now apply round_trip_str.
  - assert (Hts : exists ts, Forall2 round_trips l ts).
    { induction IH as [|v l Hv _ IHl]; [exists []; constructor|].
      cbn [forallb] in H. apply andb_true_iff in H as [H1 H2].
      destruct (Hv H1) as [t Ht]. destruct (IHl H2) as [ts Hts].
      exists (t :: ts). now constructor. }
    destruct Hts as [ts Hts]. eexists. apply (round_trip_list l ts Hts).
  - apply andb_true_iff in H as [Hu H].
    assert (Hts : exists ts,
               Forall2 (fun kv t => valid_str (fst kv) = true
                                    /\ round_trips (snd kv) t) d ts).
    { clear Hu. induction IH as [|kv d Hv _ IHd]; [exists []; constructor|].
      cbn [forallb] in H. apply andb_true_iff in H as [H1 H2].
      apply andb_true_iff in H1 as [Hk H1].
      destruct (Hv H1) as [t Ht]. destruct (IHd H2) as [ts Hts].
      exists (t :: ts). now constructor. }
    destruct Hts as [ts Hts]. eexists. apply (round_trip_dict d ts Hts Hu).
Qed.

(** A value without integers is its own float form. *)
Lemma as_floats_id (v : value float) :
  has_int v = false -> floated v = v.
Proof.
  induction v as [| b | n | x | s | l IH | d IH |] using value_ind';
    cbn [has_int as_floats]; intros H; try reflexivity;
    try discriminate.
  - f_equal. induction IH as [|v l Hv _ IHl]; [reflexivity|].
    cbn [existsb] in H. apply orb_false_iff in H as [H1 H2].
    cbn [map]. now rewrite Hv, IHl.
  - f_equal. induction IH as [|[k v] d Hv _ IHd]; [reflexivity|].
    cbn [existsb snd] in H. apply orb_false_iff in H as [H1 H2].
    cbn [map fst snd]. cbn [snd] in Hv. now rewrite Hv, IHd.
Qed.

(** C2: for every value of the supported kinds (null, booleans, finite
    numbers, strings, arrays, objects with distinct string keys), [to_json]
    without indentation returns a text, and [parse_json] of this text
    returns the value, with each integer as the float of that integer.  A
    value whose numbers are floats comes back as it is: a float that prints
    with a final [.0] is written without it and read back as the same
    float. *)
Theorem C2_json_round_trip (v : value float) :
  supported isfinite v = true ->
  exists text,
    to_json str_of_float isfinite v None = Ok text
    /\ parse_json float_of_str text = Ok (as_floats float_of_int v)
    /\ (has_int v = false -> parse_json float_of_str text = Ok v).
Proof.
  intros H. destruct (round_trip_value v H) as (t & Ht & _ & Hp).
  exists t. split; [exact Ht|].
  assert (E : parse_json float_of_str t = Ok (floated v)).
  { unfold parse_json.
    assert (E : parse_json_base float_of_str (S (length t)) t 0
                = Ok (floated v, length t)).
    { apply (Hp (S (length t)) ltac:(lia) t [] []);
        [now rewrite app_nil_r|reflexivity]. }
    rewrite E. cbn [bind].
    rewrite skip_whitespace_at_end by reflexivity.
    now rewrite Nat.ltb_irrefl. }
  split; [exact E|].
  intros Hi. rewrite E. f_equal. now apply as_floats_id.
Qed.

End json_round_trip.

Lemma two_floats_contract :
  float_contract two_floats.float two_floats.float_of_str
    two_floats.str_of_float two_floats.isfinite two_floats.float_of_int.
Proof.
  constructor.
  - intros [] _; reflexivity.
  - intros [] _; reflexivity.
  - intros [|c s] H; [discriminate|reflexivity].
  - reflexivity.
Qed.

(** The object with [k] mapped to the array of 1.0, 0.5, 7, null, false
    and a string, and the empty key mapped to the empty object; the string
    holds a quote, a line feed, the control character 1 and a surrogate. *)
Lemma C2_json_round_trip_witness :
  exists text,
    to_json two_floats.str_of_float two_floats.isfinite
      (VDict
         [(str "k",
           VList [VFloat true; VFloat false; VInt 7; VNone; VBool false;
                  VStr ([97; c_quote; c_newline; 1; 55357] ++ str "/b")%N]);
          ([], VDict [])])
      None
    = Ok text
    /\ parse_json two_floats.float_of_str text
       = Ok (VDict
               [(str "k",
                 VList [VFloat true; VFloat false;
                        VFloat (two_floats.float_of_int 7); VNone;
                        VBool false;
                        VStr ([97; c_quote; c_newline; 1; 55357]
                                ++ str "/b")%N]);
                ([], VDict [])]).
Proof.
  destruct (C2_json_round_trip two_floats.float two_floats.float_of_str
              two_floats.str_of_float two_floats.isfinite
              two_floats.float_of_int two_floats_contract
              (VDict
                 [(str "k",
                   VList [VFloat true; VFloat false; VInt 7; VNone;
                          VBool false;
                          VStr ([97; c_quote; c_newline; 1; 55357]
                                  ++ str "/b")%N]);
                  ([], VDict [])])
              eq_refl) as (text & Ht & Hp & _).
  exists text. split; [exact Ht|exact Hp].
Defined.

(** * Further properties of csv_lib *)

(** ** Splitting a text on a separator *)

Section split_facts.

Variable sep : N.

Lemma split_on_cons (s : list N) : exists p ps, split_on sep s = p :: ps.
Proof.
  induction s as [|x s (p & ps & E)]; cbn [split_on]; [eauto|].
  destruct (N.eqb x sep); [eauto|]. rewrite E. eauto.
Qed.

Lemma split_on_nonempty (s : list N) : split_on sep s <> [].
Proof. destruct (split_on_cons s) as (p & ps & ->). discriminate. Qed.

(** No piece holds the separator. *)
Lemma split_on_pieces (s : list N) :
  Forall (fun p => forallb (fun c => negb (N.eqb c sep)) p = true)
    (split_on sep s).
Proof.
  induction s as [|x s IH]; cbn [split_on]; [now repeat constructor|].
  destruct (N.eqb x sep) eqn:E; [now constructor|].
  destruct (split_on sep s) as [|p ps]; [now repeat constructor; cbn; rewrite E|].
  inversion IH as [|? ? Hp Hps]; subst. constructor; [|exact Hps].
  cbn [forallb]. now rewrite E, Hp.
Qed.

(** What holds of every character holds of every character of a piece. *)
Lemma split_on_keeps (P : N -> bool) (s : list N) :
  forallb P s = true ->
  Forall (fun p => forallb P p = true) (split_on sep s).
Proof.
  induction s as [|x s IH]; cbn [split_on forallb]; intros H;
    [now repeat constructor|].
  apply andb_true_iff in H as [Hx H]. specialize (IH H).
  destruct (N.eqb x sep); [now constructor|].
  destruct (split_on sep s) as [|p ps];
    [now repeat constructor; cbn; rewrite Hx|].
  inversion IH as [|? ? Hp Hps]; subst. constructor; [|exact Hps].
  cbn [forallb]. now rewrite Hx, Hp.
Qed.

(** Joining the pieces with the separator gives the text back. *)
Lemma join_split_on (s : list N) : join [sep] (split_on sep s) = s.
Proof.
  induction s as [|x s IH]; [reflexivity|]. cbn [split_on].
  destruct (split_on_cons s) as (p & ps & E). rewrite E in *.
  destruct (N.eqb_spec x sep) as [->|Hne];
    destruct ps as [|p' ps]; cbn [join app] in *; now rewrite IH.
Qed.

(** The pieces before the last one, each with the separator that ends it,
    and the last piece make up the text. *)
Lemma split_on_last (s : list N) :
  exists init lastp,
    split_on sep s = init ++ [lastp]
    /\ s = concat (map (fun l => l ++ [sep]) init) ++ lastp.
Proof.
  induction s as [|x s (init & lastp & E & Hs)]; cbn [split_on].
  - exists [], []. now split.
  - destruct (N.eqb_spec x sep) as [->|Hne].
    + exists ([] :: init), lastp. rewrite E. split; [reflexivity|].
      cbn [map concat app]. now rewrite <- Hs.
    + rewrite E. destruct init as [|p init]; cbn [app].
      * exists [], (x :: lastp). split; [reflexivity|].
        cbn [map concat app] in *. now rewrite <- Hs.
      * exists ((x :: p) :: init), lastp. split; [reflexivity|].
        cbn [map concat app] in *. now rewrite <- Hs.
Qed.

Lemma join_terminated (init : list (list N)) (l : list N) :
  join [sep] (init ++ [l]) = concat (map (fun l => l ++ [sep]) init) ++ l.
Proof.
  induction init as [|p init IH]; [reflexivity|].
  cbn [app map concat].
  destruct (init ++ [l]) as [|y r] eqn:E; [now destruct init|].
  change (join [sep] (p :: y :: r)) with (p ++ [sep] ++ join [sep] (y :: r)).
  rewrite IH. now rewrite <- !app_assoc.
Qed.

End split_facts.

Lemma endswith_single_true (s : list N) (q : N) :
  endswith s [q] = true -> exists s', s = s' ++ [q].
Proof.
  destruct s as [|y s' _] using rev_ind; [discriminate|].
  intros H. exists s'. unfold endswith in H.
  rewrite length_app in H. cbn [length] in H.
  replace (length s' + 1 - 1) with (length s') in H by lia.
  rewrite skipn_app_length, pystr_eqb_single in H.
  apply andb_true_iff in H as [_ H]. apply N.eqb_eq in H. now subst.
Qed.

Lemma endswith_without (s : list N) (q : N) :
  forallb (fun c => negb (N.eqb c q)) s = true -> endswith s [q] = false.
Proof.
  intros H. destruct (endswith s [q]) eqn:E; [|reflexivity].
  apply endswith_single_true in E as [s' ->].
  rewrite forallb_app in H. apply andb_true_iff in H as [_ H].
  cbn in H. now rewrite N.eqb_refl in H.
Qed.

(** ** csv_lib: texts without quotes *)

Section csv_quote_free.

Import csv_lib.

Local Abbreviation no_newline :=
  (forallb (fun c => negb (N.eqb c c_newline))).

Lemma plain_cells (l : list N) :
  quote_free l = true -> no_newline l = true ->
  Forall (fun cell => forallb plain_char cell = true) (split_on c_comma l).
Proof.
  intros Hq Hn.
  pose proof (split_on_keeps c_comma _ l Hq) as H1.
  pose proof (split_on_keeps c_comma _ l Hn) as H2.
  pose proof (split_on_pieces c_comma l) as H3.
  rewrite Forall_forall in *. intros cell Hin.
  specialize (H1 cell Hin). specialize (H2 cell Hin).
  specialize (H3 cell Hin). cbv beta in *.
  rewrite forallb_forall in *. intros c Hc. unfold plain_char.
  now rewrite (H1 c Hc), (H2 c Hc), (H3 c Hc).
Qed.

Lemma plain_quote_free_ends (cell : list N) :
  forallb plain_char cell = true -> quote_free_ends cell = true.
Proof.
  intros H. unfold quote_free_ends.
  assert (Hq : forallb (fun c => negb (N.eqb c c_quote)) cell = true).
  { rewrite forallb_forall in *. intros c Hc.
    now destruct (plain_char_inv c (H c Hc)) as (-> & _). }
  rewrite (endswith_without cell c_quote Hq).
  destruct cell as [|x cell]; [reflexivity|].
  cbn [forallb] in Hq. apply andb_true_iff in Hq as [Hx _].
  cbn [startswith]. now rewrite (andb_true_r (N.eqb x c_quote)), Hx.
Qed.

Lemma ser_cells_plain (cells : list (list N)) :
  Forall (fun cell => forallb plain_char cell = true) cells ->
  map ser_cell cells = cells
  /\ forallb quote_free_ends cells = true.
Proof.
  induction 1 as [|cell cells Hc _ [IH1 IH2]]; [now split|].
  cbn [map forallb].
  now rewrite (@ser_cell_plain cell Hc), IH1, IH2, plain_quote_free_ends.
Qed.

(** A line without quotes is the serialisation of its cells. *)
Lemma ser_row_line (l : list N) :
  quote_free l = true -> no_newline l = true ->
  ser_row (split_on c_comma l) = l
  /\ forallb quote_free_ends (split_on c_comma l) = true.
Proof.
  intros Hq Hn.
  destruct (ser_cells_plain _ (plain_cells l Hq Hn)) as [E1 E2].
  split; [|exact E2]. unfold ser_row. rewrite E1. apply join_split_on.
Qed.

Lemma ser_rows_lines (ls : list (list N)) :
  Forall (fun l => quote_free l = true /\ no_newline l = true) ls ->
  ser_rows (map (split_on c_comma) ls)
  = concat (map (fun l => l ++ [c_newline]) ls)
  /\ forallb (forallb quote_free_ends) (map (split_on c_comma) ls) = true.
Proof.
  induction 1 as [|l ls [Hq Hn] _ [IH1 IH2]]; [now split|].
  destruct (ser_row_line l Hq Hn) as [E1 E2].
  unfold ser_rows in *. cbn [map concat forallb].
  now rewrite E1, E2, IH1, IH2.
Qed.

(** The pieces of a text without quotes. *)
Lemma lines_quote_free (text : list N) :
  quote_free text = true ->
  Forall (fun l => quote_free l = true /\ no_newline l = true)
    (split_on c_newline text).
Proof.
  intros Hq.
  pose proof (split_on_keeps c_newline _ text Hq) as H1.
  pose proof (split_on_pieces c_newline text) as H2.
  rewrite Forall_forall in *. intros l Hin. split; auto.
Qed.

Lemma terminated_end (ls : list (list N)) (c : N) :
  c <> c_newline ->
  endswith (concat (map (fun l => l ++ [c_newline]) ls)) [c] = false.
Proof.
  intros Hc.
  destruct (endswith _ [c]) eqn:E; [|reflexivity].
  apply endswith_single_true in E as [s' E].
  destruct ls as [|l ls _] using rev_ind; [now destruct s'|].
  rewrite map_app, concat_app in E. cbn [map concat] in E.
  rewrite app_nil_r, !app_assoc in E.
  apply app_inj_tail in E as [_ E]. congruence.
Qed.

Lemma parse_csv_quote_free (text : list N) :
  quote_free text = true ->
  parse_csv text None None None = Ok (rows_of_text text).
Proof.
  intros Hq.
  destruct (split_on_last c_newline text) as (ls & lastp & E & Ht).
  pose proof (lines_quote_free text Hq) as Hls. rewrite E in Hls.
  apply Forall_app in Hls as [Hls0 Hlast].
  apply Forall_inv in Hlast as [Hlq Hln].
  destruct (ser_rows_lines ls Hls0) as [Hser Hgood].
  destruct (ser_row_line lastp Hlq Hln) as [Hrow Hrgood].
  unfold rows_of_text, lines_of. rewrite E, last_last, removelast_last.
  unfold parse_csv, parse_csv_with.
  change (scan ?csv [c_quote] [c_comma] [c_newline] ?csv 0 csv_lib.init)
    with (csv_run [] csv csv_lib.init).
  rewrite Ht at 1. rewrite <- Hser.
  assert (Hne : Forall (fun row : list (list N) => row <> [])
                  (map (split_on c_comma) ls)).
  { rewrite Forall_forall. intros row Hin. apply in_map_iff in Hin
      as (l & <- & _). apply split_on_nonempty. }
  destruct (@csv_run_rows (map (split_on c_comma) ls) Hne Hgood
              [] lastp [] 0) as [s1 E1].
  unfold csv_lib.init. rewrite E1. cbn [app].
  destruct (length lastp =? 0) eqn:Hlen.
  - assert (lastp = []) as -> by (destruct lastp; [reflexivity|discriminate]).
    rewrite csv_run_nil. cbn [bind]. unfold finish.
    cbn [cell_is_quoted out_of_cell negb current_row lines].
    rewrite Ht, app_nil_r, terminated_end by (cbv; discriminate).
    reflexivity.
  - rewrite map_app. cbn [map].
    destruct (@csv_run_row_end (split_on c_comma lastp)
                (split_on_nonempty _ _) Hrgood
                (ser_rows (map (split_on c_comma) ls))
                (map (split_on c_comma) ls) [] s1) as (st & E2 & F2).
    { intros Hb. rewrite Hb in Hrow. cbn in Hrow. subst lastp.
      discriminate. }
    rewrite Hrow in E2, F2. rewrite E2. cbn [bind].
    rewrite Ht, <- Hser. exact F2.
Qed.

(** X1: on a text without double quotes [parse_csv] (default delimiters)
    does not raise: it returns the lines of the text, each split on the
    comma; a final line feed starts no row, and the empty text has none. *)
Theorem X1_csv_quote_free_rows (text : list N) :
  quote_free text = true ->
  parse_csv text None None None = Ok (rows_of_text text).
Proof. exact (parse_csv_quote_free text). Qed.

Lemma X1_csv_quote_free_rows_witness :
  parse_csv (str "a,,b" ++ [c_newline; c_newline] ++ str "c,"
               ++ [c_newline])
    None None None
  = Ok [[str "a"; []; str "b"]; [[]]; [str "c"; []]].
Proof.
  apply (X1_csv_quote_free_rows
           (str "a,,b" ++ [c_newline; c_newline] ++ str "c,"
              ++ [c_newline])).
  reflexivity.
Defined.

End csv_quote_free.

Section csv_reserialise.

Import csv_lib.

(** The lines of a text, joined with line feeds, are the text without its
    final line feed. *)
Lemma join_lines_of (text : list N) :
  join [c_newline] (lines_of c_newline text) = chomp text.
Proof.
  destruct (split_on_last c_newline text) as (ls & lastp & E & Ht).
  pose proof (split_on_pieces c_newline text) as Hp. rewrite E in Hp.
  apply Forall_app in Hp as [_ Hp]. apply Forall_inv in Hp.
  unfold lines_of, chomp. rewrite E, last_last, removelast_last.
  destruct (length lastp =? 0) eqn:Hlen.
  - assert (lastp = []) as -> by (destruct lastp; [reflexivity|discriminate]).
    rewrite app_nil_r in Ht.
    destruct ls as [|l ls' _] using rev_ind; [now subst text|].
    rewrite join_terminated.
    rewrite map_app, concat_app in Ht. cbn [map concat] in Ht.
    rewrite app_nil_r, app_assoc in Ht.
    rewrite Ht, endswith_app, removelast_last. reflexivity.
  - rewrite join_terminated, <- Ht.
    destruct (endswith text [c_newline]) eqn:Ee; [|reflexivity].
    exfalso. apply endswith_single_true in Ee as [s' Ee].
    destruct lastp as [|y lp _] using rev_ind; [discriminate|].
    rewrite Ee, app_assoc in Ht. apply app_inj_tail in Ht as [_ <-].
    rewrite forallb_app in Hp. apply andb_true_iff in Hp as [_ Hp].
    cbn in Hp. discriminate.
Qed.

Lemma ser_rows_of_lines (ls : list (list N)) :
  Forall (fun l => quote_free l = true
                   /\ forallb (fun c => negb (N.eqb c c_newline)) l = true)
    ls ->
  map ser_row (map (split_on c_comma) ls) = ls.
Proof.
  induction 1 as [|l ls [Hq Hn] _ IH]; [reflexivity|].
  cbn [map]. rewrite IH. now destruct (ser_row_line l Hq Hn) as [-> _].
Qed.

(** X2: a text without double quotes comes back from [strs_to_csv] after
    [parse_csv] (default delimiters), but for one final line feed, which
    is lost. *)
Theorem X2_csv_quote_free_reserialised (text : list N) :
  quote_free text = true ->
  exists rows,
    parse_csv text None None None = Ok rows
    /\ strs_to_csv rows None None None = chomp text.
Proof.
  intros Hq. exists (rows_of_text text).
  split; [now apply parse_csv_quote_free|].
  unfold strs_to_csv, strs_to_csv_with, rows_of_text.
  change (map _ (map (split_on c_comma) ?ls))
    with (map ser_row (map (split_on c_comma) ls)).
  rewrite ser_rows_of_lines; [apply join_lines_of|].
  pose proof (lines_quote_free text Hq) as H.
  unfold lines_of. destruct (_ =? 0); [|exact H].
  rewrite Forall_forall in *. intros l Hin. apply H.
  destruct (split_on_last c_newline text) as (ls & lastp & E & _).
  rewrite E in *. rewrite removelast_last in Hin.
  apply in_or_app. now left.
Qed.

Lemma X2_csv_quote_free_reserialised_witness :
  exists rows,
    parse_csv (str "a,b" ++ [c_newline] ++ str ",c" ++ [c_newline])
      None None None = Ok rows
    /\ strs_to_csv rows None None None = str "a,b" ++ [c_newline] ++ str ",c".
Proof.
  apply (X2_csv_quote_free_reserialised
           (str "a,b" ++ [c_newline] ++ str ",c" ++ [c_newline])).
  reflexivity.
Defined.

End csv_reserialise.

(** ** csv_lib: the scan reads the text from left to right *)

Section csv_locality.

Import csv_lib.

Variables (quote_char comma_char new_line_char : list N).

Lemma index_firstn (s s' : list N) (n j : nat) :
  firstn n s = firstn n s' -> j < n -> index s j = index s' j.
Proof.
  intros H Hj. unfold index.
  assert (E : forall l : list N, nth_error l j = nth_error (firstn n l) j).
  { intros l. rewrite nth_error_firstn.
    destruct (Nat.ltb_spec j n); [reflexivity|lia]. }
  now rewrite (E s), (E s'), H.
Qed.

Lemma slice_firstn (s s' : list N) (a b : nat) :
  firstn b s = firstn b s' -> slice s a b = slice s' a b.
Proof.
  intros H. unfold slice. rewrite <- !skipn_firstn_comm. now rewrite H.
Qed.

Lemma firstn_le (s s' : list N) (n m : nat) :
  firstn n s = firstn n s' -> m <= n -> firstn m s = firstn m s'.
Proof.
  intros H Hm.
  replace m with (Nat.min m n) by lia.
  rewrite <- !firstn_firstn. now rewrite H.
Qed.

Lemma line_col_loop_firstn (s s' : list N) (n : nat) (range : list nat) :
  firstn n s = firstn n s' -> Forall (fun j => j < n) range ->
  forall lc lli,
    line_col_loop s range lc lli = line_col_loop s' range lc lli.
Proof.
  intros H. induction 1 as [|j range Hj _ IH]; intros lc lli;
    [reflexivity|].
  cbn [line_col_loop]. rewrite (index_firstn s s' n j H Hj).
  destruct (index s' j) as [c|]; [|reflexivity].
  cbn [bind]. now rewrite !IH.
Qed.

Lemma get_line_and_col_firstn (s s' : list N) (i : nat) :
  firstn i s = firstn i s' -> get_line_and_col s i = get_line_and_col s' i.
Proof.
  intros H. unfold get_line_and_col.
  rewrite (line_col_loop_firstn s s' i (seq 0 i) H); [reflexivity|].
  rewrite Forall_forall. intros j Hj. apply in_seq in Hj. lia.
Qed.

(** One iteration reads the text only before the index. *)
Lemma step_firstn (csv csv' : list N) (st : state) (i : nat) (c : N) :
  firstn i csv = firstn i csv' ->
  step csv quote_char comma_char new_line_char st i c
  = step csv' quote_char comma_char new_line_char st i c.
Proof.
  intros H. unfold step.
  rewrite (get_line_and_col_firstn csv csv' i H).
  now rewrite (slice_firstn csv csv' _ i H).
Qed.

Lemma scan_firstn (csv csv' : list N) (rest : list N) :
  forall i st,
    firstn (i + length rest) csv = firstn (i + length rest) csv' ->
    scan csv quote_char comma_char new_line_char rest i st
    = scan csv' quote_char comma_char new_line_char rest i st.
Proof.
  induction rest as [|c rest IH]; intros i st H; [reflexivity|].
  cbn [scan length] in *.
  rewrite (step_firstn csv csv' st i c) by (apply (firstn_le _ _ _ i H); lia).
  destruct (step csv' _ _ _ st i c) as [st'|]; [|reflexivity].
  cbn [bind]. apply IH. now replace (S i + length rest) with (i + S (length rest)) by lia.
Qed.

(** The scan of a text that has more text after it is the scan of the
    text alone. *)
Lemma scan_prefix (text more : list N) :
  scan (text ++ more) quote_char comma_char new_line_char text 0 init
  = scan text quote_char comma_char new_line_char text 0 init.
Proof.
  apply scan_firstn. cbn [Nat.add].
  now rewrite firstn_app, Nat.sub_diag, firstn_all, app_nil_r.
Qed.

(** The scan raises nothing but its two [SyntaxError]s. *)
Lemma step_raises (csv : list N) (st : state) (i : nat) (c : N) (e : exn) :
  i <= length csv ->
  step csv quote_char comma_char new_line_char st i c = Raise e ->
  exists row cell line col,
    get_line_and_col csv i = Ok (line, col)
    /\ (e = SyntaxError (CsvUnexpectedQuote i row cell line col)
        \/ e = SyntaxError (CsvExpectedSeparatorOrQuote i row cell line col)).
Proof.
  intros Hi H.
  destruct (get_line_and_col_total csv Hi) as (line & col & E).
  unfold step in H. rewrite E in H. cbn [bind] in H.
  repeat match type of H with
         | context [if ?b then _ else _] => destruct b; cbn [bind] in H
         end; try discriminate; injection H as <-; eauto 8.
Qed.

Lemma scan_raises (csv : list N) (rest : list N) (e : exn) :
  forall i st,
    i + length rest <= length csv ->
    scan csv quote_char comma_char new_line_char rest i st = Raise e ->
    exists pos row cell line col,
      pos < length csv
      /\ get_line_and_col csv pos = Ok (line, col)
      /\ (e = SyntaxError (CsvUnexpectedQuote pos row cell line col)
          \/ e = SyntaxError
                   (CsvExpectedSeparatorOrQuote pos row cell line col)).
Proof.
  induction rest as [|c rest IH]; intros i st Hi H; [discriminate|].
  cbn [scan length] in *.
  destruct (step csv _ _ _ st i c) as [st'|e'] eqn:E; cbn [bind] in H.
  - apply (IH (S i) st'); [lia|exact H].
  - injection H as ->.
    apply step_raises in E as (row & cell & line & col & Hlc & E); [|lia].
    exists i, row, cell, line, col. split; [lia|]. now split.
Qed.

Lemma finish_raises (csv : list N) (st : state) (e : exn) :
  finish csv comma_char st = Raise e ->
  e = SyntaxError (CsvUnexpectedEnd (length csv)).
Proof.
  unfold finish. intros H.
  repeat match type of H with
         | context [if ?b then _ else _] => destruct b; cbn [bind] in H
         end; try discriminate.
  now injection H as <-.
Qed.

(** X3: whatever the text and the delimiters, [parse_csv] raises nothing
    but a [SyntaxError]: for an unexpected quote or for a missing separator
    after a closing quote, at an offset into the text and with the line and
    column of this offset, or for the end of the input inside a quoted
    cell, at the length of the text. *)
Theorem X3_csv_raises_syntax_errors (csv : list N) (e : exn) :
  parse_csv_with csv quote_char comma_char new_line_char = Raise e ->
  (exists pos row cell line col,
      pos < length csv
      /\ get_line_and_col csv pos = Ok (line, col)
      /\ (e = SyntaxError (CsvUnexpectedQuote pos row cell line col)
          \/ e = SyntaxError
                   (CsvExpectedSeparatorOrQuote pos row cell line col)))
  \/ e = SyntaxError (CsvUnexpectedEnd (length csv)).
Proof.
  unfold parse_csv_with. intros H.
  destruct (scan csv _ _ _ csv 0 init) as [st|e'] eqn:E; cbn [bind] in H.
  - right. now apply finish_raises in H.
  - injection H as ->. left. apply scan_raises in E; [exact E|].
    cbn [Nat.add]. lia.
Qed.

(** X4: text after a syntax error does not repair it.  When [parse_csv]
    raises for an unexpected quote or for a missing separator, it raises
    the same error, with the same position, on every text that continues
    the rejected one. *)
Theorem X4_csv_error_is_final (text more : list N) (e : syntax_error) :
  parse_csv_with text quote_char comma_char new_line_char
  = Raise (SyntaxError e) ->
  e <> CsvUnexpectedEnd (length text) ->
  parse_csv_with (text ++ more) quote_char comma_char new_line_char
  = Raise (SyntaxError e).
Proof.
  unfold parse_csv_with. intros H He.
  rewrite scan_app, scan_prefix.
  destruct (scan text _ _ _ text 0 init) as [st|e'] eqn:E; cbn [bind] in *.
  - apply finish_raises in H. congruence.
  - exact H.
Qed.

(** X5: the first character that the scan rejects.  After a text whose
    scan ends inside an unquoted cell, a quote raises the [SyntaxError] for
    an unexpected quote; after a text whose scan ends on the closing quote
    of a quoted cell, a character that is neither a quote nor a separator
    raises the [SyntaxError] for a missing separator.  The error carries the
    offset of the character, the numbers of rows and of cells of the
    current row that were completed before it, and its line and column. *)
Theorem X5_csv_first_rejected_character (text more : list N) (c : N)
    (st : state) :
  scan text quote_char comma_char new_line_char text 0 init = Ok st ->
  exists line col,
    get_line_and_col (text ++ c :: more) (length text) = Ok (line, col)
    /\ (cell_is_quoted st = false -> out_of_cell st = false ->
        quote_char = [c] ->
        parse_csv_with (text ++ c :: more) quote_char comma_char
          new_line_char
        = Raise (SyntaxError
                   (CsvUnexpectedQuote (length text) (length (lines st))
                      (length (current_row st)) line col)))
    /\ (cell_is_quoted st = true -> last_was_quote st = true ->
        quote_char <> [c] -> comma_char <> [c] -> new_line_char <> [c] ->
        parse_csv_with (text ++ c :: more) quote_char comma_char
          new_line_char
        = Raise (SyntaxError
                   (CsvExpectedSeparatorOrQuote (length text)
                      (length (lines st)) (length (current_row st))
                      line col))).
Proof.
  intros Hscan.
  destruct (get_line_and_col_total (text ++ c :: more) (offset := length text))
    as (line & col & Hlc).
  { rewrite length_app. lia. }
  exists line, col. split; [exact Hlc|].
  assert (Hinv : between_cells_ok st).
  { apply scan_inv in Hscan as [_ H]; auto.
    - constructor.
    - intros _. reflexivity. }
  assert (Hneq : forall s : list N, s <> [c] -> pystr_eqb [c] s = false).
  { intros s Hs. destruct (pystr_eqb [c] s) eqn:E; [|reflexivity].
    apply pystr_eqb_eq in E. congruence. }
  unfold parse_csv_with. rewrite scan_app, scan_prefix, Hscan.
  cbn [bind scan Nat.add]. unfold step. rewrite Hlc.
  split.
  - intros Hq Ho Hc. rewrite Ho. cbv iota. cbn [andb].
    rewrite Hq, Hc, pystr_eqb_refl. reflexivity.
  - intros Hq Hl H1 H2 H3.
    destruct (out_of_cell st) eqn:Ho.
    { rewrite (Hinv Ho) in Hq. discriminate. }
    cbv iota. cbn [andb].
    rewrite Hq, Hl, !Hneq by assumption. reflexivity.
Qed.

End csv_locality.

Lemma X4_csv_error_is_final_witness :
  csv_lib.parse_csv_with (str "ab" ++ [c_quote] ++ str "c,d" ++ [c_newline])
    [c_quote] [c_comma] [c_newline]
  = Raise (SyntaxError (CsvUnexpectedQuote 2 0 0 0 2)).
Proof.
  apply (X4_csv_error_is_final [c_quote] [c_comma] [c_newline]
           (str "ab" ++ [c_quote]) (str "c,d" ++ [c_newline])
           (CsvUnexpectedQuote 2 0 0 0 2)).
  - reflexivity.
  - discriminate.
Defined.

Lemma X3_csv_raises_syntax_errors_witness :
  (exists pos row cell line col,
      pos < 6
      /\ csv_lib.get_line_and_col ([c_quote] ++ str "ab" ++ [c_quote]
                                     ++ str "cd") pos
         = Ok (line, col)
      /\ (SyntaxError (CsvExpectedSeparatorOrQuote 4 0 0 0 4)
          = SyntaxError (CsvUnexpectedQuote pos row cell line col)
          \/ SyntaxError (CsvExpectedSeparatorOrQuote 4 0 0 0 4)
             = SyntaxError
                 (CsvExpectedSeparatorOrQuote pos row cell line col)))
  \/ SyntaxError (CsvExpectedSeparatorOrQuote 4 0 0 0 4)
     = SyntaxError (CsvUnexpectedEnd 6).
Proof.
  apply (X3_csv_raises_syntax_errors [c_quote] [c_comma] [c_newline]
           ([c_quote] ++ str "ab" ++ [c_quote] ++ str "cd")
           (SyntaxError (CsvExpectedSeparatorOrQuote 4 0 0 0 4))).
  reflexivity.
Defined.

Lemma X5_csv_first_rejected_character_witness :
  exists line col,
    csv_lib.get_line_and_col (str "x,ab" ++ c_quote :: str "c") 4
    = Ok (line, col)
    /\ csv_lib.parse_csv_with (str "x,ab" ++ c_quote :: str "c")
         [c_quote] [c_comma] [c_newline]
       = Raise (SyntaxError (CsvUnexpectedQuote 4 0 1 line col)).
Proof.
  destruct (X5_csv_first_rejected_character [c_quote] [c_comma] [c_newline]
              (str "x,ab") (str "c") c_quote
              (csv_lib.mkState [] [str "x"] false 2 false false) eq_refl)
    as (line & col & Hlc & Hq & _).
  exists line, col. split; [exact Hlc|].
  apply Hq; reflexivity.
Defined.

(** ** The position resolver beyond the end of the text *)

Section locate_out_of_range.

Import csv_lib.

Lemma line_col_loop_out_of_range (text : list N) (n : nat) :
  forall a lc lli,
    a <= length text -> length text < a + n ->
    line_col_loop text (seq a n) lc lli = Raise IndexError.
Proof.
  induction n as [|n IH]; intros a lc lli Ha Hn; [lia|].
  cbn [seq line_col_loop]. unfold index.
  destruct (nth_error text a) as [c|] eqn:E; cbn [bind]; [|reflexivity].
  assert (a < length text) by (apply nth_error_Some; congruence).
  destruct (N.eqb c c_newline); apply IH; lia.
Qed.

(** X6: an offset beyond the end of the text has no position:
    [get_line_and_col] and [format_err_str] raise an [IndexError] there,
    as the loop reads the characters up to the offset. *)
Theorem X6_position_out_of_range (text : list N) (offset : nat) :
  length text < offset ->
  get_line_and_col text offset = Raise IndexError
  /\ forall m, format_err_str m text offset = Raise IndexError.
Proof.
  intros H.
  assert (E : line_col_loop text (seq 0 offset) 0 0 = Raise IndexError).
  { apply line_col_loop_out_of_range; lia. }
  split.
  - unfold get_line_and_col. now rewrite E.
  - intros m. unfold format_err_str.
    now rewrite format_loop_line_col_loop, E.
Qed.

End locate_out_of_range.

Lemma X6_position_out_of_range_witness :
  csv_lib.get_line_and_col (str "ab") 3 = Raise IndexError
  /\ forall m, format_err_str m (str "ab") 3 = Raise IndexError.
Proof. apply (X6_position_out_of_range (str "ab") 3). cbn. lia. Defined.

(** * Further properties of json_lib *)

(** ** What the parsers return *)

Section json_outcomes.

Variable float : Type.
Variable float_of_str : list N -> float.

Lemma skip_whitespace_loop_bounds (rest : list N) :
  forall i,
    i <= skip_whitespace_loop rest i
    /\ skip_whitespace_loop rest i <= i + length rest.
Proof.
  induction rest as [|c rest IH]; intros i; cbn [skip_whitespace_loop length].
  - lia.
  - destruct (mem_char c JSON_WHITESPACE); [|lia].
    specialize (IH (i + 1)). lia.
Qed.

Lemma skip_whitespace_bounds (json : list N) (i : nat) :
  i <= length json ->
  i <= skip_whitespace json i /\ skip_whitespace json i <= length json.
Proof.
  intros H. unfold skip_whitespace.
  pose proof (skip_whitespace_loop_bounds (skipn i json) i) as Hb.
  rewrite length_skipn in Hb. lia.
Qed.

Lemma index_bounds (json : list N) (i : nat) (c : N) :
  index json i = Ok c -> i < length json.
Proof.
  unfold index. destruct (nth_error json i) eqn:E; [|discriminate].
  intros _. apply nth_error_Some. congruence.
Qed.

Lemma index_raises (json : list N) (i : nat) (e : exn) :
  index json i = Raise e -> e = IndexError.
Proof.
  unfold index. destruct (nth_error json i); [discriminate|congruence].
Qed.

Lemma raise_at_outcome (A : Type) (b1 b2 : bool) (m : json_template)
    (json : list N) (i k : nat) :
  k <= length json ->
  outcome b1 b2 json i (@raise_at (A * nat) m json k).
Proof.
  intros H.
  destruct (get_line_and_col_total json H) as (line & col & E).
  unfold raise_at.
  rewrite (format_err_str_get_line_and_col m _ _ _ _ E). cbn [bind].
  cbn. now split.
Qed.

Lemma startswith_length (s p : list N) :
  startswith s p = true -> length p <= length s.
Proof.
  revert s. induction p as [|y p IH]; intros s H; cbn [length]; [lia|].
  destruct s as [|x s]; [discriminate|]. cbn [startswith] in H.
  apply andb_true_iff in H as [_ H]. apply IH in H. cbn [length]. lia.
Qed.

Lemma startswith_at_length (json p : list N) (i : nat) :
  i <= length json ->
  startswith (skipn i json) p = true -> i + length p <= length json.
Proof.
  intros Hi H. apply startswith_length in H. rewrite length_skipn in H.
  lia.
Qed.

Lemma parse_json_null_outcome (b1 b2 : bool) (json : list N) (i : nat) :
  i <= length json ->
  outcome b1 b2 json i (@parse_json_null float json i).
Proof.
  intros Hi. unfold parse_json_null.
  destruct (startswith (skipn i json) (str "null")) eqn:E; cbn [negb].
  - apply startswith_at_length in E; [|exact Hi]. cbn in *. lia.
  - now apply raise_at_outcome.
Qed.

Lemma pystr_eqb_length (a b : list N) :
  pystr_eqb a b = true -> length a = length b.
Proof. intros H. apply pystr_eqb_eq in H. now subst. Qed.

Lemma startswith_firstn (s p : list N) :
  startswith s p = true -> firstn (length p) s = p.
Proof.
  revert s. induction p as [|y p IH]; intros s H; [reflexivity|].
  destruct s as [|x s]; [discriminate|]. cbn [startswith] in H.
  apply andb_true_iff in H as [Hx H]. apply N.eqb_eq in Hx. subst y.
  cbn [length firstn]. now rewrite IH.
Qed.

Lemma startswith_slice (json p : list N) (i : nat) :
  startswith (skipn i json) p = true ->
  pystr_eqb (slice json i (i + length p)) p = true.
Proof.
  intros H. unfold slice.
  replace (i + length p - i) with (length p) by lia.
  rewrite (startswith_firstn _ _ H). apply pystr_eqb_refl.
Qed.

Lemma parse_json_boolean_outcome (b1 b2 : bool) (json : list N) (i : nat) :
  i <= length json ->
  outcome b1 b2 json i (parse_json_boolean json i).
Proof.
  intros Hi. unfold parse_json_boolean.
  destruct (startswith (skipn i json) (str "true")) eqn:Et; cbn [negb andb].
  - pose proof (startswith_slice json (str "true") i Et) as Es.
    change (i + length (str "true")) with (i + 4) in Es. rewrite Es.
    apply startswith_at_length in Et; [|exact Hi]. cbn in *. lia.
  - destruct (startswith (skipn i json) (str "false")) eqn:Ef; cbn [negb].
    + apply startswith_at_length in Ef; [|exact Hi].
      destruct (pystr_eqb _ _); cbn in *; lia.
    + now apply raise_at_outcome.
Qed.

Lemma format_err_str_in_text (m : json_template) (json : list N) (k : nat)
    (e : syntax_error) :
  format_err_str m json k = Ok e -> error_in_text json e.
Proof.
  unfold format_err_str. rewrite format_loop_line_col_loop.
  destruct (Nat.le_gt_cases k (length json)) as [Hk|Hk].
  - destruct (csv_lib.line_col_loop json (seq 0 k) 0 0) as [[lc lli]|]
      eqn:E; cbn [bind]; [|discriminate].
    intros [= <-]. cbn. split; [exact Hk|].
    unfold csv_lib.get_line_and_col. now rewrite E.
  - rewrite line_col_loop_out_of_range by lia. discriminate.
Qed.

Lemma format_err_str_raises (m : json_template) (json : list N) (k : nat)
    (ex : exn) :
  format_err_str m json k = Raise ex -> ex = IndexError.
Proof.
  unfold format_err_str.
  assert (H : forall range lc lli,
             format_loop json range lc lli = Raise ex -> ex = IndexError).
  { induction range as [|j range IH]; intros lc lli; [discriminate|].
    cbn [format_loop]. destruct (index json j) as [c|e] eqn:E; cbn [bind].
    - destruct (N.eqb c c_newline); apply IH.
    - intros [= <-]. now apply index_raises in E. }
  destruct (format_loop json (seq 0 k) 0 0) as [[lc lli]|e] eqn:E;
    cbn [bind]; [discriminate|].
  intros [= <-]. now apply H in E.
Qed.

(** A [SyntaxError] that is raised with a formatted position. *)
Lemma raise_at_in_text (A : Type) (m : json_template) (json : list N)
    (k : nat) (e : syntax_error) :
  @raise_at A m json k = Raise (SyntaxError e) -> error_in_text json e.
Proof.
  unfold raise_at.
  destruct (format_err_str m json k) as [e'|ex] eqn:E; cbn [bind].
  - intros [= <-]. now apply format_err_str_in_text in E.
  - intros [= ->]. apply format_err_str_raises in E. discriminate.
Qed.

Lemma before_e_loop_in_text (json s : list N) (e : syntax_error) :
  forall i b,
    before_e_loop json s i b = Raise (SyntaxError e) ->
    error_in_text json e.
Proof.
  induction s as [|c s IH]; intros i b; [discriminate|].
  cbn [before_e_loop].
  repeat match goal with
         | |- context [if ?x then _ else _] => destruct x
         end; eauto using raise_at_in_text.
Qed.

Lemma after_e_loop_in_text (json s : list N) (e : syntax_error) :
  forall i,
    after_e_loop json s i = Raise (SyntaxError e) -> error_in_text json e.
Proof.
  induction s as [|c s IH]; intros i; [discriminate|].
  cbn [after_e_loop].
  destruct (_ || _); eauto using raise_at_in_text.
Qed.

Lemma parse_json_number_in_text (json : list N) (i : nat)
    (e : syntax_error) :
  parse_json_number float_of_str json i = Raise (SyntaxError e) ->
  error_in_text json e.
Proof.
  unfold parse_json_number. cbv zeta. intros H.
  repeat match goal with
         | H : (if ?x then _ else _) = Raise _ |- _ => destruct x
         | H : raise_at _ _ _ = Raise (SyntaxError _) |- _ =>
             now apply raise_at_in_text in H
         | H : before_e_loop _ _ _ _ = Raise (SyntaxError _) |- _ =>
             now apply before_e_loop_in_text in H
         | H : after_e_loop _ _ _ = Raise (SyntaxError _) |- _ =>
             now apply after_e_loop_in_text in H
         | H : str_index _ _ = Raise _ |- _ =>
             unfold str_index in H; destruct (str_find _ _ _); discriminate
         | H : bind ?r _ = Raise _ |- _ =>
             let E := fresh "E" in
             destruct r as [?|?] eqn:E; cbn [bind] in H
         | H : Ok _ = Raise _ |- _ => discriminate
         | H : Raise ?x = Raise (SyntaxError _) |- _ =>
             is_var x; injection H as ->
         end.
Qed.

Lemma parse_json_number_outcome (b1 b2 : bool) (json : list N) (i : nat) :
  i <= length json ->
  outcome b1 b2 json i (parse_json_number float_of_str json i).
Proof.
  intros Hi.
  destruct (parse_json_number_spec float float_of_str json i Hi)
    as [Hok Herr].
  pose proof (number_token_bound json i Hi) as Hb.
  destruct (number_token_ok (number_token json i)) eqn:E.
  - rewrite (Hok eq_refl). cbn.
    destruct (number_token json i); [discriminate|]. cbn [length] in *. lia.
  - destruct (Herr eq_refl) as [e He]. rewrite He.
    now apply parse_json_number_in_text in He.
Qed.

Lemma str_loop_outcome (b2 : bool) (json rest : list N) :
  forall i esc char_list hex,
    i + length rest = length json ->
    outcome true b2 json i (str_loop json rest i esc char_list hex).
Proof.
  induction rest as [|c rest IH]; intros i esc char_list hex Hi;
    [reflexivity|].
  cbn [length] in Hi.
  assert (Hrec : forall esc' cl' hex',
             outcome true b2 json i
               (str_loop json rest (i + 1) esc' cl' hex')).
  { intros esc' cl' hex'.
    specialize (IH (i + 1) esc' cl' hex' ltac:(lia)).
    destruct (str_loop json rest (i + 1) esc' cl' hex') as [[s j]|[]];
      cbn in *; auto; lia. }
  assert (Herr : forall m,
             outcome true b2 json i
               (@raise_at (list N * nat) m json (i + 1))).
  { intros m. apply raise_at_outcome. lia. }
  cbn [str_loop]. cbv zeta.
  destruct hex as [h|].
  - repeat match goal with
           | |- context [if ?b then _ else _] => destruct b
           end; auto.
  - repeat match goal with
           | |- context [if ?b then _ else _] => destruct b
           end; auto.
    cbn. lia.
Qed.

Lemma parse_json_str_outcome (b2 : bool) (json : list N) (i : nat) :
  outcome true b2 json i (parse_json_str json i).
Proof.
  unfold parse_json_str.
  destruct (index json i) as [c|e] eqn:E; cbn [bind].
  - apply index_bounds in E.
    destruct (negb (N.eqb c c_quote)); [apply raise_at_outcome; lia|].
    pose proof (str_loop_outcome b2 json (skipn (i + 1) json) (i + 1)
                  false [] None) as H.
    rewrite length_skipn in H. specialize (H ltac:(lia)).
    destruct (str_loop json _ (i + 1) false [] None) as [[s j]|[]];
      cbn in *; auto; lia.
  - apply index_raises in E. now subst e.
Qed.

Section loops.

Variable parse_value : list N -> nat -> result (value float * nat).
Variable b2 : bool.

(** The loops under the assumption that the recursive calls that start
    from the offset [lo] on behave. *)
Variable json : list N.
Variable lo : nat.
Hypothesis parse_value_outcome :
  forall j, lo <= j <= length json ->
            outcome false b2 json j (parse_value json j).

Lemma arr_loop_outcome (fuel : nat) :
  forall i acc,
    lo <= i <= length json ->
    (b2 = false -> length json < fuel + i) ->
    outcome true b2 json i (arr_loop parse_value fuel json i acc).
Proof.
  induction fuel as [|fuel IH]; intros i acc Hi Hf; cbn [arr_loop].
  - cbn. destruct b2; [reflexivity|]. specialize (Hf eq_refl). lia.
  - pose proof (parse_value_outcome i Hi) as Hv.
    destruct (parse_value json i) as [[v i1]|e]; cbn [bind].
    2:{ destruct e; cbn in *; auto; discriminate. }
    cbn in Hv.
    pose proof (skip_whitespace_bounds json i1 ltac:(lia)) as Hs.
    destruct (index json (skip_whitespace json i1)) as [c|e] eqn:E;
      cbn [bind].
    2:{ apply index_raises in E. now subst e. }
    apply index_bounds in E.
    destruct (N.eqb c c_rbracket); [cbn; lia|].
    destruct (negb (N.eqb c c_comma)); [apply raise_at_outcome; lia|].
    pose proof (skip_whitespace_bounds json (skip_whitespace json i1 + 1)
                  ltac:(lia)) as Hs2.
    specialize (IH (skip_whitespace json (skip_whitespace json i1 + 1))
                  (acc ++ [v]) ltac:(lia)
                  ltac:(intros Hb; specialize (Hf Hb); lia)).
    destruct (arr_loop parse_value fuel json _ (acc ++ [v])) as [[a j]|[]];
      cbn in *; auto; lia.
Qed.

Lemma obj_loop_outcome (fuel : nat) :
  forall i obj c0,
    lo <= i <= length json ->
    (b2 = false -> length json < fuel + i) ->
    outcome true b2 json i (obj_loop parse_value fuel json i obj c0).
Proof.
  induction fuel as [|fuel IH]; intros i obj c0 Hi Hf; cbn [obj_loop].
  - cbn. destruct b2; [reflexivity|]. specialize (Hf eq_refl). lia.
  - pose proof (parse_json_str_outcome b2 json i) as Hk.
    destruct (parse_json_str json i) as [[key i1]|e]; cbn [bind].
    2:{ destruct e; cbn in *; auto. }
    cbn in Hk.
    pose proof (skip_whitespace_bounds json i1 ltac:(lia)) as Hs.
    destruct (index json (skip_whitespace json i1)) as [c|e] eqn:E;
      cbn [bind].
    2:{ apply index_raises in E. now subst e. }
    apply index_bounds in E.
    destruct (negb (N.eqb c c_colon)).
    { destruct c0; [apply raise_at_outcome; lia|exact I]. }
    pose proof (skip_whitespace_bounds json (skip_whitespace json i1 + 1)
                  ltac:(lia)) as Hs2.
    set (i2 := skip_whitespace json (skip_whitespace json i1 + 1)) in *.
    pose proof (parse_value_outcome i2 ltac:(lia)) as Hv.
    destruct (parse_value json i2) as [[v i3]|e]; cbn [bind].
    2:{ destruct e; cbn in *; auto; discriminate. }
    cbn in Hv.
    pose proof (skip_whitespace_bounds json i3 ltac:(lia)) as Hs3.
    destruct (index json (skip_whitespace json i3)) as [c'|e] eqn:E';
      cbn [bind].
    2:{ apply index_raises in E'. now subst e. }
    apply index_bounds in E'.
    destruct (N.eqb c' c_rbrace); [cbn; lia|].
    destruct (negb (N.eqb c' c_comma)); [apply raise_at_outcome; lia|].
    pose proof (skip_whitespace_bounds json (skip_whitespace json i3 + 1)
                  ltac:(lia)) as Hs4.
    specialize (IH (skip_whitespace json (skip_whitespace json i3 + 1))
                  (dict_set obj key v) (Some c') ltac:(lia)
                  ltac:(intros Hb; specialize (Hf Hb); lia)).
    destruct (obj_loop parse_value fuel json _ _ _) as [[a j]|[]];
      cbn in *; auto; lia.
Qed.

Lemma except_index_error_outcome (A : Type) (i : nat)
    (r : result (A * nat)) :
  outcome true b2 json i r ->
  outcome false b2 json i (except_index_error json r).
Proof. destruct r as [[a j]|[]]; cbn; auto. Qed.

Lemma parse_json_arr_outcome (fuel i : nat) :
  lo = i + 1 -> index json i = Ok c_lbracket ->
  (b2 = false -> length json < fuel + lo) ->
  outcome false b2 json i (parse_json_arr parse_value fuel json i).
Proof.
  intros Hlo E Hf. unfold parse_json_arr. rewrite E. cbn [bind].
  change (negb (N.eqb c_lbracket c_lbracket)) with false. cbv iota.
  apply index_bounds in E.
  pose proof (skip_whitespace_bounds json (i + 1) ltac:(lia)) as Hs.
  set (i1 := skip_whitespace json (i + 1)) in *.
  assert (H : outcome true b2 json i
                (c1 <- index json i1 ;;
                 if N.eqb c1 c_rbracket then Ok ([], i1 + 1)
                 else arr_loop parse_value fuel json i1 [])).
  { destruct (index json i1) as [c1|e] eqn:E1; cbn [bind].
    2:{ apply index_raises in E1. now subst e. }
    apply index_bounds in E1.
    destruct (N.eqb c1 c_rbracket); [cbn; lia|].
    pose proof (arr_loop_outcome fuel i1 [] ltac:(lia)
                  ltac:(intros Hb; specialize (Hf Hb); lia)) as Hl.
    destruct (arr_loop parse_value fuel json i1 []) as [[a j]|[]];
      cbn in *; auto; lia. }
  now apply except_index_error_outcome.
Qed.

Lemma parse_json_obj_outcome (fuel i : nat) :
  lo = i + 1 -> index json i = Ok c_lbrace ->
  (b2 = false -> length json < fuel + lo) ->
  outcome false b2 json i (parse_json_obj parse_value fuel json i).
Proof.
  intros Hlo E Hf. unfold parse_json_obj. rewrite E. cbn [bind].
  change (negb (N.eqb c_lbrace c_lbrace)) with false. cbv iota.
  apply index_bounds in E.
  pose proof (skip_whitespace_bounds json (i + 1) ltac:(lia)) as Hs.
  set (i1 := skip_whitespace json (i + 1)) in *.
  assert (H : outcome true b2 json i
                (c1 <- index json i1 ;;
                 if N.eqb c1 c_rbrace then Ok ([], i1 + 1)
                 else obj_loop parse_value fuel json i1 [] None)).
  { destruct (index json i1) as [c1|e] eqn:E1; cbn [bind].
    2:{ apply index_raises in E1. now subst e. }
    apply index_bounds in E1.
    destruct (N.eqb c1 c_rbrace); [cbn; lia|].
    pose proof (obj_loop_outcome fuel i1 [] None ltac:(lia)
                  ltac:(intros Hb; specialize (Hf Hb); lia)) as Hl.
    destruct (obj_loop parse_value fuel json i1 [] None) as [[a j]|[]];
      cbn in *; auto; lia. }
  now apply except_index_error_outcome.
Qed.

End loops.

Lemma outcome_bind (A B : Type) (b1 b2 : bool) (json : list N) (i : nat)
    (r : result (A * nat)) (f : A -> B) :
  outcome b1 b2 json i r ->
  outcome b1 b2 json i ('(a, j) <- r ;; Ok (f a, j)).
Proof. destruct r as [[a j]|e]; cbn; auto. Qed.

(** [parse_json_base], with fuel for the text that is left when
    [fuel_ok] holds. *)
Lemma parse_json_base_outcome (fuel_ok : bool) (fuel : nat) :
  forall json i,
    i <= length json ->
    (fuel_ok = true -> length json < fuel + i) ->
    outcome false (negb fuel_ok) json i
      (parse_json_base float_of_str fuel json i).
Proof.
  induction fuel as [|fuel IH]; intros json i Hi Hf; cbn [parse_json_base].
  - cbn. destruct fuel_ok; [|reflexivity]. specialize (Hf eq_refl). lia.
  - pose proof (skip_whitespace_bounds json i Hi) as Hs.
    set (i1 := skip_whitespace json i) in *.
    destruct (Nat.leb_spec (length json) i1) as [Hend|Hin]; [reflexivity|].
    destruct (index json i1) as [c|e] eqn:E; cbn [bind].
    2:{ unfold index in E. destruct (nth_error json i1) eqn:En;
          [discriminate|]. apply nth_error_None in En. lia. }
    assert (Hw : forall (r : result (value float * nat)),
               outcome false (negb fuel_ok) json i1 r ->
               outcome false (negb fuel_ok) json i r).
    { intros [[a j]|[]]; cbn; auto. lia. }
    assert (Hrec : forall j, i1 + 1 <= j <= length json ->
               outcome false (negb fuel_ok) json j
                 (parse_json_base float_of_str fuel json j)).
    { intros j Hj. apply IH; [lia|]. intros Hb. specialize (Hf Hb). lia. }
    assert (Hfuel : negb fuel_ok = false -> length json < fuel + (i1 + 1)).
    { intros Hb. apply negb_false_iff in Hb. specialize (Hf Hb). lia. }
    apply Hw.
    destruct (N.eqb_spec c c_lbrace) as [->|_].
    { apply (outcome_bind _ _ _ _ _ _ _ (@VDict float)).
      now apply (parse_json_obj_outcome _ _ json (i1 + 1) Hrec). }
    destruct (N.eqb_spec c c_lbracket) as [->|_].
    { apply (outcome_bind _ _ _ _ _ _ _ (@VList float)).
      now apply (parse_json_arr_outcome _ _ json (i1 + 1) Hrec). }
    destruct (N.eqb c c_quote).
    { apply (outcome_bind _ _ _ _ _ _ _ (@VStr float)).
      pose proof (parse_json_str_outcome (negb fuel_ok) json i1) as Hk.
      destruct (parse_json_str json i1) as [[s j]|[]] eqn:Es;
        cbn in *; auto.
      unfold parse_json_str in Es. rewrite E in Es. cbn [bind] in Es.
      destruct (negb (N.eqb c c_quote)).
      - destruct (raise_at_in_range (list N * nat) (TExpectedQuote c) json i1
                    ltac:(lia)) as (p & Hp & _).
        rewrite Hp in Es. discriminate.
      - destruct (str_loop _ _ _ _ _ _) as [?|[]]; discriminate. }
    destruct (N.eqb c c_n); [apply parse_json_null_outcome; lia|].
    destruct (N.eqb c c_t || N.eqb c c_f).
    { apply (outcome_bind _ _ _ _ _ _ _ (@VBool float)).
      apply parse_json_boolean_outcome. lia. }
    destruct (mem_char c JSON_NUM_START_CHARS).
    { apply (outcome_bind _ _ _ _ _ _ _ (@VFloat float)).
      apply parse_json_number_outcome. lia. }
    apply raise_at_outcome. lia.
Qed.

(** X7: on every text [parse_json] returns a value or raises a
    [SyntaxError] or, from the messages of [parse_json_obj] that name the
    unbound local [c], an [UnboundLocalError]; it raises no [IndexError],
    and the depth of its recursion stays within the length of the text. *)
Theorem X7_parse_json_outcomes (json : list N) :
  (exists v, parse_json float_of_str json = Ok v)
  \/ (exists e, parse_json float_of_str json = Raise (SyntaxError e))
  \/ parse_json float_of_str json = Raise UnboundLocalError.
Proof.
  unfold parse_json.
  pose proof (parse_json_base_outcome true (S (length json)) json 0
                ltac:(lia) ltac:(intros _; lia)) as H.
  destruct (parse_json_base float_of_str (S (length json)) json 0)
    as [[v i]|[]]; cbn in H; try discriminate; try contradiction;
    cbn [bind]; eauto.
  destruct (skip_whitespace json i <? length json); eauto.
Qed.

(** X8: a value that [parse_json_base] reads from an offset within the
    text takes at least one character, and the offset that is returned
    with it is within the text. *)
Theorem X8_parse_json_base_advances (fuel : nat) (json : list N)
    (i j : nat) (v : value float) :
  i <= length json ->
  parse_json_base float_of_str fuel json i = Ok (v, j) ->
  i < j <= length json.
Proof.
  intros Hi H.
  pose proof (parse_json_base_outcome false fuel json i Hi
                ltac:(discriminate)) as Ho.
  now rewrite H in Ho.
Qed.

(** X13: the position in a [SyntaxError] of [parse_json] lies in the
    text.  The unexpected end of the file is reported at the length of the
    text, a character that is left after the value at its offset, below
    the length, and every other error at an offset up to the length of the
    text, with the line and the column that [get_line_and_col] gives for
    this offset. *)
Theorem X13_parse_json_error_positions (json : list N)
    (e : syntax_error) :
  parse_json float_of_str json = Raise (SyntaxError e) ->
  error_in_text json e.
Proof.
  unfold parse_json.
  pose proof (parse_json_base_outcome true (S (length json)) json 0
                ltac:(lia) ltac:(intros _; lia)) as H.
  destruct (parse_json_base float_of_str (S (length json)) json 0)
    as [[v i]|ex]; cbn [bind].
  - destruct (Nat.ltb_spec (skip_whitespace json i) (length json));
      [|discriminate].
    intros [= <-]. exact H0.
  - intros [= ->]. exact H.
Qed.

End json_outcomes.

Lemma X13_parse_json_error_positions_witness :
  error_in_text (str "[1," ++ [c_newline] ++ str " x]")
    (JsonAt (TUnexpectedCharacter (ch "x")) (mkPosition 5 1 2)).
Proof.
  apply (X13_parse_json_error_positions (list N) (fun s => s)
           (str "[1," ++ [c_newline] ++ str " x]")
           (JsonAt (TUnexpectedCharacter (ch "x")) (mkPosition 5 1 2))).
  reflexivity.
Defined.

Lemma X8_parse_json_base_advances_witness :
  parse_json_base (fun s : list N => s) 3 (str " [1 , true]x") 0
  = Ok (VList [VFloat (str "1"); VBool true], 11)
  /\ 0 < 11 <= 12.
Proof.
  split; [reflexivity|].
  apply (X8_parse_json_base_advances (list N) (fun s => s) 3
           (str " [1 , true]x") 0 11
           (VList [VFloat (str "1"); VBool true])).
  - cbn. lia.
  - reflexivity.
Defined.

(** ** White space between the tokens *)

Section json_blank_runs.

Lemma blank_not_number (c : N) :
  mem_char c JSON_WHITESPACE = true -> mem_char c JSON_NUM_CHARS = false.
Proof.
  unfold mem_char, JSON_WHITESPACE. cbn [existsb]. intros H.
  repeat (apply orb_true_iff in H as [H|H];
          [apply N.eqb_eq in H; subst c; reflexivity|]).
  discriminate.
Qed.

Lemma delimited_blank (w rest : list N) (c : N) :
  blank w = true -> mem_char c JSON_NUM_CHARS = false ->
  delimited (w ++ c :: rest) = true.
Proof.
  intros Hw Hc. destruct w as [|x w]; cbn [app delimited].
  - now rewrite Hc.
  - cbn [blank forallb] in Hw. apply andb_true_iff in Hw as [Hx _].
    now rewrite (blank_not_number x Hx).
Qed.

Lemma skip_whitespace_loop_blank (w rest : list N) :
  blank w = true ->
  forall i,
    skip_whitespace_loop (w ++ rest) i
    = skip_whitespace_loop rest (i + length w).
Proof.
  induction w as [|x w IH]; intros Hw i; cbn [app length].
  - now rewrite Nat.add_0_r.
  - cbn [blank forallb] in Hw. apply andb_true_iff in Hw as [Hx Hw].
    cbn [skip_whitespace_loop]. rewrite Hx, (IH Hw). f_equal. lia.
Qed.

Lemma skip_whitespace_over (json pre w rest : list N) (c : N) (i : nat) :
  json = pre ++ w ++ c :: rest -> i = length pre ->
  blank w = true -> mem_char c JSON_WHITESPACE = false ->
  skip_whitespace json i = length pre + length w.
Proof.
  intros -> -> Hw Hc. unfold skip_whitespace.
  rewrite skipn_app_length, (skip_whitespace_loop_blank _ _ Hw).
  cbn [skip_whitespace_loop]. now rewrite Hc.
Qed.

Lemma skip_whitespace_over_end (json pre w : list N) (i : nat) :
  json = pre ++ w -> i = length pre -> blank w = true ->
  skip_whitespace json i = length json.
Proof.
  intros -> -> Hw. unfold skip_whitespace.
  rewrite skipn_app_length, <- (app_nil_r w),
    (skip_whitespace_loop_blank _ _ Hw).
  cbn [skip_whitespace_loop]. rewrite app_nil_r, length_app. reflexivity.
Qed.

Lemma blank_app (a b : list N) :
  blank (a ++ b) = blank a && blank b.
Proof. apply forallb_app. Qed.

End json_blank_runs.

Ltac len :=
  repeat first [rewrite length_app | progress cbn [length]]; lia.

Ltac ok_len :=
  match goal with
  | |- Ok (_, ?x) = Ok (_, ?y) => replace x with y; [|len]
  end.

Section json_spaced_read.

Variable float : Type.
Variable float_of_str : list N -> float.
Variable str_of_float : float -> list N.
Variable isfinite : float -> bool.
Variable float_of_int : Z -> float.

Hypothesis python_float :
  float_contract float float_of_str str_of_float isfinite float_of_int.

Local Abbreviation base := (parse_json_base float_of_str).
Local Abbreviation floated := (as_floats float_of_int).
Local Abbreviation members_floated :=
  (map (fun kv : list N * value float => (fst kv, floated (snd kv)))).

(** What is shown of a text of a value, of the elements of an array and of
    the members of an object. *)
Local Abbreviation reads_value :=
  (fun (v : value float) (t : list N) =>
     starts_value t
     /\ forall fuel, length t <= fuel ->
          parses_at (base fuel) (floated v) t).

Local Abbreviation reads_items :=
  (fun (l : list (value float)) (r : list N) =>
     starts_value r
     /\ forall f k json pre post acc,
          length r <= f -> length r <= k ->
          json = pre ++ r ++ post ->
          arr_loop (base f) k json (length pre) acc
          = Ok (acc ++ map floated l, length pre + length r)).

Local Abbreviation reads_members :=
  (fun (d : list (list N * value float)) (r : list N) =>
     (exists r', r = c_quote :: r')
     /\ forall f k json pre post acc c0,
          keys_unique (map fst (acc ++ d)) = true ->
          length r <= f -> length r <= k ->
          json = pre ++ r ++ post ->
          obj_loop (base f) k json (length pre) acc c0
          = Ok (acc ++ members_floated d, length pre + length r)).

Lemma reads_atom (v : value float) (t : list N) :
  supported isfinite v = true ->
  to_json_str str_of_float isfinite v None = Ok t ->
  reads_value v t.
Proof.
  intros Hs Ht.
  destruct (round_trip_value float float_of_str str_of_float isfinite
              float_of_int python_float v Hs) as (t' & Ht' & Hst & Hp).
  rewrite Ht in Ht'. injection Ht' as <-. now split.
Qed.

Lemma reads_items_last (v : value float) (t w : list N) :
  reads_value v t -> blank w = true ->
  reads_items [v] (t ++ w ++ [c_rbracket]).
Proof.
  intros [(c & r' & Et & Hc) Hp] Hw. split.
  { exists c, (r' ++ w ++ [c_rbracket]). rewrite Et. now split. }
  intros f k json pre post acc Hf Hk Ej.
  rewrite !length_app in Hf, Hk. cbn [length] in Hf, Hk.
  destruct k as [|k]; [lia|]. cbn [arr_loop].
  rewrite (Hp f ltac:(lia) json pre (w ++ c_rbracket :: post))
    by (side || now apply delimited_blank).
  cbn [bind].
  rewrite (skip_whitespace_over json (pre ++ t) w post c_rbracket)
    by side.
  rewrite (index_at json (pre ++ t ++ w) post c_rbracket) by side.
  cbn [bind]. change (N.eqb c_rbracket c_rbracket) with true. cbv iota.
  cbn [map]. ok_pos. reflexivity.
Qed.

Lemma reads_items_more (v : value float) (t w w' : list N)
    (l : list (value float)) (r : list N) :
  reads_value v t -> blank w = true -> blank w' = true ->
  reads_items l r ->
  reads_items (v :: l) (t ++ w ++ [c_comma] ++ w' ++ r).
Proof.
  intros [(c & r' & Et & Hc) Hp] Hw Hw' [(c1 & r1 & Er & Hc1) Hl]. split.
  { exists c, (r' ++ w ++ [c_comma] ++ w' ++ r). rewrite Et. now split. }
  intros f k json pre post acc Hf Hk Ej.
  rewrite !length_app in Hf, Hk. cbn [length] in Hf, Hk.
  destruct k as [|k]; [lia|]. cbn [arr_loop].
  rewrite (Hp f ltac:(lia) json pre
             (w ++ c_comma :: w' ++ r ++ post))
    by (side || now apply delimited_blank).
  cbn [bind].
  rewrite (skip_whitespace_over json (pre ++ t) w (w' ++ r ++ post) c_comma)
    by side.
  rewrite (index_at json (pre ++ t ++ w) (w' ++ r ++ post) c_comma) by side.
  cbn [bind]. change (N.eqb c_comma c_rbracket) with false.
  change (N.eqb c_comma c_comma) with true. cbn [negb]. cbv iota.
  rewrite (skip_whitespace_over json (pre ++ t ++ w ++ [c_comma]) w'
             (r1 ++ post) c1)
    by (try (now apply value_start_not_space); subst; side).
  replace (length (pre ++ t ++ w ++ [c_comma]) + length w')
    with (length (pre ++ t ++ w ++ [c_comma] ++ w')) by side.
  rewrite (Hl f k json (pre ++ t ++ w ++ [c_comma] ++ w') post
             (acc ++ [floated v])) by (lia || side).
  cbn [map]. rewrite <- app_assoc. cbn [app]. ok_pos. reflexivity.
Qed.

Lemma reads_list_empty (w : list N) :
  blank w = true ->
  reads_value (VList []) ([c_lbracket] ++ w ++ [c_rbracket]).
Proof.
  intros Hw. split.
  { exists c_lbracket, (w ++ [c_rbracket]). now split. }
  intros fuel Hfuel json pre post Ej _.
  cbn [length app] in Hfuel. destruct fuel as [|f]; [lia|].
  rewrite (base_arr float float_of_str f json pre
             (w ++ [c_rbracket] ++ post)) by side.
  unfold parse_json_arr.
  rewrite (index_at json pre (w ++ [c_rbracket] ++ post) c_lbracket)
    by side.
  cbn [bind]. change (N.eqb c_lbracket c_lbracket) with true. cbn [negb].
  rewrite (skip_whitespace_over json (pre ++ [c_lbracket]) w post
             c_rbracket) by side.
  rewrite (index_at json (pre ++ [c_lbracket] ++ w) post c_rbracket)
    by side.
  cbn [bind except_index_error].
  change (N.eqb c_rbracket c_rbracket) with true. cbv iota.
  cbn [bind except_index_error as_floats map]. ok_pos. reflexivity.
Qed.

Lemma reads_list (l : list (value float)) (w r : list N) :
  blank w = true -> reads_items l r ->
  reads_value (VList l) ([c_lbracket] ++ w ++ r).
Proof.
  intros Hw [(c1 & r1 & Er & Hc1) Hl]. split.
  { exists c_lbracket, (w ++ r). now split. }
  intros fuel Hfuel json pre post Ej _.
  rewrite !length_app in Hfuel. cbn [length] in Hfuel.
  destruct fuel as [|f]; [lia|].
  rewrite (base_arr float float_of_str f json pre (w ++ r ++ post)) by side.
  unfold parse_json_arr.
  rewrite (index_at json pre (w ++ r ++ post) c_lbracket) by side.
  cbn [bind]. change (N.eqb c_lbracket c_lbracket) with true. cbn [negb].
  rewrite (skip_whitespace_over json (pre ++ [c_lbracket]) w (r1 ++ post)
             c1)
    by (try (now apply value_start_not_space); subst; side).
  rewrite (index_at json (pre ++ [c_lbracket] ++ w) (r1 ++ post) c1)
    by (subst; side).
  cbn [bind]. rewrite (value_start_not_rbracket c1 Hc1).
  replace (length (pre ++ [c_lbracket]) + length w)
    with (length (pre ++ [c_lbracket] ++ w)) by side.
  rewrite (Hl f f json (pre ++ [c_lbracket] ++ w) post [])
    by (lia || side).
  cbn [except_index_error bind app as_floats]. ok_pos. reflexivity.
Qed.

Lemma reads_members_last (k : list N) (v : value float)
    (t w1 w2 w3 : list N) :
  valid_str k = true -> reads_value v t ->
  blank w1 = true -> blank w2 = true -> blank w3 = true ->
  reads_members [(k, v)]
    (escape_str_for_json k ++ w1 ++ [c_colon] ++ w2 ++ t ++ w3
       ++ [c_rbrace]).
Proof.
  intros Hk [(c & r' & Et & Hc) Hp] Hw1 Hw2 Hw3.
  set (ek := escape_str_for_json k) in *. split.
  { destruct (escape_str_for_json_head k) as [m Em]. fold ek in Em.
    rewrite Em. cbn [app]. eauto. }
  intros f n json pre post acc c0 Hu Hf Hn Ej.
  rewrite !length_app in Hf, Hn. cbn [length] in Hf, Hn.
  destruct n as [|n]; [lia|]. cbn [obj_loop].
  rewrite map_app in Hu. cbn [map fst] in Hu.
  pose proof (keys_unique_app_cons _ _ _ Hu) as Hfresh.
  rewrite (parse_json_str_at json pre
             (w1 ++ [c_colon] ++ w2 ++ t ++ w3 ++ [c_rbrace] ++ post) k)
    by side.
  fold ek. cbn [bind].
  rewrite (skip_whitespace_over json (pre ++ ek) w1
             (w2 ++ t ++ w3 ++ [c_rbrace] ++ post) c_colon) by side.
  rewrite (index_at json (pre ++ ek ++ w1)
             (w2 ++ t ++ w3 ++ [c_rbrace] ++ post) c_colon) by side.
  cbn [bind]. change (N.eqb c_colon c_colon) with true. cbn [negb].
  rewrite (skip_whitespace_over json (pre ++ ek ++ w1 ++ [c_colon]) w2
             (r' ++ w3 ++ [c_rbrace] ++ post) c)
    by (try (now apply value_start_not_space); subst; side).
  replace (length (pre ++ ek ++ w1 ++ [c_colon]) + length w2)
    with (length (pre ++ ek ++ w1 ++ [c_colon] ++ w2)) by side.
  rewrite (Hp f ltac:(lia) json (pre ++ ek ++ w1 ++ [c_colon] ++ w2)
             (w3 ++ c_rbrace :: post))
    by (side || now apply delimited_blank).
  cbn [bind].
  rewrite (skip_whitespace_over json
             (pre ++ ek ++ w1 ++ [c_colon] ++ w2 ++ t) w3 post c_rbrace)
    by side.
  rewrite (index_at json (pre ++ ek ++ w1 ++ [c_colon] ++ w2 ++ t ++ w3)
             post c_rbrace) by side.
  cbn [bind]. change (N.eqb c_rbrace c_rbrace) with true. cbv iota.
  rewrite dict_set_fresh by assumption.
  cbn [map fst snd]. ok_pos. reflexivity.
Qed.

Lemma reads_members_more (k : list N) (v : value float)
    (t w1 w2 w3 w4 : list N) (d : list (list N * value float))
    (r : list N) :
  valid_str k = true -> reads_value v t ->
  blank w1 = true -> blank w2 = true -> blank w3 = true ->
  blank w4 = true ->
  reads_members d r ->
  reads_members ((k, v) :: d)
    (escape_str_for_json k ++ w1 ++ [c_colon] ++ w2 ++ t ++ w3
       ++ [c_comma] ++ w4 ++ r).
Proof.
  intros Hk [(c & r' & Et & Hc) Hp] Hw1 Hw2 Hw3 Hw4 [[r1 Er] Hd].
  set (ek := escape_str_for_json k) in *. split.
  { destruct (escape_str_for_json_head k) as [m Em]. fold ek in Em.
    rewrite Em. cbn [app]. eauto. }
  intros f n json pre post acc c0 Hu Hf Hn Ej.
  rewrite !length_app in Hf, Hn. cbn [length] in Hf, Hn.
  destruct n as [|n]; [lia|]. cbn [obj_loop].
  pose proof Hu as Hu'. rewrite map_app in Hu'. cbn [map fst] in Hu'.
  pose proof (keys_unique_app_cons _ _ _ Hu') as Hfresh.
  rewrite (parse_json_str_at json pre
             (w1 ++ [c_colon] ++ w2 ++ t ++ w3 ++ [c_comma] ++ w4 ++ r
                ++ post) k) by side.
  fold ek. cbn [bind].
  rewrite (skip_whitespace_over json (pre ++ ek) w1
             (w2 ++ t ++ w3 ++ [c_comma] ++ w4 ++ r ++ post) c_colon)
    by side.
  rewrite (index_at json (pre ++ ek ++ w1)
             (w2 ++ t ++ w3 ++ [c_comma] ++ w4 ++ r ++ post) c_colon)
    by side.
  cbn [bind]. change (N.eqb c_colon c_colon) with true. cbn [negb].
  rewrite (skip_whitespace_over json (pre ++ ek ++ w1 ++ [c_colon]) w2
             (r' ++ w3 ++ [c_comma] ++ w4 ++ r ++ post) c)
    by (try (now apply value_start_not_space); subst; side).
  replace (length (pre ++ ek ++ w1 ++ [c_colon]) + length w2)
    with (length (pre ++ ek ++ w1 ++ [c_colon] ++ w2)) by side.
  rewrite (Hp f ltac:(lia) json (pre ++ ek ++ w1 ++ [c_colon] ++ w2)
             (w3 ++ c_comma :: w4 ++ r ++ post))
    by (side || now apply delimited_blank).
  cbn [bind].
  rewrite (skip_whitespace_over json
             (pre ++ ek ++ w1 ++ [c_colon] ++ w2 ++ t) w3
             (w4 ++ r ++ post) c_comma) by side.
  rewrite (index_at json (pre ++ ek ++ w1 ++ [c_colon] ++ w2 ++ t ++ w3)
             (w4 ++ r ++ post) c_comma) by side.
  cbn [bind]. change (N.eqb c_comma c_rbrace) with false.
  change (N.eqb c_comma c_comma) with true. cbn [negb]. cbv iota.
  rewrite (skip_whitespace_over json
             (pre ++ ek ++ w1 ++ [c_colon] ++ w2 ++ t ++ w3 ++ [c_comma])
             w4 (r1 ++ post) c_quote) by (subst; side).
  rewrite dict_set_fresh by assumption.
  replace (length (pre ++ ek ++ w1 ++ [c_colon] ++ w2 ++ t ++ w3
                     ++ [c_comma]) + length w4)
    with (length (pre ++ ek ++ w1 ++ [c_colon] ++ w2 ++ t ++ w3
                    ++ [c_comma] ++ w4)) by side.
  rewrite (Hd f n json
             (pre ++ ek ++ w1 ++ [c_colon] ++ w2 ++ t ++ w3 ++ [c_comma]
                ++ w4) post (acc ++ [(k, floated v)]) (Some c_comma)).
  - cbn [map fst snd]. rewrite <- app_assoc. cbn [app]. ok_len.
    reflexivity.
  - rewrite !map_app in *. cbn [map fst] in *. rewrite <- app_assoc.
    exact Hu.
  - lia.
  - lia.
  - side.
Qed.

Lemma reads_dict_empty (w : list N) :
  blank w = true ->
  reads_value (VDict []) ([c_lbrace] ++ w ++ [c_rbrace]).
Proof.
  intros Hw. split.
  { exists c_lbrace, (w ++ [c_rbrace]). now split. }
  intros fuel Hfuel json pre post Ej _.
  cbn [length app] in Hfuel. destruct fuel as [|f]; [lia|].
  rewrite (base_obj float float_of_str f json pre
             (w ++ [c_rbrace] ++ post)) by side.
  unfold parse_json_obj.
  rewrite (index_at json pre (w ++ [c_rbrace] ++ post) c_lbrace) by side.
  cbn [bind]. change (N.eqb c_lbrace c_lbrace) with true. cbn [negb].
  rewrite (skip_whitespace_over json (pre ++ [c_lbrace]) w post c_rbrace)
    by side.
  rewrite (index_at json (pre ++ [c_lbrace] ++ w) post c_rbrace) by side.
  cbn [bind except_index_error].
  change (N.eqb c_rbrace c_rbrace) with true. cbv iota.
  cbn [bind except_index_error as_floats map]. ok_pos. reflexivity.
Qed.

Lemma reads_dict (d : list (list N * value float)) (w r : list N) :
  blank w = true -> keys_unique (map fst d) = true ->
  reads_members d r ->
  reads_value (VDict d) ([c_lbrace] ++ w ++ r).
Proof.
  intros Hw Hu [[r1 Er] Hd]. split.
  { exists c_lbrace, (w ++ r). now split. }
  intros fuel Hfuel json pre post Ej _.
  rewrite !length_app in Hfuel. cbn [length] in Hfuel.
  destruct fuel as [|f]; [lia|].
  rewrite (base_obj float float_of_str f json pre (w ++ r ++ post)) by side.
  unfold parse_json_obj.
  rewrite (index_at json pre (w ++ r ++ post) c_lbrace) by side.
  cbn [bind]. change (N.eqb c_lbrace c_lbrace) with true. cbn [negb].
  rewrite (skip_whitespace_over json (pre ++ [c_lbrace]) w (r1 ++ post)
             c_quote) by (subst; side).
  rewrite (index_at json (pre ++ [c_lbrace] ++ w) (r1 ++ post) c_quote)
    by (subst; side).
  cbn [bind]. change (N.eqb c_quote c_rbrace) with false. cbv iota.
  replace (length (pre ++ [c_lbrace]) + length w)
    with (length (pre ++ [c_lbrace] ++ w)) by side.
  rewrite (Hd f f json (pre ++ [c_lbrace] ++ w) post [] None)
    by (assumption || lia || side).
  cbn [except_index_error bind app as_floats]. ok_pos. reflexivity.
Qed.

(** A text of a value with white space between its tokens is read back,
    wherever it stands. *)
Lemma spaced_reads :
  (forall v t, spaced str_of_float isfinite v t -> reads_value v t)
  /\ (forall l r, spaced_items str_of_float isfinite l r -> reads_items l r)
  /\ (forall d r,
        spaced_members str_of_float isfinite d r -> reads_members d r).
Proof.
  apply (spaced_mutual (str_of_float := str_of_float)
           (isfinite := isfinite)
           (fun v t => reads_value v t) (fun l r => reads_items l r)
           (fun d r => reads_members d r)).
  - intros v t _ Hs Ht. now apply reads_atom.
  - intros w Hw. now apply reads_list_empty.
  - intros l w r Hw _ Hl. now apply reads_list.
  - intros w Hw. now apply reads_dict_empty.
  - intros d w r Hw Hu _ Hd. now apply reads_dict.
  - intros v t w _ Hv Hw. now apply reads_items_last.
  - intros v t w w' l r _ Hv Hw Hw' _ Hl. now apply reads_items_more.
  - intros k v t w1 w2 w3 Hk _ Hv H1 H2 H3. now apply reads_members_last.
  - intros k v t w1 w2 w3 w4 d r Hk _ Hv H1 H2 H3 H4 _ Hd.
    now apply reads_members_more.
Qed.

End json_spaced_read.

Section json_spaced_documents.

Variable float : Type.
Variable float_of_str : list N -> float.
Variable str_of_float : float -> list N.
Variable isfinite : float -> bool.
Variable float_of_int : Z -> float.

Hypothesis python_float :
  float_contract float float_of_str str_of_float isfinite float_of_int.

(** [parse_json_base] begins after the white space at its offset. *)
Lemma parse_json_base_skips (fuel : nat) (json pre w rest : list N) (c : N) :
  json = pre ++ w ++ c :: rest -> blank w = true ->
  mem_char c JSON_WHITESPACE = false ->
  parse_json_base float_of_str fuel json (length pre)
  = parse_json_base float_of_str fuel json (length pre + length w).
Proof.
  intros Ej Hw Hc. destruct fuel as [|fuel]; [reflexivity|].
  cbn [parse_json_base].
  rewrite (skip_whitespace_over json pre w rest c) by side.
  rewrite (skip_whitespace_at json (pre ++ w) rest c) by side.
  reflexivity.
Qed.

(** A text that is read back wherever it stands, between white space. *)
Lemma parse_json_padded (v : value float) (t w0 post : list N) :
  starts_value t ->
  (forall fuel, length t <= fuel ->
                parses_at (parse_json_base float_of_str fuel) v t) ->
  blank w0 = true -> delimited post = true ->
  parse_json_base float_of_str (S (length (w0 ++ t ++ post)))
    (w0 ++ t ++ post) 0
  = Ok (v, length (w0 ++ t)).
Proof.
  intros (c & r & Et & Hc) Hp H0 Hd.
  change 0 with (length (@nil N)) at 1.
  rewrite (parse_json_base_skips _ (w0 ++ t ++ post) [] w0 (r ++ post) c)
    by (try (now apply value_start_not_space); subst; side).
  cbn [length Nat.add].
  rewrite (Hp (S (length (w0 ++ t ++ post))) ltac:(len)
             (w0 ++ t ++ post) w0 post) by (reflexivity || assumption).
  now rewrite length_app.
Qed.

Lemma delimited_blank_end (w : list N) :
  blank w = true -> delimited w = true.
Proof.
  destruct w as [|x w]; [reflexivity|]. unfold blank. cbn [forallb].
  intros H. apply andb_true_iff in H as [Hx _]. cbn [delimited].
  now rewrite (blank_not_number x Hx).
Qed.

Lemma spaced_reads_value (v : value float) (t : list N) :
  spaced str_of_float isfinite v t ->
  starts_value t
  /\ forall fuel, length t <= fuel ->
       parses_at (parse_json_base float_of_str fuel)
         (as_floats float_of_int v) t.
Proof.
  intros Hs.
  destruct (spaced_reads float float_of_str str_of_float isfinite
              float_of_int python_float) as [Hr _].
  exact (Hr v t Hs).
Qed.

(** X10: white space between the tokens does not count.  A text of a
    supported value with any white space after an opening bracket, around
    a comma or a colon, before a closing bracket, before the value and
    after it, is read by [parse_json] as the value (its integers as
    floats). *)
Theorem X10_parse_json_white_space (v : value float) (t w0 w1 : list N) :
  spaced str_of_float isfinite v t ->
  blank w0 = true -> blank w1 = true ->
  parse_json float_of_str (w0 ++ t ++ w1)
  = Ok (as_floats float_of_int v).
Proof.
  intros Hs H0 H1. destruct (spaced_reads_value v t Hs) as [Hst Hp].
  unfold parse_json.
  rewrite (parse_json_padded _ t w0 w1 Hst Hp H0 (delimited_blank_end _ H1)).
  cbn [bind].
  rewrite (skip_whitespace_over_end (w0 ++ t ++ w1) (w0 ++ t) w1)
    by (assumption || side).
  now rewrite Nat.ltb_irrefl.
Qed.

(** X11: text after the value is rejected.  When a text of a supported
    value, with white space as in X10, is followed by a character that is
    not white space (and that does not continue a number), [parse_json]
    raises the [SyntaxError] that expects the end of the input, at the
    offset of this character. *)
Theorem X11_parse_json_trailing_text (v : value float)
    (t w0 w1 rest : list N) (c : N) :
  spaced str_of_float isfinite v t ->
  blank w0 = true -> blank w1 = true ->
  mem_char c JSON_WHITESPACE = false ->
  delimited (w1 ++ c :: rest) = true ->
  parse_json float_of_str (w0 ++ t ++ w1 ++ c :: rest)
  = Raise (SyntaxError
             (JsonExpectedEndOfInput (length w0 + length t + length w1))).
Proof.
  intros Hs H0 H1 Hc Hd. destruct (spaced_reads_value v t Hs) as [Hst Hp].
  unfold parse_json.
  rewrite (parse_json_padded _ t w0 (w1 ++ c :: rest) Hst Hp H0 Hd).
  cbn [bind].
  rewrite (skip_whitespace_over (w0 ++ t ++ w1 ++ c :: rest) (w0 ++ t) w1
             rest c) by (assumption || side).
  replace (length (w0 ++ t) + length w1 <? length (w0 ++ t ++ w1 ++ c :: rest))
    with true by (symmetry; apply Nat.ltb_lt; len).
  now rewrite length_app.
Qed.

End json_spaced_documents.

(** ** The characters that [to_json] writes *)

Section json_printable.

Lemma numc_printable (c : N) :
  mem_char c JSON_NUM_CHARS = true -> printable c = true.
Proof.
  unfold mem_char, JSON_NUM_CHARS. cbn [existsb]. intros H.
  repeat (apply orb_true_iff in H as [H|H];
          [apply N.eqb_eq in H; subst c; reflexivity|]).
  discriminate.
Qed.

Lemma token_printable (tok : list N) :
  number_token_ok tok = true -> forallb printable tok = true.
Proof.
  intros H. apply number_token_chars in H.
  revert H. apply forallb_impl. exact numc_printable.
Qed.

Lemma hex_lower_printable (c : N) :
  is_hex_lower c = true -> printable c = true.
Proof.
  unfold is_hex_lower, printable, c_0, c_9, c_a, c_f. intros H.
  apply orb_true_iff in H as [H|H]; apply andb_true_iff in H as [Ha Hb];
    apply N.leb_le in Ha, Hb.
  - replace (N.leb 32 c) with true by (symmetry; apply N.leb_le; lia).
    replace (N.leb 55296 c) with false by (symmetry; apply N.leb_gt; lia).
    reflexivity.
  - replace (N.leb 32 c) with true by (symmetry; apply N.leb_le; lia).
    replace (N.leb 55296 c) with false by (symmetry; apply N.leb_gt; lia).
    reflexivity.
Qed.

Lemma escape_char_printable (c : N) :
  forallb printable (escape_char c) = true.
Proof.
  unfold escape_char.
  repeat match goal with
         | |- context [if N.eqb c ?d then _ else _] =>
             destruct (N.eqb c d); [reflexivity|]
         end.
  destruct (N.leb c 31 || (N.leb 55296 c && N.leb c 57343)) eqn:E.
  - pose proof (hex4_ok_escaped c E) as H. unfold hex4_ok in H.
    destruct (rjust (digits 16 c) 4 c_0) as [|h3 [|h2 [|h1 [|h0 [|]]]]];
      try discriminate.
    repeat (apply andb_true_iff in H as [H ?]).
    cbn [app forallb].
    change (printable c_backslash) with true.
    change (printable c_u) with true. cbn [andb].
    now rewrite (hex_lower_printable h3), (hex_lower_printable h2),
      (hex_lower_printable h1), (hex_lower_printable h0) by assumption.
  - cbn [forallb]. rewrite andb_true_r. unfold printable.
    apply orb_false_iff in E as [E1 E2]. rewrite E2.
    apply N.leb_gt in E1.
    replace (N.leb 32 c) with true by (symmetry; apply N.leb_le; lia).
    reflexivity.
Qed.

Lemma escape_str_printable (s : list N) :
  forallb printable (escape_str_for_json s) = true.
Proof.
  rewrite escape_str_for_json_chars, !forallb_app.
  cbn [forallb]. change (printable c_quote) with true. cbn [andb].
  rewrite andb_true_r.
  induction s as [|c s IH]; [reflexivity|].
  cbn [flat_map]. now rewrite forallb_app, escape_char_printable, IH.
Qed.

(** X9: [escape_str_for_json] writes, for every string, a text that
    begins and ends with a double quote and holds no control character
    and no surrogate: these are written as escapes. *)
Theorem X9_escape_str_printable (s : list N) :
  forallb printable (escape_str_for_json s) = true
  /\ exists body, escape_str_for_json s = [c_quote] ++ body ++ [c_quote].
Proof.
  split; [apply escape_str_printable|].
  rewrite escape_str_for_json_chars. eauto.
Qed.

End json_printable.

(** ** Indentation *)

Section json_indentation.

Variable float : Type.
Variable float_of_str : list N -> float.
Variable str_of_float : float -> list N.
Variable isfinite : float -> bool.
Variable float_of_int : Z -> float.

Hypothesis python_float :
  float_contract float float_of_str str_of_float isfinite float_of_int.

Lemma increase_indent_lines (t sp : list N) :
  increase_indent t sp = indent_lines sp t.
Proof. unfold increase_indent. apply replace_single. Qed.

Lemma indent_lines_app (w a b : list N) :
  indent_lines w (a ++ b) = indent_lines w a ++ indent_lines w b.
Proof. apply flat_map_app. Qed.

Lemma indent_lines_blank (w b : list N) :
  blank w = true -> blank b = true -> blank (indent_lines w b) = true.
Proof.
  unfold blank. intros Hw.
  induction b as [|c b IH]; intros Hb; [reflexivity|].
  cbn [forallb] in Hb. apply andb_true_iff in Hb as [Hc Hb].
  unfold indent_lines. cbn [flat_map]. fold (indent_lines w b).
  rewrite forallb_app, (IH Hb), andb_true_r.
  destruct (N.eqb c c_newline); cbn [forallb].
  - now rewrite Hw.
  - now rewrite Hc.
Qed.

(** Indentation changes nothing in a text without control characters. *)
Lemma indent_lines_printable (w t : list N) :
  forallb printable t = true -> indent_lines w t = t.
Proof.
  induction t as [|c t IH]; intros H; [reflexivity|].
  cbn [forallb] in H. apply andb_true_iff in H as [Hc H].
  unfold indent_lines. cbn [flat_map]. fold (indent_lines w t).
  rewrite (IH H).
  destruct (N.eqb_spec c c_newline) as [->|_]; [discriminate|reflexivity].
Qed.

(** The text of a value that is one token has no control character. *)
Lemma atom_printable (v : value float) (t : list N) :
  atom v = true ->
  to_json_str str_of_float isfinite v None = Ok t ->
  forallb printable t = true.
Proof.
  destruct v as [| b | n | x | s | l | d |]; try discriminate;
    intros _ H; cbn [to_json_str] in H.
  - now injection H as <-.
  - injection H as <-. now destruct b.
  - destruct (int_isfinite n) as [[|]|]; cbn [bind negb] in H;
      try discriminate.
    injection H as <-. destruct (str_of_int_token n) as [Htok ->].
    now apply token_printable.
  - destruct (isfinite x) eqn:Hx; cbn [negb] in H; [|discriminate].
    injection H as <-. apply token_printable.
    now apply (float_text float float_of_str str_of_float isfinite
                 float_of_int python_float x Hx).
  - injection H as <-. apply escape_str_printable.
Qed.

(** White space after the line feeds of a text with white space between
    its tokens leaves it such a text, of the same value. *)
Lemma spaced_indent (w : list N) :
  blank w = true ->
  (forall v t, spaced str_of_float isfinite v t ->
               spaced str_of_float isfinite v (indent_lines w t))
  /\ (forall l r, spaced_items str_of_float isfinite l r ->
                  spaced_items str_of_float isfinite l (indent_lines w r))
  /\ (forall d r, spaced_members str_of_float isfinite d r ->
                  spaced_members str_of_float isfinite d
                    (indent_lines w r)).
Proof.
  intros Hw.
  assert (Hb : forall b, blank b = true -> blank (indent_lines w b) = true)
    by (intros b; now apply indent_lines_blank).
  assert (Hk : forall k, indent_lines w (escape_str_for_json k)
                         = escape_str_for_json k)
    by (intros k; apply indent_lines_printable, escape_str_printable).
  apply (spaced_mutual (str_of_float := str_of_float)
           (isfinite := isfinite)
           (fun v t => spaced str_of_float isfinite v (indent_lines w t))
           (fun l r => spaced_items str_of_float isfinite l
                         (indent_lines w r))
           (fun d r => spaced_members str_of_float isfinite d
                         (indent_lines w r)));
    intros; rewrite ?indent_lines_app, ?Hk;
    change (indent_lines w [c_lbracket]) with [c_lbracket];
    change (indent_lines w [c_rbracket]) with [c_rbracket];
    change (indent_lines w [c_lbrace]) with [c_lbrace];
    change (indent_lines w [c_rbrace]) with [c_rbrace];
    change (indent_lines w [c_comma]) with [c_comma];
    change (indent_lines w [c_colon]) with [c_colon].
  - rewrite indent_lines_printable by (eapply atom_printable; eauto).
    now apply spaced_atom.
  - apply spaced_list_empty; auto.
  - apply spaced_list; auto.
  - apply spaced_dict_empty; auto.
  - apply spaced_dict; auto.
  - apply spaced_items_last; auto.
  - apply spaced_items_more; auto.
  - apply spaced_members_last; auto.
  - apply spaced_members_more; auto.
Qed.

End json_indentation.

(** ** Indented texts *)

Section json_pretty_text.

Variable float : Type.
Variable float_of_str : list N -> float.
Variable str_of_float : float -> list N.
Variable isfinite : float -> bool.
Variable float_of_int : Z -> float.

Hypothesis python_float :
  float_contract float float_of_str str_of_float isfinite float_of_int.

Variable sp : list N.
Hypothesis sp_blank : blank sp = true.

Variable to_json_rec : value float -> result (list N).

Local Abbreviation spaced := (spaced str_of_float isfinite).
Local Abbreviation spaced_items := (spaced_items str_of_float isfinite).
Local Abbreviation spaced_members := (spaced_members str_of_float isfinite).

Lemma spaced_indented (v : value float) (t : list N) :
  spaced v t -> spaced v (indent_lines sp t).
Proof.
  apply (spaced_indent float float_of_str str_of_float isfinite
           float_of_int python_float sp sp_blank).
Qed.

Lemma blank_line : blank (c_newline :: sp) = true.
Proof. unfold blank in *. cbn [forallb]. now rewrite sp_blank. Qed.

(** The loop of the [list] branch of [to_json] with indentation. *)
Lemma elements_loop_some (vals : list (value float)) (ts : list (list N)) :
  Forall2 (fun v t => to_json_rec v = Ok t /\ spaced v t) vals ts ->
  vals <> [] ->
  forall is_first acc,
  exists strs r,
    elements_loop to_json_rec (Some sp) vals is_first acc = Ok strs
    /\ concat strs ++ [c_newline] ++ [c_rbracket]
       = concat acc ++ (if is_first then [] else [c_comma])
           ++ (c_newline :: sp) ++ r
    /\ spaced_items vals r.
Proof.
  induction 1 as [|v t vals ts [Hv Hs] Hrest IH]; [congruence|].
  intros _ is_first acc. cbn [elements_loop]. rewrite Hv. cbn [bind].
  rewrite increase_indent_lines.
  set (acc' := ((if is_first then acc else acc ++ [[c_comma]])
                  ++ [[c_newline]; sp]) ++ [indent_lines sp t]).
  assert (Eacc : concat acc'
                 = concat acc ++ (if is_first then [] else [c_comma])
                     ++ (c_newline :: sp) ++ indent_lines sp t).
  { unfold acc'. destruct is_first; rewrite !concat_app; cbn [concat app];
      rewrite ?app_nil_r, <- ?app_assoc; reflexivity. }
  destruct Hrest as [|v' t' vals' ts' Hv' Hrest'].
  - exists acc', (indent_lines sp t ++ [c_newline] ++ [c_rbracket]).
    split; [reflexivity|]. split.
    + rewrite Eacc, <- !app_assoc. reflexivity.
    + apply spaced_items_last; [now apply spaced_indented|reflexivity].
  - destruct (IH ltac:(discriminate) false acc') as (strs & r' & E & Hc & Hr).
    exists strs,
      (indent_lines sp t ++ [] ++ [c_comma] ++ (c_newline :: sp) ++ r').
    split; [exact E|]. split.
    + rewrite Hc, Eacc, <- !app_assoc. reflexivity.
    + apply spaced_items_more; auto using spaced_indented, blank_line.
Qed.

(** The loop of the [dict] branch of [to_json] with indentation. *)
Lemma members_loop_some (d : list (list N * value float))
    (ts : list (list N)) :
  Forall2 (fun kv t => valid_str (fst kv) = true
                       /\ to_json_rec (snd kv) = Ok t /\ spaced (snd kv) t)
    d ts ->
  d <> [] ->
  forall is_first acc,
  exists strs r,
    members_loop to_json_rec (Some sp) d is_first acc = Ok strs
    /\ concat strs ++ [c_newline] ++ [c_rbrace]
       = concat acc ++ (if is_first then [] else [c_comma])
           ++ (c_newline :: sp) ++ r
    /\ spaced_members d r.
Proof.
  induction 1 as [|[k v] t d ts (Hk & Hv & Hs) Hrest IH]; [congruence|].
  intros _ is_first acc. cbn [members_loop]. cbn [fst snd] in Hk, Hv, Hs.
  rewrite Hv. cbn [bind]. rewrite increase_indent_lines.
  set (acc' := ((((if is_first then acc else acc ++ [[c_comma]])
                    ++ [[c_newline]; sp])
                   ++ [escape_str_for_json k; [c_colon]])
                  ++ [[c_space]]) ++ [indent_lines sp t]).
  assert (Eacc : concat acc'
                 = concat acc ++ (if is_first then [] else [c_comma])
                     ++ (c_newline :: sp) ++ escape_str_for_json k
                     ++ [c_colon] ++ [c_space] ++ indent_lines sp t).
  { unfold acc'. destruct is_first; rewrite !concat_app; cbn [concat app];
      rewrite ?app_nil_r, <- ?app_assoc; reflexivity. }
  destruct Hrest as [|[k' v'] t' d' ts' Hv' Hrest'].
  - exists acc',
      (escape_str_for_json k ++ [] ++ [c_colon] ++ [c_space]
         ++ indent_lines sp t ++ [c_newline] ++ [c_rbrace]).
    split; [reflexivity|]. split.
    + rewrite Eacc, <- !app_assoc. reflexivity.
    + apply spaced_members_last; auto using spaced_indented.
  - destruct (IH ltac:(discriminate) false acc') as (strs & r' & E & Hc & Hr).
    exists strs,
      (escape_str_for_json k ++ [] ++ [c_colon] ++ [c_space]
         ++ indent_lines sp t ++ [] ++ [c_comma] ++ (c_newline :: sp)
         ++ r').
    split; [exact E|]. split.
    + rewrite Hc, Eacc, <- !app_assoc. reflexivity.
    + apply spaced_members_more; auto using spaced_indented, blank_line.
Qed.

End json_pretty_text.

Section json_pretty_round_trip.

Variable float : Type.
Variable float_of_str : list N -> float.
Variable str_of_float : float -> list N.
Variable isfinite : float -> bool.
Variable float_of_int : Z -> float.

Hypothesis python_float :
  float_contract float float_of_str str_of_float isfinite float_of_int.

Local Abbreviation spaced := (spaced str_of_float isfinite).

(** With white space as indentation, [to_json] writes a text with white
    space between its tokens. *)
Lemma to_json_str_spaced (sp : list N) (v : value float) :
  blank sp = true -> supported isfinite v = true ->
  exists t, to_json_str str_of_float isfinite v (Some sp) = Ok t
            /\ spaced v t.
Proof.
  intros Hsp.
  assert (Hatom : forall v : value float,
             atom v = true -> supported isfinite v = true ->
             to_json_str str_of_float isfinite v (Some sp)
             = to_json_str str_of_float isfinite v None ->
             exists t, to_json_str str_of_float isfinite v (Some sp) = Ok t
                       /\ spaced v t).
  { intros a Ha Hs E.
    destruct (round_trip_value float float_of_str str_of_float isfinite
                float_of_int python_float a Hs) as (t & Ht & _).
    exists t. rewrite E. split; [exact Ht|]. now apply spaced_atom. }
  induction v as [| b | n | x | s | l IH | d IH |] using value_ind';
    intros H; try (now apply Hatom); try discriminate.
  - (* arrays *)
    cbn [supported] in H.
    assert (Hts : exists ts,
               Forall2 (fun v t =>
                          to_json_str str_of_float isfinite v (Some sp)
                          = Ok t /\ spaced v t) l ts).
    { induction IH as [|v l Hv _ IHl]; [exists []; constructor|].
      cbn [forallb] in H. apply andb_true_iff in H as [H1 H2].
      destruct (Hv H1) as [t Ht]. destruct (IHl H2) as [ts Hts].
      exists (t :: ts). now constructor. }
    destruct Hts as [ts Hts]. cbn [to_json_str].
    destruct l as [|v l].
    + exists (str "[]"). split; [reflexivity|].
      now apply (@spaced_list_empty float str_of_float isfinite []).
    + change (length (v :: l) =? 0) with false. cbv iota.
      destruct (elements_loop_some float float_of_str str_of_float isfinite
                  float_of_int python_float sp Hsp
                  (fun val => to_json_str str_of_float isfinite val
                                (Some sp))
                  (v :: l) ts Hts ltac:(discriminate) true [[c_lbracket]])
        as (strs & r & E & Hc & Hr).
      rewrite E. cbn [bind]. eexists. split; [reflexivity|].
      rewrite <- app_assoc, concat_app. cbn [concat app] in *.
      rewrite Hc.
      apply (@spaced_list float str_of_float isfinite (v :: l)
               (c_newline :: sp) r); [|exact Hr].
      unfold blank in *. cbn [forallb]. now rewrite Hsp.
  - (* objects *)
    cbn [supported] in H. apply andb_true_iff in H as [Hu H].
    assert (Hts : exists ts,
               Forall2 (fun kv t =>
                          valid_str (fst kv) = true
                          /\ to_json_str str_of_float isfinite (snd kv)
                               (Some sp) = Ok t
                          /\ spaced (snd kv) t) d ts).
    { clear Hu. induction IH as [|kv d Hv _ IHd]; [exists []; constructor|].
      cbn [forallb] in H. apply andb_true_iff in H as [H1 H2].
      apply andb_true_iff in H1 as [Hk H1].
      destruct (Hv H1) as [t [Ht Hs]]. destruct (IHd H2) as [ts Hts].
      exists (t :: ts). now constructor. }
    destruct Hts as [ts Hts]. cbn [to_json_str].
    destruct d as [|kv d].
    + exists (str "{}"). split; [reflexivity|].
      now apply (@spaced_dict_empty float str_of_float isfinite []).
    + change (length (kv :: d) =? 0) with false. cbv iota.
      destruct (members_loop_some float float_of_str str_of_float isfinite
                  float_of_int python_float sp Hsp
                  (fun val => to_json_str str_of_float isfinite val
                                (Some sp))
                  (kv :: d) ts Hts ltac:(discriminate) true [[c_lbrace]])
        as (strs & r & E & Hc & Hr).
      rewrite E. cbn [bind]. eexists. split; [reflexivity|].
      rewrite <- app_assoc, concat_app. cbn [concat app] in *.
      rewrite Hc.
      apply (@spaced_dict float str_of_float isfinite (kv :: d)
               (c_newline :: sp) r); [|exact Hu|exact Hr].
      unfold blank in *. cbn [forallb]. now rewrite Hsp.
Qed.

(** X12: indented texts are read back.  For every supported value and
    every indentation of white space (a number of spaces, or a string of
    spaces, tabs, carriage returns and line feeds), [to_json] returns a
    text, and [parse_json] of this text returns the value, its integers as
    floats. *)
Theorem X12_json_indented_round_trip (v : value float)
    (spaces : spaces_arg) :
  supported isfinite v = true -> blank_spaces spaces = true ->
  exists text,
    to_json str_of_float isfinite v (Some spaces) = Ok text
    /\ parse_json float_of_str text = Ok (as_floats float_of_int v).
Proof.
  intros Hv Hsp.
  assert (Hsp' : exists sp,
             blank sp = true
             /\ to_json str_of_float isfinite v (Some spaces)
                = to_json_str str_of_float isfinite v (Some sp)).
  { destruct spaces as [n|s].
    - exists (repeat c_space (Z.to_nat n)). split; [|reflexivity].
      unfold blank. apply forallb_forall. intros c Hc.
      apply repeat_spec in Hc. now subst c.
    - exists s. now split. }
  destruct Hsp' as (sp & Hb & ->).
  destruct (to_json_str_spaced sp v Hb Hv) as (t & Ht & Hs).
  exists t. split; [exact Ht|].
  destruct (spaced_reads float float_of_str str_of_float isfinite
              float_of_int python_float) as [Hr _].
  destruct (Hr v t Hs) as [Hst Hp].
  unfold parse_json.
  pose proof (parse_json_padded float float_of_str _ t [] [] Hst Hp
                eq_refl eq_refl) as E.
  cbn [app] in E. rewrite app_nil_r in E. rewrite E. cbn [bind].
  rewrite skip_whitespace_at_end by reflexivity.
  now rewrite Nat.ltb_irrefl.
Qed.

End json_pretty_round_trip.

Lemma X10_parse_json_white_space_witness :
  parse_json two_floats.float_of_str
    ([c_newline] ++ str "[ null" ++ [c_tab] ++ str ", 1 ]" ++ [c_space])
  = Ok (VList [VNone; VFloat true]).
Proof.
  apply (X10_parse_json_white_space two_floats.float
           two_floats.float_of_str two_floats.str_of_float
           two_floats.isfinite two_floats.float_of_int two_floats_contract
           (VList [VNone; VFloat true])
           (str "[ null" ++ [c_tab] ++ str ", 1 ]")
           [c_newline] [c_space]).
  - apply (@spaced_list two_floats.float two_floats.str_of_float
             two_floats.isfinite [VNone; VFloat true] [c_space]
             (str "null" ++ [c_tab] ++ [c_comma] ++ [c_space]
                ++ str "1" ++ [c_space] ++ [c_rbracket]));
      [reflexivity|].
    apply (@spaced_items_more two_floats.float two_floats.str_of_float
             two_floats.isfinite VNone (str "null") [c_tab] [c_space]
             [VFloat true] (str "1" ++ [c_space] ++ [c_rbracket]));
      try reflexivity.
    + now apply spaced_atom.
    + apply (@spaced_items_last two_floats.float two_floats.str_of_float
               two_floats.isfinite (VFloat true) (str "1") [c_space]);
        [|reflexivity].
      now apply spaced_atom.
  - reflexivity.
  - reflexivity.
Defined.

Lemma X11_parse_json_trailing_text_witness :
  parse_json two_floats.float_of_str (str "null" ++ [c_space] ++ str "1")
  = Raise (SyntaxError (JsonExpectedEndOfInput 5)).
Proof.
  apply (X11_parse_json_trailing_text two_floats.float
           two_floats.float_of_str two_floats.str_of_float
           two_floats.isfinite two_floats.float_of_int two_floats_contract
           VNone (str "null") [] [c_space] [] 49%N); try reflexivity.
  now apply spaced_atom.
Defined.

Lemma X12_json_indented_round_trip_witness :
  exists text,
    to_json two_floats.str_of_float two_floats.isfinite
      (VDict [(str "a", VInt 1);
              (str "b", VList [VFloat false; VNone; VDict []])])
      (Some (SpacesInt 2))
    = Ok text
    /\ parse_json two_floats.float_of_str text
       = Ok (VDict [(str "a", VFloat (two_floats.float_of_int 1));
                    (str "b", VList [VFloat false; VNone; VDict []])]).
Proof.
  apply (X12_json_indented_round_trip two_floats.float
           two_floats.float_of_str two_floats.str_of_float
           two_floats.isfinite two_floats.float_of_int two_floats_contract
           (VDict [(str "a", VInt 1);
                   (str "b", VList [VFloat false; VNone; VDict []])])
           (SpacesInt 2)); reflexivity.
Defined.

(** ** What [to_json] converts and what it raises *)

Section json_to_json_errors.

Variable float : Type.
Variable str_of_float : float -> list N.
Variable isfinite : float -> bool.

(** The two exceptions of [to_json]. *)
Local Abbreviation refused :=
  (fun (A : Type) (r : result A) =>
     r = Raise TypeError \/ r = Raise OverflowError).

Local Abbreviation converts :=
  (fun (A : Type) (ok : bool) (r : result A) =>
     (ok = true -> exists t, r = Ok t) /\ (ok = false -> refused A r)).

Section loops.

Variable to_json_rec : value float -> result (list N).
Variable spaces : option (list N).

Lemma elements_loop_converts (vals : list (value float)) :
  Forall (fun v => converts _ (serialisable isfinite v) (to_json_rec v))
    vals ->
  forall is_first acc,
    converts _ (forallb (serialisable isfinite) vals)
      (elements_loop to_json_rec spaces vals is_first acc).
Proof.
  induction 1 as [|v vals [Hok Hno] _ IH]; intros is_first acc.
  - split; [intros _; eexists; reflexivity|discriminate].
  - cbn [forallb elements_loop].
    destruct (serialisable isfinite v).
    + destruct (Hok eq_refl) as [t ->]. cbn [bind andb]. apply IH.
    + cbn [andb]. split; [discriminate|]. intros _.
      destruct (Hno eq_refl) as [-> | ->]; cbn [bind]; auto.
Qed.

Lemma members_loop_converts (d : list (list N * value float)) :
  Forall (fun kv =>
            converts _ (serialisable isfinite (snd kv))
              (to_json_rec (snd kv))) d ->
  forall is_first acc,
    converts _ (forallb (fun kv => serialisable isfinite (snd kv)) d)
      (members_loop to_json_rec spaces d is_first acc).
Proof.
  induction 1 as [|[k v] d [Hok Hno] _ IH]; intros is_first acc.
  - split; [intros _; eexists; reflexivity|discriminate].
  - cbn [forallb members_loop snd] in *.
    destruct (serialisable isfinite v).
    + destruct (Hok eq_refl) as [t ->]. cbn [bind andb]. apply IH.
    + cbn [andb]. split; [discriminate|]. intros _.
      destruct (Hno eq_refl) as [-> | ->]; cbn [bind]; auto.
Qed.

End loops.

Lemma to_json_str_converts (spaces : option (list N)) (v : value float) :
  converts _ (serialisable isfinite v)
    (to_json_str str_of_float isfinite v spaces).
Proof.
  induction v as [| b | n | x | s | l IH | d IH |] using value_ind';
    cbn [serialisable to_json_str].
  - split; [intros _; eexists; reflexivity|discriminate].
  - split; [intros _; eexists; reflexivity|discriminate].
  - unfold int_isfinite. rewrite Z.ltb_antisym.
    destruct (Z.leb (2 ^ 1024 - 2 ^ 970) (Z.abs n)); cbn [negb bind].
    + split; [discriminate|auto].
    + split; [intros _; eexists; reflexivity|discriminate].
  - destruct (isfinite x); cbn [negb].
    + split; [intros _; eexists; reflexivity|discriminate].
    + split; [discriminate|auto].
  - split; [intros _; eexists; reflexivity|discriminate].
  - destruct l as [|v l]; [split; [intros _; eexists; reflexivity|discriminate]|].
    change (length (v :: l) =? 0) with false. cbv iota.
    destruct (elements_loop_converts
                (fun val => to_json_str str_of_float isfinite val spaces)
                spaces (v :: l) IH true [[c_lbracket]]) as [Hok Hno].
    split.
    + intros H. destruct (Hok H) as [strs ->]. cbn [bind]. eauto.
    + intros H. destruct (Hno H) as [-> | ->]; cbn [bind]; auto.
  - destruct d as [|kv d]; [split; [intros _; eexists; reflexivity|discriminate]|].
    change (length (kv :: d) =? 0) with false. cbv iota.
    destruct (members_loop_converts
                (fun val => to_json_str str_of_float isfinite val spaces)
                spaces (kv :: d) IH true [[c_lbrace]]) as [Hok Hno].
    split.
    + intros H. destruct (Hok H) as [strs ->]. cbn [bind]. eauto.
    + intros H. destruct (Hno H) as [-> | ->]; cbn [bind]; auto.
  - split; [discriminate|auto].
Qed.


End json_to_json_errors.

(** ** The unbound local of [parse_json_obj] *)

Section json_unbound_local.

Variable float : Type.
Variable float_of_str : list N -> float.

(** X15: a first key that is not followed by a colon.  In an object whose
    first key is followed by another character than the colon,
    [parse_json] raises no [SyntaxError] but an [UnboundLocalError]: the
    message of the error names the local [c], which is assigned only
    after the first member. *)
Theorem X15_first_key_without_colon (k w0 w1 w2 rest : list N) (c : N) :
  valid_str k = true ->
  blank w0 = true -> blank w1 = true -> blank w2 = true ->
  mem_char c JSON_WHITESPACE = false -> c <> c_colon ->
  parse_json float_of_str
    (w0 ++ [c_lbrace] ++ w1 ++ escape_str_for_json k ++ w2 ++ c :: rest)
  = Raise UnboundLocalError.
Proof.
  intros Hk H0 H1 H2 Hc Hcolon.
  destruct (escape_str_for_json_head k) as [m Em].
  set (ek := escape_str_for_json k) in *.
  set (json := w0 ++ [c_lbrace] ++ w1 ++ ek ++ w2 ++ c :: rest).
  unfold parse_json.
  change 0 with (length (@nil N)) at 1.
  rewrite (parse_json_base_skips float float_of_str _ json [] w0
             (w1 ++ ek ++ w2 ++ c :: rest) c_lbrace)
    by (reflexivity || assumption).
  cbn [length Nat.add].
  rewrite (base_obj float float_of_str (length json) json w0
             (w1 ++ ek ++ w2 ++ c :: rest)) by reflexivity.
  unfold parse_json_obj.
  rewrite (index_at json w0 (w1 ++ ek ++ w2 ++ c :: rest) c_lbrace)
    by reflexivity.
  cbn [bind]. change (N.eqb c_lbrace c_lbrace) with true. cbn [negb].
  rewrite (skip_whitespace_over json (w0 ++ [c_lbrace]) w1
             (m ++ w2 ++ c :: rest) c_quote)
    by first [assumption | reflexivity | side
             | (subst json; rewrite Em; side)].
  rewrite (index_at json (w0 ++ [c_lbrace] ++ w1)
             (m ++ w2 ++ c :: rest) c_quote)
    by first [side | (subst json; rewrite Em; side)].
  cbn [bind]. change (N.eqb c_quote c_rbrace) with false. cbv iota.
  assert (Hlen : 1 <= length json) by (subst json; len).
  destruct (length json) as [|f]; [lia|]. cbn [obj_loop].
  replace (length (w0 ++ [c_lbrace]) + length w1)
    with (length (w0 ++ [c_lbrace] ++ w1)) by side.
  rewrite (parse_json_str_at json (w0 ++ [c_lbrace] ++ w1)
             (w2 ++ c :: rest) k)
    by first [assumption | (subst json ek; side)].
  fold ek. cbn [bind].
  rewrite (skip_whitespace_over json (w0 ++ [c_lbrace] ++ w1 ++ ek) w2
             rest c) by first [assumption | side | (subst json; side)].
  rewrite (index_at json (w0 ++ [c_lbrace] ++ w1 ++ ek ++ w2) rest c)
    by first [side | (subst json; side)].
  cbn [bind].
  replace (N.eqb c c_colon) with false
    by (symmetry; now apply N.eqb_neq).
  reflexivity.
Qed.

End json_unbound_local.

Lemma X15_first_key_without_colon_witness :
  parse_json (fun s : list N => s)
    (str "{" ++ escape_str_for_json (str "a") ++ str " 1}")
  = Raise UnboundLocalError.
Proof.
  apply (X15_first_key_without_colon (list N) (fun s => s)
           (str "a") [] [] [c_space] (str "}") 49%N);
    try reflexivity.
  discriminate.
Defined.

(** ** The offsets in the errors of [parse_json_number] *)

Section json_number_offsets.

Variable float : Type.
Variable float_of_str : list N -> float.

Local Abbreviation numc := (fun c : N => mem_char c JSON_NUM_CHARS).
Local Abbreviation NE := (fun c : N => negb (is_exponent_mark c)).

(** The loop over the digits before the exponent does not move its
    offset. *)
Lemma before_e_loop_digits (json s rest : list N) :
  forallb is_digit s = true ->
  forall i b,
    before_e_loop json (s ++ rest) i b = before_e_loop json rest i b.
Proof.
  induction s as [|c s IH]; intros H i b; [reflexivity|].
  cbn [forallb] in H. apply andb_true_iff in H as [Hc H].
  cbn [app before_e_loop].
  rewrite (digit_not_dot c Hc), not_digit_test, Hc. cbn [negb].
  now apply IH.
Qed.

Lemma digits_numc (s : list N) :
  forallb is_digit s = true -> forallb numc s = true.
Proof. apply forallb_impl. exact digit_numc. Qed.

Lemma digit_not_minus (c : N) : is_digit c = true -> N.eqb c c_minus = false.
Proof.
  intros H. apply digit_cases in H.
  repeat (destruct H as [->|H]; [reflexivity|]). now subst.
Qed.

(** The checks of [parse_json_number] before its loops, on a token that
    begins with a digit other than [0]. *)
Lemma number_body_head (json num : list N) (d : N) (i ind : nat) :
  is_digit d = true -> d <> c_0 ->
  number_body float_of_str json (d :: num) i false ind
  = let e_index := length (take_while NE (d :: num)) in
    let before_e := slice (d :: num) 0 e_index in
    if endswith before_e [c_dot]
    then raise_at TDecimalPointWithoutDigitAfter json
           (i + length before_e - 1)
    else if length before_e =? 0 then raise_at TEmptyNonExponent json i
    else
      _ <- before_e_loop json before_e i false ;;
      _ <-
        (if negb (e_index =? length (d :: num)) then
           let i := e_index + 1 in
           let after_e := slice_from (d :: num) (e_index + 1) in
           let signed :=
             startswith after_e [c_plus] || startswith after_e [c_minus] in
           let after_e := if signed then slice_from after_e 1 else after_e in
           let i := if signed then i + 1 else i in
           if length after_e =? 0 then raise_at TEndOfNumber json i
           else after_e_loop json after_e i
         else Ok i) ;;
      Ok (float_of_str (d :: num), ind).
Proof.
  intros Hd H0. unfold number_body.
  cbn [startswith]. rewrite (digit_not_dot d Hd). cbn [andb].
  cbn [nth]. replace (N.eqb d c_0) with false
    by (symmetry; now apply N.eqb_neq).
  rewrite andb_false_r. cbn [andb].
  rewrite e_index_spec. cbn [bind]. reflexivity.
Qed.

Lemma raise_at_position (A : Type) (m : json_template) (json : list N)
    (k : nat) :
  k <= length json ->
  exists line col,
    @raise_at A m json k
    = Raise (SyntaxError (JsonAt m (mkPosition k line col))).
Proof.
  intros H. destruct (get_line_and_col_total json H) as (line & col & E).
  exists line, col. unfold raise_at.
  now rewrite (format_err_str_get_line_and_col m _ _ _ _ E).
Qed.


End json_number_offsets.


(** ** Escapes with four hexadecimal digits *)

Section json_unicode_escape.

Lemma hex_digit_lower (h : N) :
  hex_digit h = true ->
  is_hex_lower (lower_char h) = true
  /\ hex_value (lower_char h) = hex_digit_value h.
Proof.
  unfold hex_digit. intros H.
  assert (Hr : (48 <= h <= 57 \/ 97 <= h <= 102 \/ 65 <= h <= 70)%N).
  { apply orb_true_iff in H as [H|H];
      [apply orb_true_iff in H as [H|H]|];
      apply andb_true_iff in H as [Ha Hb]; apply N.leb_le in Ha, Hb; lia. }
  unfold is_hex_lower, lower_char, hex_value, hex_digit_value,
    c_0, c_9, c_a, c_f.
  destruct Hr as [Hr|[Hr|Hr]];
    repeat match goal with
           | |- context [N.leb ?a ?b] =>
               first [ replace (N.leb a b) with true
                         by (symmetry; apply N.leb_le; lia)
                     | replace (N.leb a b) with false
                         by (symmetry; apply N.leb_gt; lia) ];
               cbn [andb orb]
           end; split; try reflexivity; lia.
Qed.

Lemma str_loop_hex_any (json : list N) (h : N) (rest : list N) (i : nat)
    (acc hs : list N) :
  hex_digit h = true ->
  str_loop json (h :: rest) i false acc (Some hs)
  = if length (hs ++ [lower_char h]) =? 4
    then str_loop json rest (i + 1) false
           (acc ++ [int16 (hs ++ [lower_char h])]) None
    else str_loop json rest (i + 1) false acc (Some (hs ++ [lower_char h])).
Proof.
  intros H. destruct (hex_digit_lower h H) as [Hl _].
  cbn [str_loop]. unfold is_hex_lower in Hl. now rewrite Hl.
Qed.

(** X17: an escape [\u] with four hexadecimal digits, in either case, is
    read by [parse_json_str] as the one character whose code the digits
    give; a code in the surrogate range is kept as it is, unpaired. *)
Theorem X17_unicode_escape (pre post : list N) (h3 h2 h1 h0 : N) :
  hex_digit h3 = true -> hex_digit h2 = true ->
  hex_digit h1 = true -> hex_digit h0 = true ->
  parse_json_str
    (pre ++ [c_quote; c_backslash; c_u; h3; h2; h1; h0; c_quote] ++ post)
    (length pre)
  = Ok ([(4096 * hex_digit_value h3 + 256 * hex_digit_value h2
         + 16 * hex_digit_value h1 + hex_digit_value h0)%N],
        length pre + 8).
Proof.
  intros H3 H2 H1 H0.
  unfold parse_json_str. cbn [app]. rewrite index_app_length. cbn [bind].
  change (N.eqb c_quote c_quote) with true. cbn [negb].
  rewrite skipn_app_length_plus. cbn [skipn].
  rewrite str_loop_backslash, str_loop_u.
  rewrite !str_loop_hex_any by assumption.
  cbn [app length Nat.eqb str_loop].
  change (N.eqb c_quote c_quote) with true. cbn [andb negb].
  cbn [except_index_error]. f_equal. f_equal.
  - f_equal. unfold int16. cbn [fold_left].
    destruct (hex_digit_lower h3 H3) as [_ ->].
    destruct (hex_digit_lower h2 H2) as [_ ->].
    destruct (hex_digit_lower h1 H1) as [_ ->].
    destruct (hex_digit_lower h0 H0) as [_ ->].
    lia.
  - lia.
Qed.

End json_unicode_escape.

Lemma X17_unicode_escape_witness :
  parse_json_str (str "[" ++ [c_quote] ++ str "\uD83d" ++ [c_quote]
                    ++ str "]") 1
  = Ok ([55357%N], 9).
Proof.
  apply (X17_unicode_escape (str "[") (str "]")
           (ch "D") (ch "8") (ch "3") (ch "d")); reflexivity.
Defined.

(** ** The compact text is one line *)

Section json_compact_printable.

Variable float : Type.
Variable float_of_str : list N -> float.
Variable str_of_float : float -> list N.
Variable isfinite : float -> bool.
Variable float_of_int : Z -> float.

Hypothesis python_float :
  float_contract float float_of_str str_of_float isfinite float_of_int.

Section loops.

Variable to_json_rec : value float -> result (list N).

Lemma elements_loop_printable (vals : list (value float)) :
  Forall (fun v => forall t, to_json_rec v = Ok t ->
                             forallb printable t = true) vals ->
  forall is_first acc strs,
    forallb printable (concat acc) = true ->
    elements_loop to_json_rec None vals is_first acc = Ok strs ->
    forallb printable (concat strs) = true.
Proof.
  induction 1 as [|v vals Hv _ IH]; intros is_first acc strs Hacc H;
    cbn [elements_loop] in H.
  - now injection H as <-.
  - destruct (to_json_rec v) as [t|] eqn:E; cbn [bind] in H; [|discriminate].
    apply IH in H; [exact H|].
    destruct is_first; rewrite !concat_app, !forallb_app; cbn [concat app];
      rewrite ?app_nil_r, ?forallb_app, Hacc, (Hv t eq_refl); reflexivity.
Qed.

Lemma members_loop_printable (d : list (list N * value float)) :
  Forall (fun kv => forall t, to_json_rec (snd kv) = Ok t ->
                              forallb printable t = true) d ->
  forall is_first acc strs,
    forallb printable (concat acc) = true ->
    members_loop to_json_rec None d is_first acc = Ok strs ->
    forallb printable (concat strs) = true.
Proof.
  induction 1 as [|[k v] d Hv _ IH]; intros is_first acc strs Hacc H;
    cbn [members_loop] in H.
  - now injection H as <-.
  - cbn [snd] in Hv.
    destruct (to_json_rec v) as [t|] eqn:E; cbn [bind] in H; [|discriminate].
    apply IH in H; [exact H|].
    destruct is_first; rewrite !concat_app, !forallb_app; cbn [concat app];
      rewrite ?app_nil_r, ?forallb_app, Hacc, (Hv t eq_refl),
        escape_str_printable; reflexivity.
Qed.

End loops.

Lemma to_json_str_printable (v : value float) :
  forall t,
    to_json_str str_of_float isfinite v None = Ok t ->
    forallb printable t = true.
Proof.
  induction v as [| b | n | x | s | l IH | d IH |] using value_ind';
    intros t H;
    try (apply (atom_printable float float_of_str str_of_float isfinite
                  float_of_int python_float _ t) in H;
         [exact H|reflexivity]);
    cbn [to_json_str] in H; try discriminate.
  - destruct l as [|v l]; [now injection H as <-|].
    change (length (v :: l) =? 0) with false in H. cbv iota in H.
    destruct (elements_loop _ None (v :: l) true [[c_lbracket]])
      as [strs|] eqn:E; cbn [bind] in H; [|discriminate].
    injection H as <-.
    apply elements_loop_printable in E; [|exact IH|reflexivity].
    rewrite concat_app, forallb_app, E. reflexivity.
  - destruct d as [|kv d]; [now injection H as <-|].
    change (length (kv :: d) =? 0) with false in H. cbv iota in H.
    destruct (members_loop _ None (kv :: d) true [[c_lbrace]])
      as [strs|] eqn:E; cbn [bind] in H; [|discriminate].
    injection H as <-.
    apply members_loop_printable in E; [|exact IH|reflexivity].
    rewrite concat_app, forallb_app, E. reflexivity.
Qed.

(** X18: the text that [to_json] returns without indentation, for any
    value, has no control character and no surrogate; in particular it
    has no line feed. *)
Theorem X18_compact_text_printable (v : value float) (text : list N) :
  to_json str_of_float isfinite v None = Ok text ->
  forallb printable text = true
  /\ forallb (fun c => negb (N.eqb c c_newline)) text = true.
Proof.
  intros H. pose proof (to_json_str_printable v text H) as Hp.
  split; [exact Hp|].
  revert Hp. apply forallb_impl. intros c Hc.
  destruct (N.eqb_spec c c_newline) as [->|_]; [discriminate|reflexivity].
Qed.

End json_compact_printable.

Lemma X18_compact_text_printable_witness :
  forallb printable
    (str "[" ++ escape_str_for_json [c_newline; 7%N; 55357%N] ++ str ",1]")
  = true
  /\ forallb (fun c => negb (N.eqb c c_newline))
       (str "[" ++ escape_str_for_json [c_newline; 7%N; 55357%N]
          ++ str ",1]")
     = true.
Proof.
  apply (X18_compact_text_printable two_floats.float
           two_floats.float_of_str two_floats.str_of_float
           two_floats.isfinite two_floats.float_of_int two_floats_contract
           (VList [VStr [c_newline; 7%N; 55357%N]; VFloat true])).
  reflexivity.
Defined.

(** ** Texts that end too early *)

Section json_truncated_read.

Variable float : Type.
Variable float_of_str : list N -> float.
Variable str_of_float : float -> list N.
Variable isfinite : float -> bool.
Variable float_of_int : Z -> float.

Hypothesis python_float :
  float_contract float float_of_str str_of_float isfinite float_of_int.

Local Abbreviation base := (parse_json_base float_of_str).
Local Abbreviation floated := (as_floats float_of_int).
Local Abbreviation spaced := (spaced str_of_float isfinite).
Local Abbreviation truncated := (truncated str_of_float isfinite).
Local Abbreviation truncated_items := (truncated_items str_of_float isfinite).
Local Abbreviation truncated_members :=
  (truncated_members str_of_float isfinite).

(** The error for the end of the file, and the results that become this
    error in a loop: the error itself, or the [IndexError] that the loop's
    caller catches. *)
Local Abbreviation eof :=
  (fun (A : Type) (json : list N) =>
     @Raise A (SyntaxError (JsonUnexpectedEndOfFile (length json)))).

Local Abbreviation ends :=
  (fun (A : Type) (json : list N) (x : result A) =>
     x = Raise IndexError \/ x = eof A json).

Lemma index_at_end (json pre : list N) (i : nat) :
  json = pre -> i = length pre -> index json i = Raise IndexError.
Proof.
  intros -> ->. unfold index.
  now rewrite (proj2 (nth_error_None pre (length pre)) (Nat.le_refl _)).
Qed.

Lemma skip_whitespace_to (json pre w r : list N) (i : nat) :
  json = pre ++ w ++ r -> i = length pre -> blank w = true ->
  r = [] \/ starts_value r ->
  skip_whitespace json i = length pre + length w.
Proof.
  intros Ej Ei Hw [-> | (c & r' & -> & Hc)].
  - rewrite app_nil_r in Ej.
    rewrite (skip_whitespace_over_end json pre w i Ej Ei Hw).
    subst json. apply length_app.
  - apply (skip_whitespace_over json pre w r' c i Ej Ei Hw).
    now apply value_start_not_space.
Qed.

Lemma except_ends (A : Type) (json : list N) (x : result A) :
  ends A json x -> except_index_error json x = eof A json.
Proof. intros [-> | ->]; reflexivity. Qed.

Lemma base_at_end (fuel : nat) (json pre : list N) :
  json = pre -> 1 <= fuel -> base fuel json (length pre) = eof _ json.
Proof.
  intros -> Hf. destruct fuel as [|fuel]; [lia|]. cbn [parse_json_base].
  rewrite skip_whitespace_at_end by reflexivity.
  now rewrite Nat.leb_refl.
Qed.

(** A string that is not closed. *)
Lemma parse_json_str_unclosed (json pre s : list N) :
  json = pre ++ c_quote :: flat_map escape_char s ->
  valid_str s = true ->
  parse_json_str json (length pre) = eof _ json.
Proof.
  intros -> Hs. unfold parse_json_str. rewrite index_app_length.
  cbn [bind]. change (N.eqb c_quote c_quote) with true. cbn [negb].
  rewrite skipn_app_length_plus. cbn [skipn].
  rewrite <- (app_nil_r (flat_map escape_char s)).
  rewrite str_loop_escaped by assumption.
  reflexivity.
Qed.

Local Abbreviation ends_value :=
  (fun (u : list N) =>
     starts_value u
     /\ forall fuel json pre,
          json = pre ++ u -> length u <= fuel ->
          base fuel json (length pre) = eof _ json).

Local Abbreviation ends_items :=
  (fun (r : list N) =>
     (r = [] \/ starts_value r)
     /\ forall f k json pre acc,
          json = pre ++ r ->
          length r <= f -> 1 <= f -> length r <= k -> 1 <= k ->
          ends _ json (arr_loop (base f) k json (length pre) acc)).

Local Abbreviation ends_members :=
  (fun (r : list N) =>
     (r = [] \/ exists r', r = c_quote :: r')
     /\ forall f k json pre acc c0,
          json = pre ++ r ->
          length r <= f -> 1 <= f -> length r <= k -> 1 <= k ->
          ends _ json (obj_loop (base f) k json (length pre) acc c0)).

Lemma spaced_parses (v : value float) (t : list N) :
  spaced v t ->
  starts_value t
  /\ forall fuel, length t <= fuel -> parses_at (base fuel) (floated v) t.
Proof.
  apply (spaced_reads_value float float_of_str str_of_float isfinite
           float_of_int python_float).
Qed.

Lemma ends_str (s : list N) :
  valid_str s = true -> ends_value (c_quote :: flat_map escape_char s).
Proof.
  intros Hs. split; [exists c_quote, (flat_map escape_char s); now split|].
  intros fuel json pre Ej Hf. cbn [length] in Hf.
  destruct fuel as [|f]; [lia|].
  rewrite (base_str float float_of_str f json pre
             (flat_map escape_char s) Ej).
  now rewrite (parse_json_str_unclosed json pre s Ej Hs).
Qed.

Lemma ends_list (w r : list N) :
  blank w = true -> ends_items r -> ends_value ([c_lbracket] ++ w ++ r).
Proof.
  intros Hw [Hr Hl]. split; [exists c_lbracket, (w ++ r); now split|].
  intros fuel json pre Ej Hf.
  rewrite !length_app in Hf. cbn [length] in Hf.
  destruct fuel as [|f]; [lia|].
  rewrite (base_arr float float_of_str f json pre (w ++ r)) by side.
  unfold parse_json_arr.
  rewrite (index_at json pre (w ++ r) c_lbracket) by side.
  cbn [bind]. change (N.eqb c_lbracket c_lbracket) with true. cbn [negb].
  rewrite (skip_whitespace_to json (pre ++ [c_lbracket]) w r)
    by (assumption || side).
  replace (length (pre ++ [c_lbracket]) + length w)
    with (length (pre ++ [c_lbracket] ++ w)) by side.
  destruct Hr as [-> | (c & r' & -> & Hc)].
  - rewrite app_nil_r in Ej.
    rewrite (index_at_end json (pre ++ [c_lbracket] ++ w)) by side.
    reflexivity.
  - rewrite (index_at json (pre ++ [c_lbracket] ++ w) r' c) by side.
    cbn [bind]. rewrite (value_start_not_rbracket c Hc).
    rewrite except_ends; [reflexivity|].
    apply (Hl f f json (pre ++ [c_lbracket] ++ w) []);
      [side | lia | cbn [length] in Hf; lia | lia | cbn [length] in Hf; lia].
Qed.

Lemma ends_items_end : ends_items [].
Proof.
  split; [now left|].
  intros f k json pre acc Ej _ Hf _ Hk. rewrite app_nil_r in Ej.
  destruct k as [|k]; [lia|]. cbn [arr_loop].
  rewrite (base_at_end f json pre Ej Hf). right. reflexivity.
Qed.

Lemma ends_items_inside (u : list N) : ends_value u -> ends_items u.
Proof.
  intros [Hst Hu]. split; [now right|].
  intros f k json pre acc Ej Hf _ _ Hk.
  destruct k as [|k]; [lia|]. cbn [arr_loop].
  rewrite (Hu f json pre Ej Hf). right. reflexivity.
Qed.

Lemma ends_items_value (v : value float) (t w : list N) :
  spaced v t -> blank w = true -> ends_items (t ++ w).
Proof.
  intros Hs Hw. destruct (spaced_parses v t Hs) as [(c & r' & Et & Hc) Hp].
  split.
  { right. exists c, (r' ++ w). rewrite Et. now split. }
  intros f k json pre acc Ej Hf _ _ Hk.
  rewrite !length_app in Hf.
  destruct k as [|k]; [lia|]. cbn [arr_loop].
  rewrite (Hp f ltac:(lia) json pre w)
    by (side || now apply delimited_blank_end).
  cbn [bind].
  rewrite (skip_whitespace_over_end json (pre ++ t) w) by (assumption || side).
  rewrite (index_at_end json json) by reflexivity.
  left. reflexivity.
Qed.

Lemma ends_items_more (v : value float) (t w w' r : list N) :
  spaced v t -> blank w = true -> blank w' = true ->
  ends_items r ->
  ends_items (t ++ w ++ [c_comma] ++ w' ++ r).
Proof.
  intros Hs Hw Hw' [Hr Hl].
  destruct (spaced_parses v t Hs) as [(c & r' & Et & Hc) Hp].
  split.
  { right. exists c, (r' ++ w ++ [c_comma] ++ w' ++ r). rewrite Et.
    now split. }
  intros f k json pre acc Ej Hf _ Hk _.
  rewrite !length_app in Hf, Hk. cbn [length] in Hf, Hk.
  assert (Ht : 1 <= length t) by (rewrite Et; cbn [length]; lia).
  destruct k as [|k]; [lia|]. cbn [arr_loop].
  rewrite (Hp f ltac:(lia) json pre (w ++ c_comma :: w' ++ r))
    by (side || now apply delimited_blank).
  cbn [bind].
  rewrite (skip_whitespace_over json (pre ++ t) w (w' ++ r) c_comma)
    by side.
  rewrite (index_at json (pre ++ t ++ w) (w' ++ r) c_comma) by side.
  cbn [bind]. change (N.eqb c_comma c_rbracket) with false.
  change (N.eqb c_comma c_comma) with true. cbn [negb]. cbv iota.
  rewrite (skip_whitespace_to json (pre ++ t ++ w ++ [c_comma]) w' r)
    by (assumption || side).
  replace (length (pre ++ t ++ w ++ [c_comma]) + length w')
    with (length (pre ++ t ++ w ++ [c_comma] ++ w')) by side.
  apply (Hl f k json (pre ++ t ++ w ++ [c_comma] ++ w') (acc ++ [floated v]));
    [side | lia | lia | lia | lia].
Qed.

Lemma ends_dict (w r : list N) :
  blank w = true -> ends_members r -> ends_value ([c_lbrace] ++ w ++ r).
Proof.
  intros Hw [Hr Hl]. split; [exists c_lbrace, (w ++ r); now split|].
  intros fuel json pre Ej Hf.
  rewrite !length_app in Hf. cbn [length] in Hf.
  destruct fuel as [|f]; [lia|].
  rewrite (base_obj float float_of_str f json pre (w ++ r)) by side.
  unfold parse_json_obj.
  rewrite (index_at json pre (w ++ r) c_lbrace) by side.
  cbn [bind]. change (N.eqb c_lbrace c_lbrace) with true. cbn [negb].
  assert (Hr' : r = [] \/ starts_value r).
  { destruct Hr as [->|[r' ->]]; [now left|right].
    exists c_quote, r'. now split. }
  rewrite (skip_whitespace_to json (pre ++ [c_lbrace]) w r)
    by (assumption || side).
  replace (length (pre ++ [c_lbrace]) + length w)
    with (length (pre ++ [c_lbrace] ++ w)) by side.
  destruct Hr as [-> | (r' & ->)].
  - rewrite app_nil_r in Ej.
    rewrite (index_at_end json (pre ++ [c_lbrace] ++ w)) by side.
    reflexivity.
  - rewrite (index_at json (pre ++ [c_lbrace] ++ w) r' c_quote) by side.
    cbn [bind]. change (N.eqb c_quote c_rbrace) with false. cbv iota.
    rewrite except_ends; [reflexivity|].
    apply (Hl f f json (pre ++ [c_lbrace] ++ w) [] None);
      [side | lia | cbn [length] in Hf; lia | lia | cbn [length] in Hf; lia].
Qed.

Lemma ends_members_end : ends_members [].
Proof.
  split; [now left|].
  intros f k json pre acc c0 Ej _ _ _ Hk. rewrite app_nil_r in Ej.
  destruct k as [|k]; [lia|]. cbn [obj_loop].
  unfold parse_json_str.
  rewrite (index_at_end json pre) by (assumption || reflexivity).
  left. reflexivity.
Qed.

Lemma ends_members_key (s : list N) :
  valid_str s = true ->
  ends_members (c_quote :: flat_map escape_char s).
Proof.
  intros Hs. split; [right; eauto|].
  intros f k json pre acc c0 Ej _ _ _ Hk.
  destruct k as [|k]; [lia|]. cbn [obj_loop].
  rewrite (parse_json_str_unclosed json pre s Ej Hs).
  right. reflexivity.
Qed.

(** The steps of the loop of [parse_json_obj] up to the value of a
    member. *)
Lemma obj_loop_to_value (k w1 w2 rest : list N) (f n : nat)
    (json pre : list N) (acc : list (list N * value float))
    (c0 : option N) :
  valid_str k = true -> blank w1 = true -> blank w2 = true ->
  rest = [] \/ starts_value rest ->
  json = pre ++ escape_str_for_json k ++ w1 ++ [c_colon] ++ w2 ++ rest ->
  obj_loop (base f) (S n) json (length pre) acc c0
  = ('(val, i) <-
       base f json
         (length (pre ++ escape_str_for_json k ++ w1 ++ [c_colon] ++ w2)) ;;
     let obj := dict_set acc k val in
     let i := skip_whitespace json i in
     c <- index json i ;;
     if N.eqb c c_rbrace then Ok (obj, i + 1)
     else if negb (N.eqb c c_comma)
     then raise_at (TExpectedCommaOrCloseBrace c) json i
     else
       let i := i + 1 in
       let i := skip_whitespace json i in
       obj_loop (base f) n json i obj (Some c)).
Proof.
  intros Hk Hw1 Hw2 Hrest Ej. set (ek := escape_str_for_json k) in *.
  cbn [obj_loop].
  rewrite (parse_json_str_at json pre (w1 ++ [c_colon] ++ w2 ++ rest) k)
    by side.
  fold ek. cbn [bind].
  rewrite (skip_whitespace_over json (pre ++ ek) w1 (w2 ++ rest) c_colon)
    by side.
  rewrite (index_at json (pre ++ ek ++ w1) (w2 ++ rest) c_colon) by side.
  cbn [bind]. change (N.eqb c_colon c_colon) with true. cbn [negb].
  rewrite (skip_whitespace_to json (pre ++ ek ++ w1 ++ [c_colon]) w2 rest)
    by (assumption || side).
  replace (length (pre ++ ek ++ w1 ++ [c_colon]) + length w2)
    with (length (pre ++ ek ++ w1 ++ [c_colon] ++ w2)) by side.
  reflexivity.
Qed.

Lemma ends_members_after_key (k w1 : list N) :
  valid_str k = true -> blank w1 = true ->
  ends_members (escape_str_for_json k ++ w1).
Proof.
  intros Hk Hw1. set (ek := escape_str_for_json k) in *. split.
  { right. destruct (escape_str_for_json_head k) as [m Em]. fold ek in Em.
    rewrite Em. cbn [app]. eauto. }
  intros f n json pre acc c0 Ej _ _ _ Hn.
  destruct n as [|n]; [lia|]. cbn [obj_loop].
  rewrite (parse_json_str_at json pre w1 k) by side.
  fold ek. cbn [bind].
  rewrite (skip_whitespace_over_end json (pre ++ ek) w1)
    by (assumption || side).
  rewrite (index_at_end json json) by reflexivity.
  left. reflexivity.
Qed.

Lemma members_head (k rest : list N) :
  exists r', escape_str_for_json k ++ rest = c_quote :: r'.
Proof.
  destruct (escape_str_for_json_head k) as [m ->]. cbn [app]. eauto.
Qed.

Lemma ends_members_colon (k w1 w2 : list N) :
  valid_str k = true -> blank w1 = true -> blank w2 = true ->
  ends_members (escape_str_for_json k ++ w1 ++ [c_colon] ++ w2).
Proof.
  intros Hk Hw1 Hw2. split; [right; apply members_head|].
  intros f n json pre acc c0 Ej _ Hf _ Hn.
  destruct n as [|n]; [lia|].
  rewrite (obj_loop_to_value k w1 w2 [] f n json pre acc c0)
    by (assumption || (now left) || (now rewrite app_nil_r)).
  rewrite (base_at_end f json _) by (assumption || side).
  right. reflexivity.
Qed.

Lemma ends_members_inside (k w1 w2 u : list N) :
  valid_str k = true -> blank w1 = true -> blank w2 = true ->
  ends_value u ->
  ends_members (escape_str_for_json k ++ w1 ++ [c_colon] ++ w2 ++ u).
Proof.
  intros Hk Hw1 Hw2 [Hst Hu]. split; [right; apply members_head|].
  intros f n json pre acc c0 Ej Hf _ _ Hn.
  destruct n as [|n]; [lia|].
  rewrite (obj_loop_to_value k w1 w2 u f n json pre acc c0)
    by (assumption || (now right)).
  rewrite (Hu f json _) by (side || (revert Hf; len)).
  right. reflexivity.
Qed.

Lemma ends_members_value (k w1 w2 : list N) (v : value float)
    (t w3 : list N) :
  valid_str k = true -> blank w1 = true -> blank w2 = true ->
  spaced v t -> blank w3 = true ->
  ends_members (escape_str_for_json k ++ w1 ++ [c_colon] ++ w2 ++ t ++ w3).
Proof.
  intros Hk Hw1 Hw2 Hs Hw3.
  destruct (spaced_parses v t Hs) as [(c & r' & Et & Hc) Hp].
  split; [right; apply members_head|].
  intros f n json pre acc c0 Ej Hf _ _ Hn.
  destruct n as [|n]; [lia|].
  rewrite (obj_loop_to_value k w1 w2 (t ++ w3) f n json pre acc c0)
    by (assumption
        || (right; exists c, (r' ++ w3); rewrite Et; now split)).
  set (ek := escape_str_for_json k) in *.
  rewrite (Hp f ltac:(revert Hf; len) json
             (pre ++ ek ++ w1 ++ [c_colon] ++ w2) w3)
    by (side || now apply delimited_blank_end).
  cbn [bind]. cbv zeta.
  rewrite (skip_whitespace_over_end json
             (pre ++ ek ++ w1 ++ [c_colon] ++ w2 ++ t) w3)
    by (assumption || side).
  rewrite (index_at_end json json) by reflexivity.
  left. reflexivity.
Qed.

Lemma ends_members_more (k w1 w2 : list N) (v : value float)
    (t w3 w4 r : list N) :
  valid_str k = true -> blank w1 = true -> blank w2 = true ->
  spaced v t -> blank w3 = true -> blank w4 = true ->
  ends_members r ->
  ends_members
    (escape_str_for_json k ++ w1 ++ [c_colon] ++ w2 ++ t ++ w3
       ++ [c_comma] ++ w4 ++ r).
Proof.
  intros Hk Hw1 Hw2 Hs Hw3 Hw4 [Hr Hl].
  destruct (spaced_parses v t Hs) as [(c & r' & Et & Hc) Hp].
  split; [right; apply members_head|].
  intros f n json pre acc c0 Ej Hf Hf1 Hn _.
  destruct n as [|n]; [revert Hn; rewrite Et; len|].
  rewrite (obj_loop_to_value k w1 w2 (t ++ w3 ++ [c_comma] ++ w4 ++ r)
             f n json pre acc c0)
    by (assumption
        || (right; exists c, (r' ++ w3 ++ [c_comma] ++ w4 ++ r);
            rewrite Et; now split)).
  set (ek := escape_str_for_json k) in *.
  rewrite (Hp f ltac:(revert Hf; len) json
             (pre ++ ek ++ w1 ++ [c_colon] ++ w2)
             (w3 ++ c_comma :: w4 ++ r))
    by (side || now apply delimited_blank).
  cbn [bind]. cbv zeta.
  rewrite (skip_whitespace_over json
             (pre ++ ek ++ w1 ++ [c_colon] ++ w2 ++ t) w3 (w4 ++ r)
             c_comma) by side.
  rewrite (index_at json (pre ++ ek ++ w1 ++ [c_colon] ++ w2 ++ t ++ w3)
             (w4 ++ r) c_comma) by side.
  cbn [bind]. change (N.eqb c_comma c_rbrace) with false.
  change (N.eqb c_comma c_comma) with true. cbn [negb]. cbv iota.
  assert (Hr' : r = [] \/ starts_value r).
  { destruct Hr as [->|[r1 ->]]; [now left|right].
    exists c_quote, r1. now split. }
  rewrite (skip_whitespace_to json
             (pre ++ ek ++ w1 ++ [c_colon] ++ w2 ++ t ++ w3 ++ [c_comma])
             w4 r) by (assumption || side).
  replace (length (pre ++ ek ++ w1 ++ [c_colon] ++ w2 ++ t ++ w3
                     ++ [c_comma]) + length w4)
    with (length (pre ++ ek ++ w1 ++ [c_colon] ++ w2 ++ t ++ w3
                    ++ [c_comma] ++ w4)) by side.
  apply (Hl f n json
           (pre ++ ek ++ w1 ++ [c_colon] ++ w2 ++ t ++ w3 ++ [c_comma]
              ++ w4)
           (dict_set acc k (floated v)) (Some c_comma)).
  - side.
  - revert Hf. len.
  - exact Hf1.
  - revert Hn. len.
  - revert Hn. rewrite Et. len.
Qed.

(** A text that ends inside a string, an array or an object. *)
Lemma truncated_ends :
  (forall u, truncated u -> ends_value u)
  /\ (forall r, truncated_items r -> ends_items r)
  /\ (forall r, truncated_members r -> ends_members r).
Proof.
  apply (truncated_mutual (str_of_float := str_of_float)
           (isfinite := isfinite)
           (fun u => ends_value u) (fun r => ends_items r)
           (fun r => ends_members r)).
  - intros s Hs. now apply ends_str.
  - intros w r Hw _ Hr. now apply ends_list.
  - intros w r Hw _ Hr. now apply ends_dict.
  - apply ends_items_end.
  - intros u _ Hu. now apply ends_items_inside.
  - intros v t w Hs Hw. now apply (ends_items_value v).
  - intros v t w w' r Hs Hw Hw' _ Hr. now apply (ends_items_more v).
  - apply ends_members_end.
  - intros s Hs. now apply ends_members_key.
  - intros k w1 H1 H2. now apply ends_members_after_key.
  - intros k w1 w2 Hk H1 H2. now apply ends_members_colon.
  - intros k w1 w2 u Hk H1 H2 _ Hu. now apply ends_members_inside.
  - intros k w1 w2 v t w3 Hk H1 H2 Hs H3.
    now apply (ends_members_value k w1 w2 v).
  - intros k w1 w2 v t w3 w4 r Hk H1 H2 Hs H3 H4 _ Hr.
    now apply (ends_members_more k w1 w2 v).
Qed.

(** X19: a text that ends between the tokens of an unclosed array or
    object, or inside a string after a whole character or escape, is
    rejected by [parse_json] with the [SyntaxError] for the unexpected end
    of the file, at the length of the text.  The text is [truncated]: every
    element, key and value before the end is complete, except that the last
    one may itself be such an unclosed string, array or object, at any
    depth.  A text that ends inside a number or inside [true], [false] or
    [null] is not of this form. *)
Theorem X19_parse_json_truncated (u w0 : list N) :
  truncated u -> blank w0 = true ->
  parse_json float_of_str (w0 ++ u)
  = Raise (SyntaxError (JsonUnexpectedEndOfFile (length (w0 ++ u)))).
Proof.
  intros Hu H0. destruct truncated_ends as [He _].
  destruct (He u Hu) as [(c & r & Eu & Hc) Hp].
  unfold parse_json.
  change 0 with (length (@nil N)) at 1.
  rewrite (parse_json_base_skips float float_of_str _ (w0 ++ u) [] w0 r c)
    by (try (now apply value_start_not_space); subst; side).
  cbn [length Nat.add].
  rewrite (Hp (S (length (w0 ++ u))) (w0 ++ u) w0 eq_refl)
    by (rewrite length_app; lia).
  reflexivity.
Qed.

End json_truncated_read.

Lemma X19_parse_json_truncated_witness :
  parse_json two_floats.float_of_str
    ([c_space] ++ str "{" ++ escape_str_for_json (str "a") ++ str ": [1, "
       ++ c_quote :: str "b")
  = Raise (SyntaxError (JsonUnexpectedEndOfFile 13)).
Proof.
  apply (X19_parse_json_truncated two_floats.float
           two_floats.float_of_str two_floats.str_of_float
           two_floats.isfinite two_floats.float_of_int two_floats_contract
           (str "{" ++ escape_str_for_json (str "a") ++ str ": [1, "
              ++ c_quote :: str "b")
           [c_space]); [|reflexivity].
  apply (@truncated_dict two_floats.float two_floats.str_of_float
           two_floats.isfinite []
           (escape_str_for_json (str "a") ++ [] ++ [c_colon] ++ [c_space]
              ++ str "[1, " ++ c_quote :: str "b")); [reflexivity|].
  apply (@truncated_members_inside two_floats.float two_floats.str_of_float
           two_floats.isfinite (str "a") [] [c_space]
           (str "[1, " ++ c_quote :: str "b")); try reflexivity.
  apply (@truncated_list two_floats.float two_floats.str_of_float
           two_floats.isfinite []
           (str "1" ++ [] ++ [c_comma] ++ [c_space]
              ++ c_quote :: str "b")); [reflexivity|].
  apply (@truncated_items_more two_floats.float two_floats.str_of_float
           two_floats.isfinite (VFloat true) (str "1") [] [c_space]
           (c_quote :: str "b")); try reflexivity.
  - now apply spaced_atom.
  - apply truncated_items_inside.
    apply (@truncated_str two_floats.float two_floats.str_of_float
             two_floats.isfinite (str "b")). reflexivity.
Defined.
